(** * MRI emulator core: a shallow embedding of [MRI_core.py]

    The development follows the source:
    - [NP]: the numpy scalar operations the core calls;
    - [MRIPhysics]: the pulse-sequence signal equations and the phantom;
    - [MRISimulatorModel]: the volume store, the importer
      ([load_mat_file]) and the image-formation pipeline
      ([calculate_image], [crop_or_pad]).
    - [PatientManager], [HistoryManager]: the patient and history lists;
    - [export_kspace], [export_dicom]: the exporters, with the pixel
      conversion of the DICOM export; the calls into scipy.io and pydicom
      are given by their outcome;
    - from [MRI_UI.py], the parts of the window that decide what the core is
      called with: the history table and its row deletion, the slice-index
      adjustment, the sequence presets and the export calls.
    The scipy.ndimage routines are parameters.

    Number model.  A numpy [float64] entry is a finite real, one of the two
    infinities or NaN; the special values follow IEEE 754 as numpy implements
    it, and zero carries no sign (a zero divisor behaves as [+0.0]).  Sums,
    products and quotients of finite array entries are exact: rounding is
    not modelled, and these entries are taken to stay inside the double
    range.  Where the source can leave that range the model follows it:
    [np.exp] overflows to [+Inf], the Python float arithmetic that sizes the
    zoom overflows to an infinity, and [int()] of an infinity or of NaN
    raises.  Python scalars passed as timing and geometry parameters are
    finite reals; [matrix_size] and the slice index are Python ints.
    Where a property is about the computed value itself, the equation is
    given a second time with its roundings written out ([Rounded]), and the
    computed value is compared with the real one under the standard model of
    double arithmetic. *)

From Stdlib Require Import Reals Lra Lia ZArith String Ascii Bool List.
From Stdlib Require Import FunctionalExtensionality.
Import ListNotations.

Open Scope R_scope.

(* ================================================================== *)
(** ** numpy scalars *)

Module NP.

Inductive float64 : Type :=
| Fin (r : R)
| PInf
| NInf
| NaN.

(** Largest finite double, [(2 - 2^-52) * 2^1023]. *)
Definition DBL_MAX : R := IZR ((2 ^ 53 - 1) * 2 ^ 971).

Definition is_finite (x : float64) : Prop :=
  match x with Fin _ => True | _ => False end.

(** Where rounding to a double overflows: a result of magnitude
    [2^1024 - 2^970] or more becomes an infinity. *)
Definition overflow_threshold : R := IZR (2 ^ 1024 - 2 ^ 970).

(** The double a finite real result becomes, as far as its range goes. *)
Definition overflow (r : R) : float64 :=
  if Rle_dec overflow_threshold r then PInf
  else if Rle_dec r (- overflow_threshold) then NInf
  else Fin r.

(** A Python [float] operation: the arithmetic on the values, with a finite
    result out of range turned into an infinity. *)
Definition overflowing (x : float64) : float64 :=
  match x with
  | Fin r => overflow r
  | _ => x
  end.

(** Three-way split on the sign of a real. *)
Definition sign_case {A : Type} (r : R) (neg zero pos : A) : A :=
  match total_order_T r 0 with
  | inleft (left _) => neg
  | inleft (right _) => zero
  | inright _ => pos
  end.

Definition fneg (x : float64) : float64 :=
  match x with
  | Fin r => Fin (- r)
  | PInf => NInf
  | NInf => PInf
  | NaN => NaN
  end.

Definition fadd (x y : float64) : float64 :=
  match x, y with
  | NaN, _ | _, NaN => NaN
  | Fin a, Fin b => Fin (a + b)
  | PInf, NInf | NInf, PInf => NaN
  | PInf, _ | _, PInf => PInf
  | NInf, _ | _, NInf => NInf
  end.

Definition fsub (x y : float64) : float64 := fadd x (fneg y).

Definition fmul (x y : float64) : float64 :=
  match x, y with
  | NaN, _ | _, NaN => NaN
  | Fin a, Fin b => Fin (a * b)
  | Fin a, PInf | PInf, Fin a => sign_case a NInf NaN PInf
  | Fin a, NInf | NInf, Fin a => sign_case a PInf NaN NInf
  | PInf, PInf | NInf, NInf => PInf
  | PInf, NInf | NInf, PInf => NInf
  end.

Definition fdiv (x y : float64) : float64 :=
  match x, y with
  | NaN, _ | _, NaN => NaN
  | Fin a, Fin b =>
      if Req_dec_T b 0 then sign_case a NInf NaN PInf else Fin (a / b)
  | Fin _, PInf | Fin _, NInf => Fin 0
  | PInf, Fin b => sign_case b NInf PInf PInf
  | NInf, Fin b => sign_case b PInf NInf NInf
  | PInf, PInf | PInf, NInf | NInf, PInf | NInf, NInf => NaN
  end.

(** [np.exp]: the exponential overflows to [+Inf] (above about 709.78). *)
Definition fexp (x : float64) : float64 :=
  match x with
  | Fin r => overflow (exp r)
  | PInf => PInf
  | NInf => Fin 0
  | NaN => NaN
  end.

(** [np.abs] *)
Definition fabs (x : float64) : float64 :=
  match x with
  | Fin r => Fin (Rabs r)
  | PInf | NInf => PInf
  | NaN => NaN
  end.

(** [np.maximum]: NaN propagates. *)
Definition maximum (x y : float64) : float64 :=
  match x, y with
  | NaN, _ | _, NaN => NaN
  | Fin a, Fin b => Fin (Rmax a b)
  | PInf, _ | _, PInf => PInf
  | NInf, z | z, NInf => z
  end.

(** [np.nan_to_num] with its default arguments: NaN becomes [0.0], the
    infinities become the largest and the most negative finite double. *)
Definition nan_to_num (x : float64) : float64 :=
  match x with
  | Fin r => Fin r
  | PInf => Fin DBL_MAX
  | NInf => Fin (- DBL_MAX)
  | NaN => Fin 0
  end.

(** [np.radians] *)
Definition radians (deg : R) : R := deg * PI / 180.

(** [x < c] on an entry; every comparison with NaN is false. *)
Definition flt (x : float64) (c : R) : bool :=
  match x with
  | Fin r => if Rlt_dec r c then true else false
  | NInf => true
  | PInf | NaN => false
  end.

End NP.

Import NP.

(* ================================================================== *)
(** ** class MRIPhysics: the signal equations, per voxel *)

Module MRIPhysics.

(** The [signal] array of [calculate_signal_steady_state] before the final
    [np.nan_to_num]. *)
Definition steady_state_signal (t1 t2 pd : float64) (tr te fa_deg : R) : float64 :=
  let fa_rad := radians fa_deg in
  let t1 := maximum t1 (Fin 1e-5) in
  let t2 := maximum t2 (Fin 1e-5) in
  let e1 := fexp (fdiv (Fin (- tr)) t1) in
  let e2 := fexp (fdiv (Fin (- te)) t2) in
  let numerator := fmul (fmul pd (fsub (Fin 1) e1)) (Fin (sin fa_rad)) in
  let denominator := fsub (Fin 1) (fmul e1 (Fin (cos fa_rad))) in
  fmul (fdiv numerator (fadd denominator (Fin 1e-9))) e2.

Definition calculate_signal_steady_state
    (t1 t2 pd : float64) (tr te fa_deg : R) : float64 :=
  nan_to_num (steady_state_signal t1 t2 pd tr te fa_deg).

Definition spin_echo (t1 t2 pd : float64) (tr te fa_deg : R) : float64 :=
  calculate_signal_steady_state t1 t2 pd tr te fa_deg.

Definition gradient_echo (t1 t2 pd : float64) (tr te fa_deg : R) : float64 :=
  calculate_signal_steady_state t1 t2 pd tr te fa_deg.

(** [mz_ti = 1 - 2 * np.exp(-ti / t1) + np.exp(-tr / t1)] *)
Definition mz_ti (t1 : float64) (tr ti : R) : float64 :=
  fadd (fsub (Fin 1) (fmul (Fin 2) (fexp (fdiv (Fin (- ti)) t1))))
       (fexp (fdiv (Fin (- tr)) t1)).

(** The [signal] array of [inversion_recovery] before [np.nan_to_num]. *)
Definition inversion_recovery_signal
    (t1 t2 pd : float64) (tr te ti fa_deg : R) : float64 :=
  let fa_rad := radians fa_deg in
  fabs (fmul (fmul (fmul pd (mz_ti t1 tr ti)) (Fin (sin fa_rad)))
             (fexp (fdiv (Fin (- te)) t2))).

Definition inversion_recovery
    (t1 t2 pd : float64) (tr te ti fa_deg : R) : float64 :=
  nan_to_num (inversion_recovery_signal t1 t2 pd tr te ti fa_deg).

End MRIPhysics.

(** The longitudinal magnetisation on reals, and its long-TR limit in which
    the [exp(-TR/T1)] term is dropped. *)
Definition Mz (T1 TR TI : R) : R := 1 - 2 * exp (- TI / T1) + exp (- TR / T1).
Definition Mz_long_TR (T1 TI : R) : R := 1 - 2 * exp (- TI / T1).

(* ================================================================== *)
(** ** Exceptions and arrays *)

(** [ConversionError] stands for the [TypeError] or [ValueError] numpy
    raises on a value that does not convert to [float64]. *)
Inductive exn : Type :=
| ZeroDivisionError
| IndexError
| KeyError
| ValueError
| TypeError
| ConversionError
| RuntimeError
| OverflowError
| OSError (msg : string).

Inductive result (A : Type) : Type :=
| Ok (a : A)
| Raise (e : exn).
Arguments Ok {A} a.
Arguments Raise {A} e.

Definition bind {A B : Type} (r : result A) (k : A -> result B) : result B :=
  match r with
  | Ok a => k a
  | Raise e => Raise e
  end.

Notation "x <- r ;; k" := (bind r (fun x => k))
  (at level 61, r at next level, right associativity).

(** An n-dimensional [float64] array: its shape and its entries in C order. *)
Record ndarray : Type := mk_ndarray {
  shape : list nat;
  data : list float64
}.

(** A 2-D array: the rows, and the row length (which an array with no rows
    still has). *)
Record array2 (A : Type) : Type := mk_array2 {
  ncols : nat;
  rows : list (list A)
}.
Arguments mk_array2 {A} ncols rows.
Arguments ncols {A} a.
Arguments rows {A} a.

Definition nrows {A : Type} (a : array2 A) : nat := length (rows a).

Definition shape2 {A : Type} (a : array2 A) : nat * nat := (nrows a, ncols a).

(** Every row has the declared length. *)
Definition wf_array2 {A : Type} (a : array2 A) : Prop :=
  Forall (fun r => length r = ncols a) (rows a).

Definition tabulate {A : Type} (h w : nat) (f : nat -> nat -> A) : array2 A :=
  mk_array2 w (map (fun i => map (fun j => f i j) (seq 0 w)) (seq 0 h)).

Definition get2 {A : Type} (d : A) (a : array2 A) (i j : nat) : A :=
  nth j (nth i (rows a) []) d.

Definition all2 {A : Type} (P : A -> Prop) (a : array2 A) : Prop :=
  Forall (Forall P) (rows a).

(** [a.T] *)
Definition transpose {A : Type} (d : A) (a : array2 A) : array2 A :=
  tabulate (ncols a) (nrows a) (fun i j => get2 d a j i).

(** [np.flipud] and [np.fliplr] *)
Definition flipud {A : Type} (a : array2 A) : array2 A :=
  mk_array2 (ncols a) (rev (rows a)).

Definition fliplr {A : Type} (a : array2 A) : array2 A :=
  mk_array2 (ncols a) (map (@rev A) (rows a)).

(** [np.rot90(m, k=1)], which numpy computes as [transpose(flip(m, 1))]. *)
Definition rot90 {A : Type} (d : A) (a : array2 A) : array2 A :=
  transpose d (fliplr a).

(** Python's [l[start:stop]] for integer bounds of either sign. *)
Definition slice_bound (n i : Z) : Z :=
  if (i <? 0)%Z then Z.max (i + n) 0 else Z.min i n.

Definition py_slice {A : Type} (l : list A) (start stop : Z) : list A :=
  let n := Z.of_nat (length l) in
  let a := slice_bound n start in
  let b := slice_bound n stop in
  firstn (Z.to_nat (b - a)) (skipn (Z.to_nat a) l).

(** Length of [range(n)[start:stop]]. *)
Definition slice_len (n : nat) (start stop : Z) : nat :=
  length (py_slice (seq 0 n) start stop).

(** [int(x)] of a finite Python float: truncation toward zero. *)
Definition py_int (x : R) : Z :=
  if Rle_dec 0 x then Int_part x else (- Int_part (- x))%Z.

(** [int(x)] of a Python float: an infinity raises [OverflowError], NaN
    raises [ValueError]. *)
Definition int_of_float (x : float64) : result Z :=
  match x with
  | Fin r => Ok (py_int r)
  | PInf | NInf => Raise OverflowError
  | NaN => Raise ValueError
  end.

(** [float(n)] of a Python int, as the mixed operations [n / x] and [n * x]
    convert it: an int beyond the double range raises [OverflowError]. *)
Definition float_of_int (n : Z) : result float64 :=
  match overflow (IZR n) with
  | Fin r => Ok (Fin r)
  | _ => Raise OverflowError
  end.

(** Python's [x + y], [x * y] and [x / y] on floats: a result out of range
    is an infinity, a zero divisor raises. *)
Definition py_add (x y : float64) : float64 := overflowing (fadd x y).

Definition py_mul (x y : float64) : float64 := overflowing (fmul x y).

Definition py_div (x y : float64) : result float64 :=
  match y with
  | Fin b =>
      if Req_dec_T b 0 then Raise ZeroDivisionError
      else Ok (overflowing (fdiv x y))
  | _ => Ok (overflowing (fdiv x y))
  end.

(** Python's [a / b] on ints: the quotient as a double; a zero divisor
    raises [ZeroDivisionError], a quotient out of range [OverflowError]. *)
Definition int_true_divide (a b : Z) : result float64 :=
  if (b =? 0)%Z then Raise ZeroDivisionError
  else
    match overflow (IZR a / IZR b) with
    | Fin r => Ok (Fin r)
    | _ => Raise OverflowError
    end.

(** [np.mean] of a run of entries; the mean of no entry is NaN. *)
Definition fsum (l : list float64) : float64 := fold_left fadd l (Fin 0).

Definition fmean (l : list float64) : float64 :=
  fdiv (fsum l) (Fin (INR (length l))).

(** Broadcasting of one axis length against another. *)
Definition bdim (a b : nat) : option nat :=
  if Nat.eqb a b then Some a
  else if Nat.eqb a 1 then Some b
  else if Nat.eqb b 1 then Some a
  else None.

Definition bshape (s t : nat * nat) : option (nat * nat) :=
  match bdim (fst s) (fst t), bdim (snd s) (snd t) with
  | Some h, Some w => Some (h, w)
  | _, _ => None
  end.

(** Entry [(i, j)] of [a] seen through broadcasting: an axis of length one
    is repeated. *)
Definition bget (a : array2 float64) (i j : nat) : float64 :=
  get2 NaN a (if Nat.eqb (nrows a) 1 then 0%nat else i)
             (if Nat.eqb (ncols a) 1 then 0%nat else j).

(** An elementwise expression over the three parameter slabs, in the order
    the signal equations combine them (PD with T1, then with T2); operands
    that do not broadcast raise [ValueError]. *)
Definition broadcast3 (f : float64 -> float64 -> float64 -> float64)
    (t1 t2 pd : array2 float64) : result (array2 float64) :=
  match bshape (shape2 pd) (shape2 t1) with
  | None => Raise ValueError
  | Some s =>
      match bshape s (shape2 t2) with
      | None => Raise ValueError
      | Some (h, w) =>
          Ok (tabulate h w (fun i j => f (bget t1 i j) (bget t2 i j) (bget pd i j)))
      end
  end.

(** Entry [vol[i, j, k]] of a 3-D array of shape [(d0, d1, d2)]. *)
Definition vget (v : ndarray) (d1 d2 i j k : nat) : float64 :=
  nth ((i * d1 + j) * d2 + k) (data v) NaN.

(** [vol[:, :, z_start:z_end]] averaged over the last axis. *)
Definition axial_slab (v : ndarray) (z_start z_end : Z) : result (array2 float64) :=
  match shape v with
  | [d0; d1; d2] =>
      Ok (tabulate d0 d1 (fun i j =>
            fmean (map (fun k => vget v d1 d2 i j k) (py_slice (seq 0 d2) z_start z_end))))
  | _ => Raise IndexError
  end.

(** [vol[:, z, :]] *)
Definition sagittal_slice (v : ndarray) (z : Z) : result (array2 float64) :=
  match shape v with
  | [d0; d1; d2] =>
      if ((0 <=? z) && (z <? Z.of_nat d1))%Z
      then Ok (tabulate d0 d2 (fun i k => vget v d1 d2 i (Z.to_nat z) k))
      else Raise IndexError
  | _ => Raise IndexError
  end.

(** [vol[z, :, :]] *)
Definition coronal_slice (v : ndarray) (z : Z) : result (array2 float64) :=
  match shape v with
  | [d0; d1; d2] =>
      if ((0 <=? z) && (z <? Z.of_nat d0))%Z
      then Ok (tabulate d1 d2 (fun j k => vget v d1 d2 (Z.to_nat z) j k))
      else Raise IndexError
  | _ => Raise IndexError
  end.

(** [shape[i]] of a tuple. *)
Definition dim_at (s : list nat) (i : nat) : result Z :=
  match nth_error s i with
  | Some d => Ok (Z.of_nat d)
  | None => Raise IndexError
  end.

(* ================================================================== *)
(** ** The spectrum transform *)

Definition complex : Type := (float64 * float64)%type.

Definition cadd (x y : complex) : complex :=
  (fadd (fst x) (fst y), fadd (snd x) (snd y)).

(** The DFT term [x * exp(-i * theta)] of a real sample. *)
Definition twiddle (x : float64) (theta : R) : complex :=
  (fmul x (Fin (cos theta)), fmul x (Fin (- sin theta))).

Definition csum (l : list complex) : complex := fold_left cadd l (Fin 0, Fin 0).

(** [np.fft.fft2] of a real image: the 2-D discrete Fourier transform;
    numpy rejects an axis of length zero. *)
Definition fft2 (a : array2 float64) : result (array2 complex) :=
  let M := nrows a in
  let N := ncols a in
  if (Nat.eqb M 0 || Nat.eqb N 0)%bool then Raise ValueError
  else Ok (tabulate M N (fun k l =>
         csum (flat_map (fun m =>
                 map (fun n =>
                        twiddle (get2 NaN a m n)
                          (2 * PI * (INR k * INR m / INR M + INR l * INR n / INR N)))
                     (seq 0 N))
               (seq 0 M)))).

(** [np.fft.fftshift] along one axis: a roll by [n // 2]. *)
Definition roll_half {A : Type} (l : list A) : list A :=
  let n := length l in
  let k := (n - n / 2)%nat in
  skipn k l ++ firstn k l.

Definition fftshift {A : Type} (a : array2 A) : array2 A :=
  mk_array2 (ncols a) (roll_half (map (@roll_half A) (rows a))).

(* ================================================================== *)
(** ** MRIPhysics.generate_synthetic_phantom *)

Definition rltb (a b : R) : bool := if Rlt_dec a b then true else false.

(** Entry [j] of [np.linspace(-1, 1, n)]. *)
Definition linspace (n j : nat) : R := -1 + INR j * (2 / INR (n - 1)).

(** The [(t1, t2, pd)] triple the generator writes at voxel [(i, j, z)] of a
    volume of shape [(d0, d1, d2)]: the masks are applied in source order,
    later ones overwriting earlier ones. *)
Definition phantom_voxel (d0 d1 d2 i j z : nat) : R * R * R :=
  let x := linspace d1 j in
  let y := linspace d0 i in
  let mask_ventricle := (rltb (Rabs x) 0.2 && rltb (Rabs y) 0.4)%bool in
  let scale := 1 - IZR (Z.abs (Z.of_nat z - Z.of_nat d2 / 2)) * 0.05 in
  let scale := if rltb scale 0 then 0 else scale in
  let current_mask_brain := rltb (x * x + y * y) (0.85 * scale) in
  let current_mask_vent := (mask_ventricle && rltb (x * x + y * y) (0.85 * scale))%bool in
  let v := (0, 0, 0) in
  let v := if current_mask_brain then (600, 70, 0.70) else v in
  let mask_gray := (current_mask_brain && rltb (0.5 * scale) (x * x + y * y))%bool in
  let v := if mask_gray then (950, 100, 0.85) else v in
  if current_mask_vent then (3000, 2000, 1) else v.

Definition phantom_map (d0 d1 d2 : nat) (pick : R * R * R -> R) : ndarray :=
  mk_ndarray [d0; d1; d2]
    (flat_map (fun i =>
       flat_map (fun j =>
         map (fun z => Fin (pick (phantom_voxel d0 d1 d2 i j z))) (seq 0 d2))
         (seq 0 d1))
       (seq 0 d0)).

Definition generate_synthetic_phantom (dim : nat * nat * nat)
    : ndarray * ndarray * ndarray :=
  let '(d0, d1, d2) := dim in
  (phantom_map d0 d1 d2 (fun v => fst (fst v)),
   phantom_map d0 d1 d2 (fun v => snd (fst v)),
   phantom_map d0 d1 d2 (fun v => snd v)).

Definition default_dim : nat * nat * nat := (128, 128, 20)%nat.

(* ================================================================== *)
(** ** class MRISimulatorModel: the volume store *)

Record MRISimulatorModel : Type := mk_model {
  t1_vol : option ndarray;
  t2_vol : option ndarray;
  pd_vol : option ndarray;
  current_image : option (array2 float64);
  k_space : option (array2 complex)
}.

Definition base_fov : R := 240.

Definition set_t1 (self : MRISimulatorModel) (a : option ndarray) : MRISimulatorModel :=
  mk_model a (t2_vol self) (pd_vol self) (current_image self) (k_space self).

Definition set_t2 (self : MRISimulatorModel) (a : option ndarray) : MRISimulatorModel :=
  mk_model (t1_vol self) a (pd_vol self) (current_image self) (k_space self).

Definition set_pd (self : MRISimulatorModel) (a : option ndarray) : MRISimulatorModel :=
  mk_model (t1_vol self) (t2_vol self) a (current_image self) (k_space self).

Definition set_current_image (self : MRISimulatorModel) (a : array2 float64)
    : MRISimulatorModel :=
  mk_model (t1_vol self) (t2_vol self) (pd_vol self) (Some a) (k_space self).

Definition set_k_space (self : MRISimulatorModel) (k : array2 complex)
    : MRISimulatorModel :=
  mk_model (t1_vol self) (t2_vol self) (pd_vol self) (current_image self) (Some k).

(** All three parameter volumes hold an array. *)
Definition fully_loaded (v : option ndarray * option ndarray * option ndarray) : Prop :=
  exists a1 a2 a3 : ndarray, v = (Some a1, Some a2, Some a3).

(** A volume slot holds an array. *)
Definition holds_array (o : option ndarray) : Prop := exists a, o = Some a.

(** The three stored parameter volumes. *)
Definition volumes (self : MRISimulatorModel)
    : option ndarray * option ndarray * option ndarray :=
  (t1_vol self, t2_vol self, pd_vol self).

Definition load_default_phantom (self : MRISimulatorModel) : MRISimulatorModel :=
  let '(t1, t2, pd) := generate_synthetic_phantom default_dim in
  set_pd (set_t2 (set_t1 self (Some t1)) (Some t2)) (Some pd).

(** [__init__] *)
Definition init : MRISimulatorModel :=
  load_default_phantom (mk_model None None None None None).

Definition get_dimensions (self : MRISimulatorModel) : list nat :=
  match t1_vol self with
  | Some v => shape v
  | None => [0; 0; 0]%nat
  end.

Definition get_max_slice (self : MRISimulatorModel) (plane : string) : result Z :=
  match t1_vol self with
  | None => Ok 0%Z
  | Some v =>
      if String.eqb plane "coronal" then dim_at (shape v) 0
      else if String.eqb plane "sagittal" then dim_at (shape v) 1
      else dim_at (shape v) 2
  end.

(* ================================================================== *)
(** ** MRISimulatorModel.load_mat_file *)

(** A variable of a [.mat] container as [scipy.io.loadmat] returns it: a
    numeric array, a one-element struct array with named fields (each a
    numeric array, or [None] for content that does not convert to
    [float64]), or any other value that does not convert (text, cells, the
    header entries). *)
Inductive matvalue : Type :=
| MArray (a : ndarray)
| MStruct (fields : list (string * option ndarray))
| MOther.

(** The dictionary of variables, in the order of the file. *)
Definition matfile : Type := list (string * matvalue).

Fixpoint assoc {V : Type} (k : string) (l : list (string * V)) : option V :=
  match l with
  | [] => None
  | (k', v) :: l' => if String.eqb k k' then Some v else assoc k l'
  end.

Definition lower_ascii (c : ascii) : ascii :=
  let n := nat_of_ascii c in
  if ((65 <=? n) && (n <=? 90))%nat then ascii_of_nat (n + 32) else c.

Fixpoint lower (s : string) : string :=
  match s with
  | EmptyString => EmptyString
  | String c s' => String (lower_ascii c) (lower s')
  end.

Definition alias_in (aliases : list string) (k : string) : bool :=
  existsb (String.eqb (lower k)) aliases.

(** [next((k for k in keys if k.lower() in aliases), None)] *)
Definition find_key (aliases : list string) (mat : matfile) : option string :=
  find (alias_in aliases) (map fst mat).

(** Truth value of an optional key: [None] and the empty string are false. *)
Definition truthy (k : option string) : bool :=
  match k with
  | Some s => negb (String.eqb s "")
  | None => false
  end.

(** [v.astype(np.float64)] and [np.array(v, dtype=np.float64)] *)
Definition astype_float64 (v : matvalue) : result ndarray :=
  match v with
  | MArray a => Ok a
  | _ => Raise ConversionError
  end.

(** [mat[key]] *)
Definition mat_get (mat : matfile) (k : option string) : result matvalue :=
  match k with
  | Some s => match assoc s mat with Some v => Ok v | None => Raise KeyError end
  | None => Raise KeyError
  end.

(** [vobj[name][0][0]] converted to a [float64] array. *)
Definition field_array (vobj : matvalue) (name : string) : result ndarray :=
  match vobj with
  | MStruct fields =>
      match assoc name fields with
      | Some (Some a) => Ok a
      | Some None => Raise ConversionError
      | None => Raise ValueError
      end
  | _ => Raise IndexError
  end.

(** [name in vobj.dtype.names] *)
Definition has_field (vobj : matvalue) (name : string) : bool :=
  match vobj with
  | MStruct fields => existsb (String.eqb name) (map fst fields)
  | _ => false
  end.

Definition ones_like (a : option ndarray) : option ndarray :=
  option_map (fun v => mk_ndarray (shape v) (map (fun _ => Fin 1) (data v))) a.

Definition nan_to_num_vol (a : option ndarray) : option ndarray :=
  option_map (fun v => mk_ndarray (shape v) (map nan_to_num (data v))) a.

Definition times_1000 (a : option ndarray) : option ndarray :=
  option_map (fun v => mk_ndarray (shape v) (map (fun x => fmul x (Fin 1000)) (data v))) a.

(** [np.max]: the largest entry; an empty array raises. *)
Definition np_max (a : option ndarray) : result float64 :=
  match a with
  | Some v =>
      match data v with
      | [] => Raise ValueError
      | x :: l => Ok (fold_left maximum l x)
      end
  | None => Raise TypeError
  end.

(** The [try] block that parses the [VObj] record: the store after it and
    the [found] flag.  The bare [except: pass] swallows a failure and keeps
    whatever was already assigned. *)
Definition load_vobj (self : MRISimulatorModel) (vobj : matvalue)
    : MRISimulatorModel * bool :=
  match field_array vobj "T1" with
  | Raise _ => (self, false)
  | Ok a1 =>
      let self := set_t1 self (Some a1) in
      match field_array vobj "T2" with
      | Raise _ => (self, false)
      | Ok a2 =>
          let self := set_t2 self (Some a2) in
          if has_field vobj "Rho" then
            match field_array vobj "Rho" with
            | Raise _ => (self, false)
            | Ok p => (set_pd self (Some p), true)
            end
          else if has_field vobj "PD" then
            match field_array vobj "PD" with
            | Raise _ => (self, false)
            | Ok p => (set_pd self (Some p), true)
            end
          else (set_pd self (ones_like (t1_vol self)), true)
      end
  end.

(** The flat-schema block: the store after it and either the [found] flag
    or the exception that escapes to the outer handler. *)
Definition load_flat (self : MRISimulatorModel) (mat : matfile)
    : MRISimulatorModel * result bool :=
  let t1_key := find_key ["t1"; "t1_map"]%string mat in
  let t2_key := find_key ["t2"; "t2_map"]%string mat in
  let pd_key := find_key ["rho"; "pd"; "pd_map"]%string mat in
  if (truthy t1_key && truthy t2_key)%bool then
    match bind (mat_get mat t1_key) astype_float64 with
    | Raise e => (self, Raise e)
    | Ok a1 =>
        let self := set_t1 self (Some a1) in
        match bind (mat_get mat t2_key) astype_float64 with
        | Raise e => (self, Raise e)
        | Ok a2 =>
            let self := set_t2 self (Some a2) in
            if truthy pd_key then
              match bind (mat_get mat pd_key) astype_float64 with
              | Raise e => (self, Raise e)
              | Ok p => (set_pd self (Some p), Ok true)
              end
            else (set_pd self (ones_like (t1_vol self)), Ok true)
        end
    end
  else (self, Ok false).

Inductive message : Type :=
| Loaded
| No_T1_T2
| ExceptionText (e : exn).

(** The cleaning block that runs once [found] is set. *)
Definition clean_loaded (self : MRISimulatorModel)
    : MRISimulatorModel * (bool * message) :=
  let self := set_t1 self (nan_to_num_vol (t1_vol self)) in
  let self := set_t2 self (nan_to_num_vol (t2_vol self)) in
  let self := set_pd self (nan_to_num_vol (pd_vol self)) in
  match np_max (t1_vol self) with
  | Raise e => (self, (false, ExceptionText e))
  | Ok m =>
      if flt m 10 then
        let self := set_t1 self (times_1000 (t1_vol self)) in
        let self := set_t2 self (times_1000 (t2_vol self)) in
        (self, (true, Loaded))
      else (self, (true, Loaded))
  end.

(** [load_mat_file(fname)]; [loaded] is what [scipy.io.loadmat(fname)] gives
    for the file: its dictionary, or the exception it raises. *)
Definition load_mat_file (self : MRISimulatorModel) (loaded : result matfile)
    : MRISimulatorModel * (bool * message) :=
  match loaded with
  | Raise e => (self, (false, ExceptionText e))
  | Ok mat =>
      let '(self, found) :=
        match assoc "VObj" mat with
        | Some vobj => load_vobj self vobj
        | None => (self, false)
        end in
      let '(self, found) :=
        if found then (self, Ok true) else load_flat self mat in
      match found with
      | Raise e => (self, (false, ExceptionText e))
      | Ok true => clean_loaded self
      | Ok false => (self, (false, No_T1_T2))
      end
  end.

(** The two parsing blocks of [load_mat_file] on a container that opened:
    the store after them and the [found] flag, or the exception that reaches
    the outer handler. *)
Definition parsed (s : MRISimulatorModel) (mat : matfile)
    : MRISimulatorModel * result bool :=
  let '(s1, found) :=
    match assoc "VObj" mat with
    | Some vobj => load_vobj s vobj
    | None => (s, false)
    end in
  if found then (s1, Ok true) else load_flat s1 mat.

(* ================================================================== *)
(** ** MRISimulatorModel.crop_or_pad *)

(** [np.pad(img, ((top, bottom), (0, 0)), 'constant')] *)
Definition pad_rows {A : Type} (zero : A) (img : array2 A) (top bottom : nat)
    : array2 A :=
  let blank := repeat zero (ncols img) in
  mk_array2 (ncols img) (repeat blank top ++ rows img ++ repeat blank bottom).

(** [np.pad(img, ((0, 0), (left, right)), 'constant')] *)
Definition pad_cols {A : Type} (zero : A) (img : array2 A) (left right : nat)
    : array2 A :=
  mk_array2 (left + ncols img + right)
    (map (fun r => repeat zero left ++ r ++ repeat zero right) (rows img)).

(** [img[start:stop, :]] and [img[:, start:stop]] *)
Definition slice_rows {A : Type} (img : array2 A) (start stop : Z) : array2 A :=
  mk_array2 (ncols img) (py_slice (rows img) start stop).

Definition slice_cols {A : Type} (img : array2 A) (start stop : Z) : array2 A :=
  mk_array2 (slice_len (ncols img) start stop)
    (map (fun r => py_slice r start stop) (rows img)).

Definition crop_or_pad {A : Type} (zero : A) (img : array2 A) (target_size : Z)
    : array2 A :=
  let h := Z.of_nat (nrows img) in
  let w := Z.of_nat (ncols img) in
  let diff_h := (h - target_size)%Z in
  let diff_w := (w - target_size)%Z in
  if ((diff_h =? 0) && (diff_w =? 0))%Z then img
  else
    let img :=
      if (0 <=? diff_h)%Z then
        let start := (diff_h / 2)%Z in
        slice_rows img start (start + target_size)
      else
        let pad_top := (Z.abs diff_h / 2)%Z in
        pad_rows zero img (Z.to_nat pad_top) (Z.to_nat (Z.abs diff_h - pad_top)) in
    if (0 <=? diff_w)%Z then
      let start := (diff_w / 2)%Z in
      slice_cols img start (start + target_size)
    else
      let pad_left := (Z.abs diff_w / 2)%Z in
      pad_cols zero img (Z.to_nat pad_left) (Z.to_nat (Z.abs diff_w - pad_left)).

(* ================================================================== *)
(** ** MRISimulatorModel.calculate_image *)

(** The arguments of [calculate_image]. *)
Record acquisition : Type := mk_acquisition {
  seq_type : string;
  tr : R;
  te : R;
  ti : R;
  fa : R;
  slice_idx : Z;
  etl : R;
  esp : R;
  fov : R;
  thickness : R;
  gap : R;
  matrix_size : Z;
  rotation : R;
  view_plane : string
}.

(** The same call with another sequence name. *)
Definition with_seq_type (p : acquisition) (name : string) : acquisition :=
  mk_acquisition name (tr p) (te p) (ti p) (fa p) (slice_idx p) (etl p) (esp p)
    (fov p) (thickness p) (gap p) (matrix_size p) (rotation p) (view_plane p).

(** [needle in s] on Python strings. *)
Fixpoint contains (needle s : string) : bool :=
  (String.prefix needle s ||
   match s with
   | EmptyString => false
   | String _ s' => contains needle s'
   end)%bool.

(** [z_center = max(0, min(slice_idx, max_slice - 1))] *)
Definition clamp_slice (max_slice slice_idx : Z) : Z :=
  Z.max 0 (Z.min slice_idx (max_slice - 1)).

(** The axial averaging window [(z_start, z_end)]. *)
Definition axial_window (max_slice slice_idx : Z) (thickness : R) : Z * Z :=
  let z_center := clamp_slice max_slice slice_idx in
  let half_thick := Z.max 0 (py_int (thickness / 2)) in
  let z_start := Z.max 0 (z_center - half_thick) in
  let z_end := Z.min max_slice (z_center + half_thick + 1) in
  let z_end := if (z_end <=? z_start)%Z then (z_start + 1)%Z else z_end in
  (z_start, z_end).

(** The same window when [thickness] is a Python int: [thickness / 2] is
    then the true division of two ints, which raises when the quotient does
    not fit a double. *)
Definition axial_window_int (max_slice slice_idx thickness : Z) : result (Z * Z) :=
  let z_center := clamp_slice max_slice slice_idx in
  q <- int_true_divide thickness 2 ;;
  n <- int_of_float q ;;
  let half_thick := Z.max 0 n in
  let z_start := Z.max 0 (z_center - half_thick) in
  let z_end := Z.min max_slice (z_center + half_thick + 1) in
  let z_end := if (z_end <=? z_start)%Z then (z_start + 1)%Z else z_end in
  Ok (z_start, z_end).

(** Indexing a stored volume; a volume that is [None] is not subscriptable. *)
Definition on_volume {B : Type} (f : ndarray -> result B) (v : option ndarray)
    : result B :=
  match v with
  | Some a => f a
  | None => Raise TypeError
  end.

(** [np.flipud(s.T)] *)
Definition orient (s : array2 float64) : array2 float64 :=
  flipud (transpose NaN s).

(** Step 1, slicing: the three 2-D parameter slabs.  A stored array that is
    not 3-D makes the source fail (at the index or further down the
    pipeline); here it fails at the slice. *)
Definition reslice (t1v : ndarray) (t2v pdv : option ndarray) (p : acquisition)
    : result (array2 float64 * array2 float64 * array2 float64) :=
  let dims := shape t1v in
  if negb (String.eqb (view_plane p) "axial") then
    if String.eqb (view_plane p) "sagittal" then
      max_slice <- dim_at dims 1 ;;
      let z_center := clamp_slice max_slice (slice_idx p) in
      t1_s <- sagittal_slice t1v z_center ;;
      t2_s <- on_volume (fun v => sagittal_slice v z_center) t2v ;;
      pd_s <- on_volume (fun v => sagittal_slice v z_center) pdv ;;
      Ok (orient t1_s, orient t2_s, orient pd_s)
    else
      max_slice <- dim_at dims 0 ;;
      let z_center := clamp_slice max_slice (slice_idx p) in
      t1_s <- coronal_slice t1v z_center ;;
      t2_s <- on_volume (fun v => coronal_slice v z_center) t2v ;;
      pd_s <- on_volume (fun v => coronal_slice v z_center) pdv ;;
      Ok (orient t1_s, orient t2_s, orient pd_s)
  else
    max_slice <- dim_at dims 2 ;;
    let '(z_start, z_end) := axial_window max_slice (slice_idx p) (thickness p) in
    t1_s <- axial_slab t1v z_start z_end ;;
    t2_s <- on_volume (fun v => axial_slab v z_start z_end) t2v ;;
    pd_s <- on_volume (fun v => axial_slab v z_start z_end) pdv ;;
    Ok (t1_s, t2_s, pd_s).

(** The plain spin-echo signal of the slabs. *)
Definition spin_echo_image (p : acquisition) (t1_s t2_s pd_s : array2 float64)
    : result (array2 float64) :=
  broadcast3 (fun t1 t2 pd => MRIPhysics.spin_echo t1 t2 pd (tr p) (te p) (fa p))
             t1_s t2_s pd_s.

Section Pipeline.

(** The scipy.ndimage routines are external: [zoom img zoom_h zoom_w] with
    [order=1], [rotate img angle] with [reshape=False, order=1,
    mode='constant'], and [gaussian_filter1d img sigma] along axis 0.  Each
    returns a 2-D array or raises. *)
Variable zoom : array2 float64 -> R -> R -> result (array2 float64).
Variable rotate : array2 float64 -> R -> result (array2 float64).
Variable gaussian_filter1d : array2 float64 -> R -> result (array2 float64).

(** Step 2, the pulse-sequence equation chosen by the sequence name. *)
Definition sequence_signal (p : acquisition) (t1_s t2_s pd_s : array2 float64)
    : result (array2 float64) :=
  if contains "FLAIR" (seq_type p) then
    broadcast3 (fun t1 t2 pd =>
                  MRIPhysics.inversion_recovery t1 t2 pd (tr p) (te p) (ti p) (fa p))
               t1_s t2_s pd_s
  else if contains "EPI" (seq_type p) then
    broadcast3 (fun t1 t2 pd =>
                  let base := MRIPhysics.gradient_echo t1 t2 pd (tr p) (te p) (fa p) in
                  let decay := fexp (fdiv (Fin (- esp p)) (fadd t2 (Fin 1e-5))) in
                  fabs (fmul base decay))
               t1_s t2_s pd_s
  else if contains "FSE" (seq_type p) then
    img <- spin_echo_image p t1_s t2_s pd_s ;;
    if Rlt_dec 1 (etl p) then
      let blur_sigma := (etl p * esp p) * 0.02 in
      gaussian_filter1d img blur_sigma
    else Ok img
  else
    spin_echo_image p t1_s t2_s pd_s.

(** Steps 3 to 5: zoom to the field of view, rotate, crop or pad.  The
    target sizes are computed on Python floats: [matrix_size] is converted
    for the division, a zero field of view raises, a product out of range is
    an infinity, and [int()] of an infinity or of NaN raises. *)
Definition resample (p : acquisition) (is_mpr : bool) (img : array2 float64)
    : result (array2 float64) :=
  m <- float_of_int (matrix_size p) ;;
  pixels_per_mm <- py_div m (Fin (fov p)) ;;
  let src_phys_h :=
    if is_mpr then
      py_mul (Fin (INR (nrows img))) (py_add (Fin (thickness p)) (Fin (gap p)))
    else Fin base_fov in
  let src_phys_w := Fin base_fov in
  target_h <- int_of_float (py_mul src_phys_h pixels_per_mm) ;;
  target_w <- int_of_float (py_mul src_phys_w pixels_per_mm) ;;
  img_res <-
    (if ((0 <? nrows img) && (0 <? ncols img))%nat then
       if is_mpr then
         zoom img (IZR target_h / INR (nrows img)) (IZR target_w / INR (ncols img))
       else
         let scale := IZR target_w / INR (ncols img) in
         zoom img scale scale
     else Ok img) ;;
  img_res <-
    (if Req_dec_T (rotation p) 0 then Ok img_res
     else rotate img_res (rotation p)) ;;
  let final_img := crop_or_pad (Fin 0) img_res (matrix_size p) in
  Ok (if is_mpr then rot90 NaN final_img else final_img).

(** The image computed by the pipeline, before it is cached. *)
Definition form_image (self : MRISimulatorModel) (t1v : ndarray) (p : acquisition)
    : result (array2 float64) :=
  let is_mpr := negb (String.eqb (view_plane p) "axial") in
  slabs <- reslice t1v (t2_vol self) (pd_vol self) p ;;
  let '(t1_s, t2_s, pd_s) := slabs in
  img <- sequence_signal p t1_s t2_s pd_s ;;
  resample p is_mpr img.

(** [calculate_image]: the store after the call and what the call gives,
    [None] when no volume is loaded, the image, or an exception. *)
Definition calculate_image (self : MRISimulatorModel) (p : acquisition)
    : MRISimulatorModel * result (option (array2 float64)) :=
  match t1_vol self with
  | None => (self, Ok None)
  | Some t1v =>
      match form_image self t1v p with
      | Raise e => (self, Raise e)
      | Ok final_img =>
          let self := set_current_image self final_img in
          match fft2 final_img with
          | Raise e => (self, Raise e)
          | Ok k => (set_k_space self (fftshift k), Ok (Some final_img))
          end
      end
  end.

End Pipeline.

(** A name that selects none of the FLAIR, EPI and FSE families. *)
Definition plain_name (name : string) : bool :=
  (negb (contains "FLAIR" name) && negb (contains "EPI" name)
   && negb (contains "FSE" name))%bool.

(** Stand-ins for the scipy routines in closed examples: each returns its
    input image.  (At zoom factor 1, rotation 0 or a vanishing blur this is
    what the scipy routine returns.) *)
Definition same_zoom (img : array2 float64) (zoom_h zoom_w : R)
    : result (array2 float64) := Ok img.
Definition same_rotate (img : array2 float64) (angle : R)
    : result (array2 float64) := Ok img.
Definition same_filter (img : array2 float64) (sigma : R)
    : result (array2 float64) := Ok img.


(* ================================================================== *)
(** ** Well-formed inputs and the contracts of the scipy routines *)

(** A finite, non-negative entry. *)
Definition nonneg_fin (x : float64) : Prop :=
  match x with
  | Fin r => 0 <= r
  | _ => False
  end.

(** A rectangular image of finite, non-negative entries. *)
Definition good_image (a : array2 float64) : Prop :=
  wf_array2 a /\ all2 nonneg_fin a.

(** The numbers that size the zoom stay inside the double range: the
    matrix size, the pixels per millimetre, the target width and, off the
    axial plane, the slab height and the target height are at most [2^1000]
    in magnitude. *)
Definition sizes_in_range (p : acquisition) (is_mpr : bool) (rows_in : nat) : Prop :=
  Rabs (IZR (matrix_size p)) <= IZR (2 ^ 1000)
  /\ Rabs (IZR (matrix_size p) / fov p) <= IZR (2 ^ 1000)
  /\ Rabs (base_fov * (IZR (matrix_size p) / fov p)) <= IZR (2 ^ 1000)
  /\ (is_mpr = true ->
      Rabs (thickness p + gap p) <= IZR (2 ^ 1000)
      /\ Rabs (INR rows_in * (thickness p + gap p)) <= IZR (2 ^ 1000)
      /\ Rabs (INR rows_in * (thickness p + gap p) * (IZR (matrix_size p) / fov p))
         <= IZR (2 ^ 1000)).

(** A 3-D volume of shape [(d0, d1, d2)] whose buffer has one finite,
    non-negative entry per voxel; as in every numpy array, the number of
    entries fits the index type. *)
Definition good_volume (d0 d1 d2 : nat) (v : ndarray) : Prop :=
  shape v = [d0; d1; d2]
  /\ length (data v) = (d0 * d1 * d2)%nat
  /\ Forall nonneg_fin (data v)
  /\ (Z.of_nat (length (data v)) < 2 ^ 63)%Z.

(** First-order interpolation, the zero-filled rotation and the Gaussian
    blur return a rectangular image and keep entries finite and
    non-negative, and the blur keeps the shape; this is assumed for positive
    zoom factors and positive blur widths. *)
Definition zoom_contract
    (zoom : array2 float64 -> R -> R -> result (array2 float64)) : Prop :=
  forall img zoom_h zoom_w, good_image img -> 0 < zoom_h -> 0 < zoom_w ->
    exists r, zoom img zoom_h zoom_w = Ok r /\ good_image r.

Definition rotate_contract
    (rotate : array2 float64 -> R -> result (array2 float64)) : Prop :=
  forall img angle, good_image img ->
    exists r, rotate img angle = Ok r /\ good_image r.

Definition filter_contract
    (gaussian_filter1d : array2 float64 -> R -> result (array2 float64)) : Prop :=
  forall img sigma, good_image img -> 0 < sigma ->
    exists r, gaussian_filter1d img sigma = Ok r /\ good_image r
              /\ shape2 r = shape2 img.

(* ================================================================== *)
(** ** Sample data for closed instances *)

(** A store holding one-voxel volumes. *)
Definition one_voxel (x : R) : ndarray := mk_ndarray [1; 1; 1]%nat [Fin x].

Definition small_store : MRISimulatorModel :=
  mk_model (Some (one_voxel 600)) (Some (one_voxel 70)) (Some (one_voxel 0.7))
           None None.

Definition two_voxels : ndarray := mk_ndarray [1; 1; 2]%nat [Fin 950; Fin 950].

(** A flat container whose T2 entry is text. *)
Definition file_text_T2 : matfile :=
  [("T1", MArray two_voxels); ("T2", MOther)]%string.

(** A container whose VObj record has a T1 field only. *)
Definition file_vobj_T1_only : matfile :=
  [("VObj", MStruct [("T1", Some two_voxels)])]%string.

(** A flat container whose T1 and T2 arrays are empty. *)
Definition empty_array : ndarray := mk_ndarray [0; 0]%nat [].

Definition file_empty_T1 : matfile :=
  [("T1", MArray empty_array); ("T2", MArray empty_array)]%string.

(** A flat container with one-voxel T1 and T2 arrays and no PD. *)
Definition file_T1_T2 : matfile :=
  [("T1", MArray (one_voxel 950)); ("T2", MArray (one_voxel 100))]%string.

(** Calls of [calculate_image]: a T2-weighted spin echo; a call with a zero
    field of view; a spin echo at a flip angle of 270 degrees with matrix
    size 1 and the reference field of view (zoom factor 1). *)
Definition t2_weighted : acquisition :=
  mk_acquisition "T2 weighted" 4000 100 0 90 0 1 10 300 1 0 256 0 "axial".

(** The second axial slice at the default geometry. *)
Definition second_slice : acquisition :=
  mk_acquisition "T1" 500 20 0 90 1 1 10 240 1 0 256 0 "axial".



(* ================================================================== *)
(** ** class PatientManager, class HistoryManager *)

(** [del data[i]] at a valid position [i]. *)
Definition delete_at {A : Type} (i : nat) (data : list A) : list A :=
  firstn i data ++ skipn (S i) data.

Module PatientManager.

(** [self.data.append(info)] *)
Definition add_patient {A : Type} (data : list A) (info : A) : list A :=
  data ++ [info].

(** [if 0 <= row_idx < len(self.data): del self.data[row_idx]] *)
Definition delete_patient {A : Type} (data : list A) (row_idx : Z) : list A :=
  if ((0 <=? row_idx) && (row_idx <? Z.of_nat (length data)))%Z
  then delete_at (Z.to_nat row_idx) data
  else data.

End PatientManager.

Module HistoryManager.

(** [self.data.insert(0, record)]: the newest record comes first. *)
Definition add_record {A : Type} (data : list A) (record : A) : list A :=
  record :: data.

Definition delete_record {A : Type} (data : list A) (index : Z) : list A :=
  if ((0 <=? index) && (index <? Z.of_nat (length data)))%Z
  then delete_at (Z.to_nat index) data
  else data.

End HistoryManager.

(* ================================================================== *)
(** ** MRI_UI.py: the history table *)

(** A snapshot record as [handle_snapshot] builds it; [P] is the type of the
    saved parameter dictionary. *)
Record history_record (P : Type) : Type := mk_history {
  h_time : string;
  h_patient_name : string;
  h_patient_id : string;
  h_seq : string;
  h_params : P
}.
Arguments mk_history {P} h_time h_patient_name h_patient_id h_seq h_params.
Arguments h_time {P} h.
Arguments h_patient_name {P} h.
Arguments h_patient_id {P} h.
Arguments h_seq {P} h.
Arguments h_params {P} h.

(** The loop test of [load_history_table], negated: a record gets a row
    unless a filter is set ([filter_id] is truthy) and the record belongs to
    another patient. *)
Definition shown {P : Type} (filter_id : option string) (h : history_record P) : bool :=
  negb (truthy filter_id
        && negb (match filter_id with
                 | Some s => String.eqb (h_patient_id h) s
                 | None => false
                 end))%bool.

(** [load_history_table]: the rows of the table, each with the position of
    its record in [history_mgr.data] (stored under [Qt.UserRole]). *)
Definition load_history_table {P : Type}
    (filter_id : option string) (data : list (history_record P))
    : list (nat * history_record P) :=
  filter (fun row => shown filter_id (snd row)) (combine (seq 0 (length data)) data).

(** [handle_delete_history] with current row [r]: the history list after it.
    A row number outside the table (which the widget never reports) makes
    the item lookup fail: [None]. *)
Definition handle_delete_history {P : Type}
    (filter_id : option string) (data : list (history_record P)) (r : Z)
    : option (list (history_record P)) :=
  if (0 <=? r)%Z then
    match nth_error (load_history_table filter_id data) (Z.to_nat r) with
    | Some (idx, _) => Some (HistoryManager.delete_record data (Z.of_nat idx))
    | None => None
    end
  else Some data.

(** A history of three scans of two patients, newest first. *)
Definition sample_history : list (history_record unit) :=
  [mk_history "10:02:00" "Ann" "P2" "FLAIR" tt;
   mk_history "10:01:00" "Bob" "P1" "EPI" tt;
   mk_history "10:00:00" "Ann" "P2" "FSE" tt].

(* ================================================================== *)
(** ** Sessions of the model *)

(** The cached image and spectrum belong together: both are unset, or the
    spectrum is [fftshift(fft2(image))] of the cached image. *)
Definition cache_consistent (s : MRISimulatorModel) : Prop :=
  match current_image s, k_space s with
  | None, None => True
  | Some img, Some ks => exists k, fft2 img = Ok k /\ ks = fftshift k
  | _, _ => False
  end.

Section Session.

Variable zoom : array2 float64 -> R -> R -> result (array2 float64).
Variable rotate : array2 float64 -> R -> result (array2 float64).
Variable gaussian_filter1d : array2 float64 -> R -> result (array2 float64).

(** The states a model object goes through: construction, then any sequence
    of imports, phantom reloads and renders with a positive matrix size. *)
Inductive reachable : MRISimulatorModel -> Prop :=
| reach_init : reachable init
| reach_load (s : MRISimulatorModel) (loaded : result matfile) :
    reachable s -> reachable (fst (load_mat_file s loaded))
| reach_phantom (s : MRISimulatorModel) :
    reachable s -> reachable (load_default_phantom s)
| reach_render (s : MRISimulatorModel) (p : acquisition) :
    reachable s -> (0 < matrix_size p)%Z ->
    reachable (fst (calculate_image zoom rotate gaussian_filter1d s p)).

End Session.

(* ================================================================== *)
(** ** Variations of a call, and the slice index in the window *)

Definition with_slice_idx (p : acquisition) (idx : Z) : acquisition :=
  mk_acquisition (seq_type p) (tr p) (te p) (ti p) (fa p) idx (etl p) (esp p)
    (fov p) (thickness p) (gap p) (matrix_size p) (rotation p) (view_plane p).

Definition with_ti (p : acquisition) (x : R) : acquisition :=
  mk_acquisition (seq_type p) (tr p) (te p) x (fa p) (slice_idx p) (etl p) (esp p)
    (fov p) (thickness p) (gap p) (matrix_size p) (rotation p) (view_plane p).

Definition with_etl (p : acquisition) (x : R) : acquisition :=
  mk_acquisition (seq_type p) (tr p) (te p) (ti p) (fa p) (slice_idx p) x (esp p)
    (fov p) (thickness p) (gap p) (matrix_size p) (rotation p) (view_plane p).

Definition with_esp (p : acquisition) (x : R) : acquisition :=
  mk_acquisition (seq_type p) (tr p) (te p) (ti p) (fa p) (slice_idx p) (etl p) x
    (fov p) (thickness p) (gap p) (matrix_size p) (rotation p) (view_plane p).

Definition with_thickness (p : acquisition) (x : R) : acquisition :=
  mk_acquisition (seq_type p) (tr p) (te p) (ti p) (fa p) (slice_idx p) (etl p) (esp p)
    (fov p) x (gap p) (matrix_size p) (rotation p) (view_plane p).

Definition with_gap (p : acquisition) (x : R) : acquisition :=
  mk_acquisition (seq_type p) (tr p) (te p) (ti p) (fa p) (slice_idx p) (etl p) (esp p)
    (fov p) (thickness p) x (matrix_size p) (rotation p) (view_plane p).

(** The volume axis [calculate_image] slices along: axis 2 for ['axial'],
    axis 1 for ['sagittal'], axis 0 for every other plane name. *)
Definition render_axis (plane : string) : nat :=
  if String.eqb plane "axial" then 2%nat
  else if String.eqb plane "sagittal" then 1%nat
  else 0%nat.

(** [update_image] (MRI_UI.py) before each call:
    [if idx >= max_s and max_s > 0: idx = max_s - 1]. *)
Definition ui_slice_index (idx max_s : Z) : Z :=
  if ((max_s <=? idx) && (0 <? max_s))%Z then (max_s - 1)%Z else idx.

(** The source index that [crop_or_pad] places at output index [i] along an
    axis of length [len]: offset by [start = diff // 2] when cropping, by
    [- pad_before = - (abs(diff) // 2)] when padding. *)
Definition crop_source (len target_size i : Z) : Z :=
  let diff := (len - target_size)%Z in
  if (0 <=? diff)%Z then (i + diff / 2)%Z else (i - Z.abs diff / 2)%Z.

(* ================================================================== *)
(** ** MRISimulatorModel.export_kspace and export_dicom *)

(** [export_kspace(path)]; [savemat] is the outcome of
    [scipy.io.savemat(path, ...)]. *)
Definition export_kspace (self : MRISimulatorModel) (savemat : result unit) : bool :=
  match k_space self with
  | Some _ =>
      match savemat with
      | Ok _ => true
      | Raise _ => false
      end
  | None => false
  end.

(** [np.max] of a 2-D array. *)
Definition image_max (img : array2 float64) : result float64 :=
  match concat (rows img) with
  | [] => Raise ValueError
  | x :: l => Ok (fold_left maximum l x)
  end.

(** [x > c] on an entry; every comparison with NaN is false. *)
Definition fgt (x : float64) (c : R) : bool :=
  match x with
  | Fin r => if Rlt_dec c r then true else false
  | PInf => true
  | NInf | NaN => false
  end.

(** [astype(np.uint16)] on one entry: truncation toward zero where the
    truncated value is a 16-bit unsigned integer; elsewhere the conversion
    is platform dependent, which [None] stands for. *)
Definition to_uint16 (x : float64) : option Z :=
  match x with
  | Fin r =>
      if Rlt_dec (-1) r then
        if Rlt_dec r 65536 then Some (py_int r) else None
      else None
  | _ => None
  end.

(** An elementwise operation on a 2-D array. *)
Definition amap {A B : Type} (f : A -> B) (a : array2 A) : array2 B :=
  mk_array2 (ncols a) (map (map f) (rows a)).

(** The pixel array of [export_dicom]:
    [(img / mx * 65535).astype(np.uint16)] when [mx = np.max(img) > 0],
    [img.astype(np.uint16)] otherwise. *)
Definition dicom_pixels (img : array2 float64) : result (array2 (option Z)) :=
  mx <- image_max img ;;
  let img_norm :=
    if fgt mx 0 then amap (fun v => fmul (fdiv v mx) (Fin 65535)) img else img in
  Ok (amap to_uint16 img_norm).

Inductive export_message : Type :=
| No_Image
| Success
| ExportError (e : exn).

(** [export_dicom(path, p_info, seq_name)]; [dataset] is the outcome of
    building the pydicom data set and its patient fields, [save_as] that of
    [ds.save_as(path)]. *)
Definition export_dicom (self : MRISimulatorModel) (dataset save_as : result unit)
    : bool * export_message :=
  match current_image self with
  | None => (false, No_Image)
  | Some img =>
      match (_ <- dataset ;; _ <- dicom_pixels img ;; save_as) with
      | Ok _ => (true, Success)
      | Raise e => (false, ExportError e)
      end
  end.

(** The call [handle_export_dicom] and [handle_export_kspace] (MRI_UI.py)
    make before exporting: sequence, TR, TE, TI, flip angle, slice index and
    plane come from the window, every other argument is left at the default
    of [calculate_image]. *)
Definition export_acquisition (seq : string) (TR TE TI FA : R) (idx : Z)
    (plane : string) : acquisition :=
  mk_acquisition seq TR TE TI FA idx 1 10 240 1 0 256 0 plane.

(** A container whose VObj record has both a [PD] and a [Rho] field. *)
Definition file_vobj_Rho_PD : matfile :=
  [("VObj", MStruct [("T1", Some (one_voxel 600)); ("T2", Some (one_voxel 70));
                     ("PD", Some (one_voxel 0.5)); ("Rho", Some (one_voxel 0.8))])]%string.

(* ================================================================== *)
(** ** The sequence presets of the window (MRI_UI.py) *)

(** The entries of the sequence selector. *)
Definition combo_seq_items : list string :=
  ["T1 加权"; "T2 加权"; "FLAIR"; "PD 加权"; "EPI"; "FSE"]%string.

(** One row of [presets] in [on_sequence_change]: TR, TE and flip angle to
    set, and whether the TI, ETL and ESP controls are shown. *)
Record preset : Type := mk_preset {
  preset_tr : R;
  preset_te : R;
  preset_fa : R;
  ti_visible : bool;
  etl_visible : bool;
  esp_visible : bool
}.

Definition presets : list preset :=
  [ mk_preset 500 20 90 false false false;
    mk_preset 4000 100 90 false false false;
    mk_preset 9000 120 90 true false false;
    mk_preset 2000 20 90 false false false;
    mk_preset 100 30 20 false false true;
    mk_preset 3000 80 90 false true true ].

(** A control hidden under a sequence has no effect on its render. *)
Definition inert_when_hidden
    (zoom : array2 float64 -> R -> R -> result (array2 float64))
    (rotate gaussian_filter1d : array2 float64 -> R -> result (array2 float64))
    (name : string) (pr : preset) : Prop :=
  forall (s : MRISimulatorModel) (p : acquisition),
    let q := with_seq_type p name in
    (ti_visible pr = false ->
     forall x, calculate_image zoom rotate gaussian_filter1d s (with_ti q x)
               = calculate_image zoom rotate gaussian_filter1d s q)
    /\ (etl_visible pr = false ->
        forall x, calculate_image zoom rotate gaussian_filter1d s (with_etl q x)
                  = calculate_image zoom rotate gaussian_filter1d s q)
    /\ (esp_visible pr = false ->
        forall x, calculate_image zoom rotate gaussian_filter1d s (with_esp q x)
                  = calculate_image zoom rotate gaussian_filter1d s q).

(* ================================================================== *)
(** ** The inversion-recovery equation in double arithmetic *)

(** [MRIPhysics.inversion_recovery] on one finite entry with every rounding
    written out: [rnd] rounds an exact result to a double, [fl_exp] and
    [fl_sin] are [np.exp] and [np.sin] on doubles, and [deg2rad] is the
    double constant [pi / 180] by which [np.radians] multiplies.  The
    magnitudes are those of a call whose results stay inside the double
    range, where [np.nan_to_num] has nothing to replace. *)
Module Rounded.
Section Arithmetic.

Variable rnd : R -> R.
Variables fl_exp fl_sin : R -> R.
Variable deg2rad : R.

Definition radians (deg : R) : R := rnd (deg * deg2rad).

Definition mz_ti (t1 tr ti : R) : R :=
  rnd (rnd (1 - rnd (2 * fl_exp (rnd (- ti / t1)))) + fl_exp (rnd (- tr / t1))).

Definition inversion_recovery (t1 t2 pd tr te ti fa_deg : R) : R :=
  let fa_rad := radians fa_deg in
  Rabs (rnd (rnd (rnd (pd * mz_ti t1 tr ti) * fl_sin fa_rad)
             * fl_exp (rnd (- te / t2)))).

End Arithmetic.
End Rounded.

(** A magnitude far inside the double range. *)
Definition double_range : R := IZR (2 ^ 1000).

(** The standard model of double arithmetic with relative error [eps] and
    absolute (underflow) error [eta]: a rounding inside the range is off by
    at most [eps |x| + eta] and keeps the sign of a non-positive number;
    [np.exp] of a non-positive argument and [np.sin] of a small argument
    have the same accuracy; [deg2rad] is [pi / 180] up to the relative
    error. *)
Definition standard_model (eps eta : R) (rnd fl_exp fl_sin : R -> R) (deg2rad : R)
    : Prop :=
  (forall x, Rabs x <= double_range -> Rabs (rnd x - x) <= eps * Rabs x + eta)
  /\ (forall x, x <= 0 -> rnd x <= 0)
  /\ (forall x, x <= 0 -> Rabs (fl_exp x - exp x) <= eps * exp x + eta)
  /\ (forall x, Rabs x <= 10 -> Rabs (fl_sin x - sin x) <= eps * Rabs (sin x) + eta)
  /\ Rabs (deg2rad - PI / 180) <= eps * (PI / 180).

(** A field of view of [2^-1024] mm, a (subnormal) double. *)
Definition fov_tiny : acquisition :=
  mk_acquisition "T1" 500 20 0 90 0 1 10 (/ IZR (2 ^ 1024)) 1 0 256 0 "axial".

(* ================================================================== *)
(** * Properties *)

Section Float64Facts.

Lemma DBL_MAX_pos : 0 < DBL_MAX.
Proof. unfold DBL_MAX. apply IZR_lt. reflexivity. Qed.

Lemma overflow_threshold_large : IZR (2 ^ 1000) < overflow_threshold.
Proof. unfold overflow_threshold. apply IZR_lt. reflexivity. Qed.

Lemma DBL_MAX_below_threshold : DBL_MAX < overflow_threshold.
Proof. unfold DBL_MAX, overflow_threshold. apply IZR_lt. reflexivity. Qed.

Lemma overflow_in_range (r : R) :
  - overflow_threshold < r < overflow_threshold -> overflow r = Fin r.
Proof.
  intros [Hlo Hhi]. unfold overflow.
  destruct (Rle_dec overflow_threshold r) as [H | _]; [lra |].
  destruct (Rle_dec r (- overflow_threshold)) as [H | _]; [lra | reflexivity].
Qed.

(** A result of magnitude at most [2^1000] is far inside the range. *)
Lemma overflow_small (r : R) : Rabs r <= IZR (2 ^ 1000) -> overflow r = Fin r.
Proof.
  intros H. apply overflow_in_range. pose proof overflow_threshold_large as Ht.
  unfold Rabs in H. destruct (Rcase_abs r); lra.
Qed.

Lemma overflow_at_least (r : R) : overflow_threshold <= r -> overflow r = PInf.
Proof.
  intros H. unfold overflow.
  destruct (Rle_dec overflow_threshold r) as [_ | N]; [reflexivity | contradiction].
Qed.

(** The exponential of a finite entry is finite or [+Inf], and finite for
    an argument that is not positive. *)
Lemma fexp_fin (r : R) :
  fexp (Fin r) = Fin (exp r) \/ fexp (Fin r) = PInf.
Proof.
  cbn [fexp]. unfold overflow. pose proof (exp_pos r) as He.
  pose proof overflow_threshold_large as Ht.
  assert (H0 : 0 < IZR (2 ^ 1000)) by (apply IZR_lt; reflexivity).
  destruct (Rle_dec overflow_threshold (exp r)); [right; reflexivity |].
  destruct (Rle_dec (exp r) (- overflow_threshold)); [lra | left; reflexivity].
Qed.

Lemma fexp_nonpos (r : R) : r <= 0 -> fexp (Fin r) = Fin (exp r).
Proof.
  intros Hr. cbn [fexp]. apply overflow_in_range.
  pose proof (exp_pos r) as He. pose proof overflow_threshold_large as Ht.
  assert (H0 : 1 < IZR (2 ^ 1000)) by (apply IZR_lt; reflexivity).
  assert (H1 : exp r <= 1).
  { destruct Hr as [Hr | ->]; [| rewrite exp_0; lra].
    left. rewrite <- exp_0. apply exp_increasing. exact Hr. }
  lra.
Qed.

Lemma neg_div_nonpos (a b : R) : 0 <= a -> 0 < b -> - a / b <= 0.
Proof.
  intros Ha Hb. unfold Rdiv.
  assert (H : 0 <= a * / b).
  { apply Rmult_le_pos; [exact Ha | left; apply Rinv_0_lt_compat; exact Hb]. }
  lra.
Qed.

Lemma fdiv_fin (a b : R) : b <> 0 -> fdiv (Fin a) (Fin b) = Fin (a / b).
Proof.
  intros Hb. simpl. destruct (Req_dec_T b 0) as [E | _]; [contradiction | reflexivity].
Qed.

Lemma sign_case_neg {A : Type} (r : R) (n z p : A) : r < 0 -> sign_case r n z p = n.
Proof.
  intros H. unfold sign_case.
  destruct (total_order_T r 0) as [[_ | E] | G]; [reflexivity | lra | lra].
Qed.

Lemma sign_case_zero {A : Type} (n z p : A) : sign_case 0 n z p = z.
Proof.
  unfold sign_case.
  destruct (total_order_T 0 0) as [[L | _] | G]; [lra | reflexivity | lra].
Qed.

Lemma sign_case_pos {A : Type} (r : R) (n z p : A) : 0 < r -> sign_case r n z p = p.
Proof.
  intros H. unfold sign_case.
  destruct (total_order_T r 0) as [[L | E] | _]; [lra | lra | reflexivity].
Qed.

Lemma nan_to_num_finite (x : float64) : is_finite (nan_to_num x).
Proof. destruct x; exact I. Qed.

(** The clamp [np.maximum(t, 1e-5)] of a finite entry is positive. *)
Lemma maximum_floor (t : R) :
  maximum (Fin t) (Fin 1e-5) = Fin (Rmax t 1e-5) /\ 0 < Rmax t 1e-5.
Proof.
  split; [reflexivity |].
  apply Rlt_le_trans with 1e-5; [lra | apply Rmax_r].
Qed.

Lemma exp_neg_le_1 (x : R) : 0 <= x -> exp (- x) <= 1.
Proof.
  intros [Hx | <-].
  - left. rewrite <- exp_0. apply exp_increasing. lra.
  - rewrite Ropp_0, exp_0. lra.
Qed.

Lemma exp_neg_lt_1 (x : R) : 0 < x -> exp (- x) < 1.
Proof.
  intros Hx. pose proof (exp_increasing (- x) 0) as H.
  rewrite exp_0 in H. apply H. lra.
Qed.

Lemma div_pos (a b : R) : 0 < a -> 0 < b -> 0 < a / b.
Proof.
  intros Ha Hb. unfold Rdiv. apply Rmult_lt_0_compat; [assumption |].
  apply Rinv_0_lt_compat. assumption.
Qed.

Lemma div_nonneg (a b : R) : 0 <= a -> 0 < b -> 0 <= a / b.
Proof.
  intros Ha Hb. unfold Rdiv. apply Rmult_le_pos; [assumption |].
  left. apply Rinv_0_lt_compat. assumption.
Qed.

End Float64Facts.

(* ------------------------------------------------------------------ *)
(** ** The executable parts on small inputs *)

Example py_slice_inside : py_slice [10; 11; 12; 13; 14]%Z 1 3 = [11; 12]%Z.
Proof. reflexivity. Qed.

Example py_slice_clipped : py_slice [10; 11; 12]%Z 2 7 = [12]%Z.
Proof. reflexivity. Qed.

Example py_slice_negative : py_slice [10; 11; 12; 13]%Z (-3) (-1) = [11; 12]%Z.
Proof. reflexivity. Qed.

Example py_slice_reversed_bounds : py_slice [10; 11; 12; 13]%Z 3 1 = [].
Proof. reflexivity. Qed.

Example roll_half_odd : roll_half [0; 1; 2; 3; 4]%Z = [3; 4; 0; 1; 2]%Z.
Proof. reflexivity. Qed.

Example roll_half_even : roll_half [0; 1; 2; 3]%Z = [2; 3; 0; 1]%Z.
Proof. reflexivity. Qed.

Example rot90_2x2 :
  rot90 0%Z (mk_array2 2 [[1; 2]; [3; 4]]%Z) = mk_array2 2 [[2; 4]; [1; 3]]%Z.
Proof. reflexivity. Qed.

Example transpose_2x3 :
  transpose 0%Z (mk_array2 3 [[1; 2; 3]; [4; 5; 6]]%Z)
    = mk_array2 2 [[1; 4]; [2; 5]; [3; 6]]%Z.
Proof. reflexivity. Qed.

Example contains_inside : contains "FLAIR" "T2 FLAIR (IR)" = true.
Proof. reflexivity. Qed.

Example contains_case_sensitive : contains "FLAIR" "flair" = false.
Proof. reflexivity. Qed.

Example plain_T1 : plain_name "T1" = true.
Proof. reflexivity. Qed.

Example lower_mixed : lower "T1_Map" = "t1_map"%string.
Proof. reflexivity. Qed.

Example find_key_first_alias :
  find_key ["t1"; "t1_map"]%string
    [("__header__", MOther); ("T1_MAP", MOther); ("t1", MOther)]%string
    = Some "T1_MAP"%string.
Proof. reflexivity. Qed.

Example bdim_stretch : bdim 1 5 = Some 5%nat /\ bdim 5 5 = Some 5%nat /\ bdim 2 5 = None.
Proof. repeat split. Qed.

(* ------------------------------------------------------------------ *)
(** ** The signal equations *)

Section SignalModel.

Import MRIPhysics.

Lemma radians_90 : radians 90 = PI / 2.
Proof. unfold radians. field. Qed.

Lemma sin_radians_nonneg (FA : R) : 0 <= FA <= 180 -> 0 <= sin (radians FA).
Proof.
  intros [H0 H180]. pose proof PI_RGT_0 as Hpi.
  apply sin_ge_0; unfold radians; nra.
Qed.

(** On finite parameters and TR >= 0 the steady-state equation meets no
    singularity before the echo decay: the quotient is a finite real. *)
Lemma steady_state_signal_quotient (T1 T2 PD TR TE FA : R) :
  0 <= TR ->
  let e1 := exp (- TR / Rmax T1 1e-5) in
  steady_state_signal (Fin T1) (Fin T2) (Fin PD) TR TE FA =
    fmul (Fin (PD * (1 - e1) * sin (radians FA)
                 / (1 - e1 * cos (radians FA) + 1e-9)))
         (fexp (Fin (- TE / Rmax T2 1e-5)))
  /\ 0 < e1 <= 1 /\ 0 < 1 - e1 * cos (radians FA) + 1e-9.
Proof.
  intros Htr e1.
  destruct (maximum_floor T1) as [M1 P1].
  destruct (maximum_floor T2) as [M2 P2].
  assert (Hx : - TR / Rmax T1 1e-5 <= 0).
  { replace (- TR / Rmax T1 1e-5) with (- (TR / Rmax T1 1e-5)) by (field; lra).
    assert (0 <= TR / Rmax T1 1e-5) by (apply div_nonneg; lra). lra. }
  assert (He1 : 0 < e1 <= 1).
  { split; [apply exp_pos |].
    unfold e1. replace (- TR / Rmax T1 1e-5) with (- (TR / Rmax T1 1e-5)) by (field; lra).
    apply exp_neg_le_1. apply div_nonneg; lra. }
  assert (Hden : 0 < 1 - e1 * cos (radians FA) + 1e-9).
  { pose proof (COS_bound (radians FA)) as [_ Hc]. nra. }
  split; [| split; assumption].
  unfold steady_state_signal. rewrite M1, M2.
  rewrite !fdiv_fin by lra. rewrite (fexp_nonpos _ Hx).
  cbn [fsub fneg fadd fmul]. fold e1.
  replace (1 + - (e1 * cos (radians FA)) + 1e-9)
    with (1 - e1 * cos (radians FA) + 1e-9) by ring.
  rewrite fdiv_fin by lra. reflexivity.
Qed.

(** With TE >= 0 as well, every intermediate value is a finite real. *)
Lemma steady_state_signal_value (T1 T2 PD TR TE FA : R) :
  0 <= TR -> 0 <= TE ->
  let e1 := exp (- TR / Rmax T1 1e-5) in
  let e2 := exp (- TE / Rmax T2 1e-5) in
  steady_state_signal (Fin T1) (Fin T2) (Fin PD) TR TE FA =
    Fin (PD * (1 - e1) * sin (radians FA)
           / (1 - e1 * cos (radians FA) + 1e-9) * e2)
  /\ 0 < e1 <= 1 /\ 0 < 1 - e1 * cos (radians FA) + 1e-9.
Proof.
  intros Htr Hte e1 e2.
  destruct (steady_state_signal_quotient T1 T2 PD TR TE FA Htr) as (Hv & He1 & Hden).
  split; [| split; assumption]. rewrite Hv.
  destruct (maximum_floor T2) as [_ P2].
  rewrite fexp_nonpos; [reflexivity |].
  replace (- TE / Rmax T2 1e-5) with (- (TE / Rmax T2 1e-5)) by (field; lra).
  assert (0 <= TE / Rmax T2 1e-5) by (apply div_nonneg; lra). lra.
Qed.

(** C3.  For T1 > 0, T2 > 0, PD >= 0, TR >= 0, TE >= 0 and a flip angle
    strictly between 0 and 180 degrees, the steady-state signal is a finite
    real and it is non-negative; the value is the one computed before the
    NaN/Inf scrub, which has nothing to replace. *)
Theorem steady_state_finite_nonneg (T1 T2 PD TR TE FA : R) :
  0 < T1 -> 0 < T2 -> 0 <= PD -> 0 <= TR -> 0 <= TE -> 0 < FA < 180 ->
  exists s : R,
    calculate_signal_steady_state (Fin T1) (Fin T2) (Fin PD) TR TE FA = Fin s
    /\ steady_state_signal (Fin T1) (Fin T2) (Fin PD) TR TE FA = Fin s
    /\ 0 <= s.
Proof.
  intros H1 H2 Hpd Htr Hte Hfa.
  destruct (steady_state_signal_value T1 T2 PD TR TE FA Htr Hte)
    as (Hv & [He1 He1'] & Hden).
  eexists. unfold calculate_signal_steady_state. rewrite Hv. cbn [nan_to_num].
  split; [reflexivity | split; [reflexivity |]].
  assert (Hs : 0 <= sin (radians FA)) by (apply sin_radians_nonneg; lra).
  apply Rmult_le_pos; [| left; apply exp_pos].
  apply div_nonneg; [| assumption].
  apply Rmult_le_pos; [apply Rmult_le_pos |]; lra.
Qed.

Lemma steady_state_finite_nonneg_example :
  exists s : R,
    calculate_signal_steady_state (Fin 600) (Fin 70) (Fin 0.7) 500 20 90 = Fin s
    /\ steady_state_signal (Fin 600) (Fin 70) (Fin 0.7) 500 20 90 = Fin s
    /\ 0 <= s.
Proof. apply (steady_state_finite_nonneg 600 70 0.7 500 20 90); lra. Defined.

Lemma exp_neg_ln2 : exp (- ln 2) = / 2.
Proof. rewrite exp_Ropp, exp_ln by lra. reflexivity. Qed.

Lemma Mz_long_TR_negative (T1 TI : R) :
  0 < T1 -> TI < T1 * ln 2 -> Mz_long_TR T1 TI < 0.
Proof.
  intros H1 Hti. unfold Mz_long_TR.
  assert (H : exp (- ln 2) < exp (- TI / T1)).
  { apply exp_increasing.
    apply Rmult_lt_reg_r with T1; [assumption |].
    replace (- TI / T1 * T1) with (- TI) by (field; lra). lra. }
  rewrite exp_neg_ln2 in H. lra.
Qed.

Lemma Mz_long_TR_positive (T1 TI : R) :
  0 < T1 -> T1 * ln 2 < TI -> 0 < Mz_long_TR T1 TI.
Proof.
  intros H1 Hti. unfold Mz_long_TR.
  assert (H : exp (- TI / T1) < exp (- ln 2)).
  { apply exp_increasing.
    apply Rmult_lt_reg_r with T1; [assumption |].
    replace (- TI / T1 * T1) with (- TI) by (field; lra). lra. }
  rewrite exp_neg_ln2 in H. lra.
Qed.

End SignalModel.

(* ------------------------------------------------------------------ *)
(** ** NaN/Inf scrubbing of the signal *)

Section Scrubbing.

Import MRIPhysics.

Lemma fabs_not_NInf (x : float64) : fabs x <> NInf.
Proof. destruct x; discriminate. Qed.

(** C5, as the code has it.  What the final [np.nan_to_num] of both signal
    functions does with each kind of entry: a finite entry is kept, NaN becomes 0, [+Inf] becomes the
    largest finite double and [-Inf] its negation; the result holds no NaN
    and no Inf.  After the magnitude taken by [inversion_recovery] no [-Inf]
    is left to replace. *)
Theorem signal_scrub_values (t1 t2 pd : float64) (TR TE TI FA : R) :
  calculate_signal_steady_state t1 t2 pd TR TE FA
    = match steady_state_signal t1 t2 pd TR TE FA with
      | Fin r => Fin r
      | NaN => Fin 0
      | PInf => Fin DBL_MAX
      | NInf => Fin (- DBL_MAX)
      end
  /\ is_finite (calculate_signal_steady_state t1 t2 pd TR TE FA)
  /\ inversion_recovery t1 t2 pd TR TE TI FA
    = match inversion_recovery_signal t1 t2 pd TR TE TI FA with
      | Fin r => Fin r
      | NaN => Fin 0
      | PInf | NInf => Fin DBL_MAX
      end
  /\ is_finite (inversion_recovery t1 t2 pd TR TE TI FA).
Proof.
  split; [| split; [| split]].
  - unfold calculate_signal_steady_state.
    destruct (steady_state_signal t1 t2 pd TR TE FA); reflexivity.
  - apply nan_to_num_finite.
  - unfold inversion_recovery.
    pose proof (fabs_not_NInf
      (fmul (fmul (fmul pd (mz_ti t1 TR TI)) (Fin (sin (radians FA))))
            (fexp (fdiv (Fin (- TE)) t2)))) as Hn.
    fold (inversion_recovery_signal t1 t2 pd TR TE TI FA) in Hn.
    destruct (inversion_recovery_signal t1 t2 pd TR TE TI FA);
      try reflexivity; contradiction.
  - apply nan_to_num_finite.
Qed.

(** NaN does arise and is scrubbed to 0: an inversion-recovery voxel of the
    phantom background (T1 = T2 = PD = 0) at TI = 0. *)
Lemma nan_is_scrubbed_to_zero :
  inversion_recovery_signal (Fin 0) (Fin 0) (Fin 0) 9000 120 0 90 = NaN
  /\ inversion_recovery (Fin 0) (Fin 0) (Fin 0) 9000 120 0 90 = Fin 0.
Proof.
  assert (H : inversion_recovery_signal (Fin 0) (Fin 0) (Fin 0) 9000 120 0 90 = NaN).
  { unfold inversion_recovery_signal, mz_ti. cbn [fdiv].
    destruct (Req_dec_T 0 0) as [_ | N]; [| contradiction].
    replace (- 0) with 0 by ring. rewrite sign_case_zero. reflexivity. }
  split; [exact H |]. unfold inversion_recovery. rewrite H. reflexivity.
Qed.

(** An infinite entry is not replaced with 0.  With T1 = 0 and a negative
    inversion time the inversion-recovery magnitude is [+Inf], and with an
    infinite proton density so is the steady-state signal; in both cases the
    returned entry is the largest finite double. *)
Lemma inf_is_not_scrubbed_to_zero :
  inversion_recovery_signal (Fin 0) (Fin 1) (Fin 1) 1 0 (-1) 90 = PInf
  /\ inversion_recovery (Fin 0) (Fin 1) (Fin 1) 1 0 (-1) 90 = Fin DBL_MAX
  /\ steady_state_signal (Fin 1000) (Fin 100) PInf 500 20 90 = PInf
  /\ calculate_signal_steady_state (Fin 1000) (Fin 100) PInf 500 20 90 = Fin DBL_MAX
  /\ 0 < DBL_MAX.
Proof.
  assert (Hs : sin (radians 90) = 1) by (rewrite radians_90; apply sin_PI2).
  assert (Hc : cos (radians 90) = 0) by (rewrite radians_90; apply cos_PI2).
  assert (H1 : inversion_recovery_signal (Fin 0) (Fin 1) (Fin 1) 1 0 (-1) 90 = PInf).
  { unfold inversion_recovery_signal, mz_ti. rewrite Hs. cbn [fdiv].
    destruct (Req_dec_T 0 0) as [_ | N]; [| contradiction].
    destruct (Req_dec_T 1 0) as [E | _]; [lra |].
    rewrite (sign_case_pos (- -1)) by lra.
    rewrite (sign_case_neg (- (1))) by lra.
    rewrite (fexp_nonpos (- 0 / 1)) by lra.
    cbn [fexp fmul]. rewrite (sign_case_pos 2) by lra.
    cbn [fsub fneg fadd fmul].
    rewrite !(sign_case_pos 1) by lra.
    cbn [fmul]. rewrite !(sign_case_pos 1) by lra.
    cbn [fmul]. rewrite sign_case_pos by apply exp_pos. reflexivity. }
  assert (H2 : steady_state_signal (Fin 1000) (Fin 100) PInf 500 20 90 = PInf).
  { destruct (steady_state_signal_value 1000 100 1 500 20 90) as (_ & [He He'] & Hd);
      try lra.
    destruct (maximum_floor 1000) as [M1 P1].
    destruct (maximum_floor 100) as [M2 P2].
    unfold steady_state_signal. rewrite M1, M2, Hs, Hc in *.
    rewrite !fdiv_fin by lra.
    rewrite !fexp_nonpos by (apply neg_div_nonpos; lra).
    cbn [fsub fneg fadd fmul].
    set (e1 := exp (- (500) / Rmax 1000 1e-5)) in *.
    assert (He1 : e1 < 1).
    { unfold e1.
      replace (- (500) / Rmax 1000 1e-5) with (- (500 / Rmax 1000 1e-5)) by (field; lra).
      apply exp_neg_lt_1. apply div_pos; lra. }
    rewrite (sign_case_pos (1 + - e1)) by lra.
    cbn [fmul]. rewrite (sign_case_pos 1) by lra.
    cbn [fdiv]. rewrite sign_case_pos by lra.
    cbn [fmul]. rewrite sign_case_pos by apply exp_pos. reflexivity. }
  split; [exact H1 | split; [| split; [exact H2 | split]]].
  - unfold inversion_recovery. rewrite H1. reflexivity.
  - unfold calculate_signal_steady_state. rewrite H2. reflexivity.
  - apply DBL_MAX_pos.
Qed.

End Scrubbing.

(* ------------------------------------------------------------------ *)
(** ** crop_or_pad *)

Section CropOrPad.

Context {A : Type} (zero : A).

Lemma py_slice_window_length {B : Type} (l : list B) (start size : Z) :
  (0 <= start)%Z -> (0 <= size)%Z -> (start + size <= Z.of_nat (length l))%Z ->
  length (py_slice l start (start + size)) = Z.to_nat size.
Proof.
  intros Hs Hz Hn. unfold py_slice, slice_bound.
  destruct (Z.ltb_spec start 0); [lia |].
  destruct (Z.ltb_spec (start + size) 0); [lia |].
  rewrite length_firstn, length_skipn. lia.
Qed.

Lemma slice_len_window (n : nat) (start size : Z) :
  (0 <= start)%Z -> (0 <= size)%Z -> (start + size <= Z.of_nat n)%Z ->
  slice_len n start (start + size) = Z.to_nat size.
Proof.
  intros Hs Hz Hn. unfold slice_len.
  apply py_slice_window_length; try assumption. rewrite length_seq. assumption.
Qed.

Lemma half_le (d : Z) : (0 <= d)%Z -> (0 <= d / 2 <= d)%Z.
Proof.
  intros Hd. split; [apply Z.div_pos; lia |].
  apply Z.div_le_upper_bound; lia.
Qed.

(** The result of [crop_or_pad] is [target_size] rows of [target_size]
    columns, whatever the shape of the input. *)
Lemma crop_or_pad_shape (img : array2 A) (target_size : Z) :
  (0 <= target_size)%Z ->
  Z.of_nat (nrows (crop_or_pad zero img target_size)) = target_size
  /\ Z.of_nat (ncols (crop_or_pad zero img target_size)) = target_size.
Proof.
  intros Hsz. unfold crop_or_pad.
  set (h := Z.of_nat (nrows img)). set (w := Z.of_nat (ncols img)).
  destruct ((h - target_size =? 0)%Z && (w - target_size =? 0)%Z)%bool eqn:E.
  - apply andb_prop in E. destruct E as [E1 E2].
    apply Z.eqb_eq in E1, E2. fold h. fold w. lia.
  - clear E.
    assert (Hrows :
      Z.of_nat (nrows
        (if (0 <=? h - target_size)%Z
         then slice_rows img ((h - target_size) / 2)
                ((h - target_size) / 2 + target_size)
         else pad_rows zero img (Z.to_nat (Z.abs (h - target_size) / 2))
                (Z.to_nat (Z.abs (h - target_size) - Z.abs (h - target_size) / 2))))
      = target_size).
    { destruct (Z.leb_spec 0 (h - target_size)) as [Hd | Hd].
      - pose proof (half_le _ Hd). unfold nrows, slice_rows. cbn [rows].
        rewrite py_slice_window_length; unfold nrows in h; lia.
      - assert (Ha : (0 <= Z.abs (h - target_size))%Z) by lia.
        pose proof (half_le _ Ha). unfold nrows, pad_rows. cbn [rows].
        rewrite !length_app, !repeat_length. unfold nrows in h. lia. }
    assert (Hcols :
      ncols
        (if (0 <=? h - target_size)%Z
         then slice_rows img ((h - target_size) / 2)
                ((h - target_size) / 2 + target_size)
         else pad_rows zero img (Z.to_nat (Z.abs (h - target_size) / 2))
                (Z.to_nat (Z.abs (h - target_size) - Z.abs (h - target_size) / 2)))
      = ncols img).
    { destruct (0 <=? h - target_size)%Z; reflexivity. }
    set (img1 := if (0 <=? h - target_size)%Z then _ else _) in *.
    destruct (Z.leb_spec 0 (w - target_size)) as [Hd | Hd].
    + pose proof (half_le _ Hd). unfold slice_cols, nrows. cbn [rows ncols].
      rewrite length_map. fold (nrows img1). split; [exact Hrows |].
      rewrite Hcols, slice_len_window; unfold w in *; lia.
    + assert (Ha : (0 <= Z.abs (w - target_size))%Z) by lia.
      pose proof (half_le _ Ha). unfold pad_cols, nrows. cbn [rows ncols].
      rewrite length_map. fold (nrows img1). split; [exact Hrows |].
      rewrite Hcols. unfold w in *. lia.
Qed.

(** An image that already has the target shape is returned as it is. *)
Lemma crop_or_pad_same_shape (img : array2 A) (target_size : Z) :
  Z.of_nat (nrows img) = target_size -> Z.of_nat (ncols img) = target_size ->
  crop_or_pad zero img target_size = img.
Proof.
  intros Hh Hw. unfold crop_or_pad. rewrite Hh, Hw, Z.sub_diag. reflexivity.
Qed.

(** C2.  [crop_or_pad] is idempotent for every 2-D array and every target
    size that is positive (or zero): a second application changes nothing;
    and an array that is already [size] by [size] is returned unchanged. *)
Theorem crop_or_pad_idempotent (img : array2 A) (target_size : Z) :
  (0 <= target_size)%Z ->
  crop_or_pad zero (crop_or_pad zero img target_size) target_size
    = crop_or_pad zero img target_size
  /\ (Z.of_nat (nrows img) = target_size -> Z.of_nat (ncols img) = target_size ->
      crop_or_pad zero img target_size = img).
Proof.
  intros Hsz. split.
  - destruct (crop_or_pad_shape img target_size Hsz) as [Hh Hw].
    apply crop_or_pad_same_shape; assumption.
  - apply crop_or_pad_same_shape.
Qed.

End CropOrPad.

(** The claim at a 3 x 2 image and target size 2: the first application crops
    a row, the second is the identity. *)
Lemma crop_or_pad_idempotent_example :
  crop_or_pad 0%Z (crop_or_pad 0%Z (mk_array2 2 [[1; 2]; [3; 4]; [5; 6]]%Z) 2) 2
    = crop_or_pad 0%Z (mk_array2 2 [[1; 2]; [3; 4]; [5; 6]]%Z) 2
  /\ (Z.of_nat (nrows (mk_array2 2 [[1; 2]; [3; 4]; [5; 6]]%Z)) = 2%Z ->
      Z.of_nat (ncols (mk_array2 2 [[1; 2]; [3; 4]; [5; 6]]%Z)) = 2%Z ->
      crop_or_pad 0%Z (mk_array2 2 [[1; 2]; [3; 4]; [5; 6]]%Z) 2
        = mk_array2 2 [[1; 2]; [3; 4]; [5; 6]]%Z).
Proof.
  apply (crop_or_pad_idempotent 0%Z (mk_array2 2 [[1; 2]; [3; 4]; [5; 6]]%Z) 2). lia.
Defined.

Example crop_3x2_to_2 :
  crop_or_pad 0%Z (mk_array2 2 [[1; 2]; [3; 4]; [5; 6]]%Z) 2
    = mk_array2 2 [[1; 2]; [3; 4]]%Z.
Proof. reflexivity. Qed.

Example pad_1x3_to_2 :
  crop_or_pad 0%Z (mk_array2 3 [[1; 2; 3]]%Z) 2
    = mk_array2 2 [[1; 2]; [0; 0]]%Z.
Proof. reflexivity. Qed.

Example pad_2x1_to_4 :
  crop_or_pad 0%Z (mk_array2 1 [[7]; [8]]%Z) 4
    = mk_array2 4 [[0; 0; 0; 0]; [0; 7; 0; 0]; [0; 8; 0; 0]; [0; 0; 0; 0]]%Z.
Proof. reflexivity. Qed.

(* ------------------------------------------------------------------ *)
(** ** The axial averaging window *)

Section AxialWindow.

Lemma py_int_below_one (x : R) : x < 1 -> (py_int x <= 0)%Z.
Proof.
  intros Hx. unfold py_int. destruct (Rle_dec 0 x) as [H0 | H0].
  - destruct (base_Int_part x) as [Hlo _].
    assert (H : IZR (Int_part x) < IZR 1) by (simpl; lra).
    apply lt_IZR in H. lia.
  - destruct (base_Int_part (- x)) as [_ Hhi].
    assert (H : IZR (-1) < IZR (Int_part (- x))) by (simpl; lra).
    apply lt_IZR in H. lia.
Qed.

Lemma firstn_seq_prefix (k start len : nat) :
  (k <= len)%nat -> firstn k (seq start len) = seq start k.
Proof.
  revert start len. induction k as [| k IH]; intros start len Hk; [reflexivity |].
  destruct len as [| len]; [lia |].
  cbn. f_equal. apply IH. lia.
Qed.

Lemma py_slice_seq (n : nat) (a b : Z) :
  (0 <= a <= b)%Z -> (b <= Z.of_nat n)%Z ->
  py_slice (seq 0 n) a b = seq (Z.to_nat a) (Z.to_nat (b - a)).
Proof.
  intros Hab Hb. unfold py_slice, slice_bound. rewrite length_seq.
  destruct (Z.ltb_spec a 0); [lia |]. destruct (Z.ltb_spec b 0); [lia |].
  rewrite !Z.min_l by lia. rewrite skipn_seq, firstn_seq_prefix by lia.
  reflexivity.
Qed.

(** For any real thickness the window lies inside the volume and is not
    empty. *)
Lemma axial_window_bounds (d2 : nat) (idx : Z) (th : R) :
  (0 < d2)%nat ->
  let '(z_start, z_end) := axial_window (Z.of_nat d2) idx th in
  (0 <= z_start < z_end)%Z /\ (z_end <= Z.of_nat d2)%Z.
Proof.
  intros Hd. unfold axial_window, clamp_slice.
  set (hk := Z.max 0 (py_int (th / 2))).
  destruct (Z.leb_spec
    (Z.min (Z.of_nat d2) (Z.max 0 (Z.min idx (Z.of_nat d2 - 1)) + hk + 1))
    (Z.max 0 (Z.max 0 (Z.min idx (Z.of_nat d2 - 1)) - hk))); lia.
Qed.

Lemma py_int_half (t : Z) : py_int (IZR t / 2) = Z.quot t 2.
Proof.
  assert (Hpos : forall n : Z, (0 <= n)%Z -> Int_part (IZR n / 2) = Z.quot n 2).
  { intros n Hn. symmetry. apply Int_part_spec.
    pose proof (Z.quot_rem' n 2) as Hq.
    pose proof (Z.rem_bound_pos n 2 Hn ltac:(lia)) as Hr.
    assert (E : IZR n = 2 * IZR (Z.quot n 2) + IZR (Z.rem n 2)).
    { rewrite Hq at 1. rewrite plus_IZR, mult_IZR. reflexivity. }
    assert (R0 : 0 <= IZR (Z.rem n 2)) by (apply IZR_le; lia).
    assert (R1 : IZR (Z.rem n 2) <= 1) by (apply IZR_le; lia).
    lra. }
  unfold py_int. destruct (Rle_dec 0 (IZR t / 2)) as [H | H].
  - apply Hpos. apply le_IZR. lra.
  - replace (- (IZR t / 2)) with (IZR (- t) / 2) by (rewrite opp_IZR; lra).
    rewrite Hpos.
    + rewrite Z.quot_opp_l by lia. lia.
    + apply le_IZR. rewrite opp_IZR. lra.
Qed.

(** An int thickness below [2^1024] in magnitude divides without
    overflow. *)
Lemma int_true_divide_half (t : Z) :
  (Z.abs t < 2 ^ 1024)%Z -> int_true_divide t 2 = Ok (Fin (IZR t / 2)).
Proof.
  intros Ht. unfold int_true_divide. cbn [Z.eqb].
  assert (Hb : IZR (2 ^ 1024) < 2 * overflow_threshold).
  { unfold overflow_threshold. rewrite <- mult_IZR. apply IZR_lt. reflexivity. }
  assert (H1 : IZR t < IZR (2 ^ 1024)) by (apply IZR_lt; lia).
  assert (H2 : IZR (- 2 ^ 1024) < IZR t) by (apply IZR_lt; lia).
  rewrite opp_IZR in H2.
  rewrite overflow_in_range by lra. reflexivity.
Qed.

(** With an int thickness in range the window is the one of the real
    thickness. *)
Lemma axial_window_int_value (max_slice idx t : Z) :
  (Z.abs t < 2 ^ 1024)%Z ->
  axial_window_int max_slice idx t = Ok (axial_window max_slice idx (IZR t)).
Proof.
  intros Ht. unfold axial_window_int. rewrite int_true_divide_half by exact Ht.
  reflexivity.
Qed.

(** C10.  In axial rendering over a non-empty volume of depth [d2] (at
    most [2^52], as any array in memory is, so that the rounding of
    [thickness / 2] beyond [2^53] cannot show in the window), for every
    slice index and every int thickness below [2^1024] in magnitude (zero
    and negative included), the window computation returns a window
    [z_start, z_end) around the clamped centre
    [max(0, min(idx, d2 - 1))]: [0 <= z_start <= centre < z_end <= d2], so
    it selects at least one slice; the ends are [max(0, centre - h)] and
    [min(d2, centre + h + 1)] with [h = max(0, t quot 2)]; for every
    thickness at most 1 it selects exactly the clamped centre slice.  When
    the three stored volumes have the depth [d2], each of the three slabs is
    the mean over this non-empty run of slices. *)
Theorem axial_window_nonempty (d2 : nat) (idx t : Z) :
  (0 < d2)%nat -> (Z.of_nat d2 <= 2 ^ 52)%Z -> (Z.abs t < 2 ^ 1024)%Z ->
  exists z_start z_end : Z,
    let z_center := Z.max 0 (Z.min idx (Z.of_nat d2 - 1)) in
    let run := seq (Z.to_nat z_start) (Z.to_nat (z_end - z_start)) in
    axial_window_int (Z.of_nat d2) idx t = Ok (z_start, z_end)
    /\ axial_window (Z.of_nat d2) idx (IZR t) = (z_start, z_end)
    /\ (0 <= z_start <= z_center)%Z /\ (z_center < z_end <= Z.of_nat d2)%Z
    /\ py_slice (seq 0 d2) z_start z_end = run
    /\ (1 <= length (py_slice (seq 0 d2) z_start z_end))%nat
    /\ z_start = Z.max 0 (z_center - Z.max 0 (Z.quot t 2))
    /\ z_end = Z.min (Z.of_nat d2) (z_center + Z.max 0 (Z.quot t 2) + 1)
    /\ ((t <= 1)%Z ->
        z_start = z_center /\ z_end = (z_center + 1)%Z
        /\ py_slice (seq 0 d2) z_start z_end = [Z.to_nat z_center])
    /\ (forall (p : acquisition) (d0 d1 : nat) (v1 v2 v3 : ndarray),
          view_plane p = "axial"%string -> slice_idx p = idx ->
          thickness p = IZR t ->
          shape v1 = [d0; d1; d2] -> shape v2 = [d0; d1; d2] ->
          shape v3 = [d0; d1; d2] ->
          let slab v :=
            tabulate d0 d1
              (fun i j => fmean (map (fun k => vget v d1 d2 i j k) run)) in
          reslice v1 (Some v2) (Some v3) p = Ok (slab v1, slab v2, slab v3)).
Proof.
  intros Hd _ Ht.
  pose proof (axial_window_bounds d2 idx (IZR t) Hd) as Hb.
  pose proof (axial_window_int_value (Z.of_nat d2) idx t Ht) as Hi.
  destruct (axial_window (Z.of_nat d2) idx (IZR t)) as [zs ze] eqn:E.
  destruct Hb as [Hse He].
  exists zs, ze. cbv zeta.
  set (zc := Z.max 0 (Z.min idx (Z.of_nat d2 - 1))).
  set (hk := Z.max 0 (Z.quot t 2)).
  assert (Hw : zs = Z.max 0 (zc - hk) /\ ze = Z.min (Z.of_nat d2) (zc + hk + 1)).
  { unfold axial_window, clamp_slice in E. rewrite py_int_half in E.
    fold zc hk in E. injection E as E1 E2.
    split; [symmetry; exact E1 |].
    destruct (Z.leb_spec (Z.min (Z.of_nat d2) (zc + hk + 1)) (Z.max 0 (zc - hk)));
      unfold zc, hk in *; lia. }
  destruct Hw as [Hzs Hze].
  assert (Hzc : (0 <= zc <= Z.of_nat d2 - 1)%Z) by (unfold zc; lia).
  assert (Hhk : (0 <= hk)%Z) by (unfold hk; lia).
  assert (Hsl : py_slice (seq 0 d2) zs ze = seq (Z.to_nat zs) (Z.to_nat (ze - zs)))
    by (apply py_slice_seq; lia).
  split; [exact Hi | split; [reflexivity |]].
  split; [lia | split; [lia |]].
  split; [exact Hsl | split; [rewrite Hsl, length_seq; lia |]].
  split; [exact Hzs | split; [exact Hze |]].
  split.
  - intros Ht1.
    assert (Hh : hk = 0%Z).
    { unfold hk. assert (H : (Z.quot t 2 <= 0)%Z).
      { destruct (Z.le_gt_cases t 0) as [Hn | Hp].
        - pose proof (Z.quot_pos (- t) 2 ltac:(lia) ltac:(lia)) as Hq.
          rewrite Z.quot_opp_l in Hq by lia. lia.
        - assert (t = 1%Z) by lia. subst t. cbn. lia. }
      lia. }
    assert (Hs : zs = zc) by lia.
    assert (Hz : ze = (zc + 1)%Z) by lia.
    split; [exact Hs | split; [exact Hz |]].
    rewrite Hsl, Hs, Hz. replace (Z.to_nat (zc + 1 - zc)) with 1%nat by lia. reflexivity.
  - intros p d0 d1 v1 v2 v3 Hax Hidx Hth S1 S2 S3. cbv zeta.
    unfold reslice. rewrite Hax. cbn [String.eqb Ascii.eqb Bool.eqb negb].
    rewrite S1. cbn [dim_at nth_error bind]. rewrite Hidx, Hth, E.
    unfold on_volume, axial_slab. rewrite S1, S2, S3. cbn [bind].
    rewrite Hsl. reflexivity.
Qed.

Lemma axial_window_nonempty_example :
  exists z_start z_end : Z,
    axial_window_int (Z.of_nat 20) 25 (-3) = Ok (z_start, z_end)
    /\ (0 <= z_start <= 19)%Z /\ (19 < z_end <= Z.of_nat 20)%Z
    /\ (1 <= length (py_slice (seq 0 20) z_start z_end))%nat
    /\ py_slice (seq 0 20) z_start z_end = [19%nat].
Proof.
  destruct (axial_window_nonempty 20 25 (-3)) as (zs & ze & H); [lia | lia | lia |].
  cbv zeta in H. destruct H as (H1 & _ & H3 & H4 & _ & H6 & _ & _ & H8 & _).
  exists zs, ze. split; [exact H1 |]. split; [exact H3 |]. split; [exact H4 |].
  split; [exact H6 |]. destruct H8 as (_ & _ & H8); [lia |]. exact H8.
Defined.

(** An int thickness of [10^400] makes the window computation raise, and a
    T2 volume shallower than the T1 volume leaves the T2 slab of the second
    slice the mean of no entry. *)
Lemma axial_window_raises_or_slab_empty :
  axial_window_int 20 10 (10 ^ 400) = Raise OverflowError
  /\ (exists t1_s t2_s pd_s : array2 float64,
        reslice two_voxels (Some (one_voxel 70)) (Some (one_voxel 0.7)) second_slice
          = Ok (t1_s, t2_s, pd_s)
        /\ py_slice (seq 0 1) 1 2 = []
        /\ get2 NaN t1_s 0 0 = Fin 950
        /\ get2 NaN t2_s 0 0 = NaN).
Proof.
  split.
  - unfold axial_window_int, int_true_divide. cbn [Z.eqb].
    rewrite overflow_at_least; [reflexivity |].
    unfold overflow_threshold.
    assert (H : IZR ((2 ^ 1024 - 2 ^ 970) * 2) <= IZR (10 ^ 400)).
    { apply IZR_le. apply Z.leb_le. vm_compute. reflexivity. }
    rewrite mult_IZR in H. lra.
  - assert (Hw : axial_window 2 1 1 = (1, 2)%Z).
    { unfold axial_window, clamp_slice.
      assert (H : (py_int (1 / 2) <= 0)%Z) by (apply py_int_below_one; lra).
      replace (Z.max 0 (py_int (1 / 2))) with 0%Z by lia. reflexivity. }
    unfold reslice. cbn [view_plane second_slice String.eqb Ascii.eqb Bool.eqb negb].
    cbn [shape two_voxels dim_at nth_error bind Z.of_nat Pos.of_succ_nat Pos.succ].
    cbn [slice_idx thickness second_slice]. rewrite Hw.
    do 3 eexists. split; [reflexivity |]. split; [reflexivity |].
    split.
    + unfold tabulate, get2, fmean, fsum, vget. cbn.
      change (Pos.to_nat 1) with 1%nat. cbn.
      destruct (Req_dec_T 1 0) as [E | _]; [lra |]. f_equal. lra.
    + unfold tabulate, get2, fmean, fsum, vget. cbn.
      change (Pos.to_nat 1) with 1%nat. cbn.
      destruct (Req_dec_T 0 0) as [_ | N]; [| contradiction].
      apply sign_case_zero.
Qed.

End AxialWindow.

(* ------------------------------------------------------------------ *)
(** ** The volume store *)

Section VolumeStore.

Lemma phantom_shape (d0 d1 d2 : nat) :
  let '(t1, t2, pd) := generate_synthetic_phantom (d0, d1, d2) in
  shape t1 = [d0; d1; d2] /\ shape t2 = [d0; d1; d2] /\ shape pd = [d0; d1; d2].
Proof. cbn. repeat split. Qed.

Lemma init_dimensions : get_dimensions init = [128; 128; 20]%nat.
Proof. reflexivity. Qed.

(** Any plane name other than ['coronal'] and ['sagittal'] is read as axial. *)
Lemma get_max_slice_default_axial
    (self : MRISimulatorModel) (v : ndarray) (plane : string) :
  t1_vol self = Some v -> plane <> "coronal"%string -> plane <> "sagittal"%string ->
  get_max_slice self plane = dim_at (shape v) 2.
Proof.
  intros Hv Hc Hs. unfold get_max_slice. rewrite Hv.
  apply String.eqb_neq in Hc, Hs. rewrite Hc, Hs. reflexivity.
Qed.

(** C9.  [get_max_slice] gives the extent of the stored volume along the
    slice axis of the plane: D0 for coronal, D1 for sagittal, D2 for axial;
    it gives 0 when no volume is loaded; on the default phantom, of shape
    (128, 128, 20), it gives 20 for axial and 128 for sagittal and coronal. *)
Theorem get_max_slice_extent
    (d0 d1 d2 : nat) (entries : list float64) (t2 pd : option ndarray)
    (img : option (array2 float64)) (ks : option (array2 complex))
    (plane : string) :
  let loaded := mk_model (Some (mk_ndarray [d0; d1; d2] entries)) t2 pd img ks in
  let empty := mk_model None t2 pd img ks in
  get_max_slice loaded "coronal" = Ok (Z.of_nat d0)
  /\ get_max_slice loaded "sagittal" = Ok (Z.of_nat d1)
  /\ get_max_slice loaded "axial" = Ok (Z.of_nat d2)
  /\ get_max_slice empty plane = Ok 0%Z
  /\ get_dimensions init = [128; 128; 20]%nat
  /\ get_max_slice init "axial" = Ok 20%Z
  /\ get_max_slice init "sagittal" = Ok 128%Z
  /\ get_max_slice init "coronal" = Ok 128%Z.
Proof. cbv zeta. repeat split. Qed.

End VolumeStore.

(* ------------------------------------------------------------------ *)
(** ** The importer *)

Section Importer.

Ltac case_results :=
  repeat match goal with
         | |- context [match ?r with Ok _ => _ | Raise _ => _ end] => destruct r
         | |- context [match assoc ?k ?l with Some _ => _ | None => _ end] =>
             destruct (assoc k l) as [[?|]|]
         | |- context [if ?b then _ else _] => destruct b
         end.

(** The outcome of the VObj block is decided by the record alone, and when
    it sets [found] the three volumes are the record's. *)
Lemma load_vobj_by_record (s s' : MRISimulatorModel) (vobj : matvalue) :
  snd (load_vobj s vobj) = snd (load_vobj s' vobj)
  /\ (snd (load_vobj s vobj) = true ->
      volumes (fst (load_vobj s vobj)) = volumes (fst (load_vobj s' vobj))).
Proof.
  unfold load_vobj.
  destruct (field_array vobj "T1") as [a1 | e1]; [| split; [reflexivity | discriminate]].
  destruct (field_array vobj "T2") as [a2 | e2]; [| split; [reflexivity | discriminate]].
  destruct (has_field vobj "Rho").
  - destruct (field_array vobj "Rho"); split; try reflexivity; discriminate.
  - destruct (has_field vobj "PD").
    + destruct (field_array vobj "PD"); split; try reflexivity; discriminate.
    + split; reflexivity.
Qed.

(** The same for the flat block. *)
Lemma load_flat_by_file (s s' : MRISimulatorModel) (mat : matfile) :
  snd (load_flat s mat) = snd (load_flat s' mat)
  /\ (snd (load_flat s mat) = Ok true ->
      volumes (fst (load_flat s mat)) = volumes (fst (load_flat s' mat))).
Proof.
  unfold load_flat.
  destruct (truthy (find_key ["t1"; "t1_map"]%string mat)
            && truthy (find_key ["t2"; "t2_map"]%string mat))%bool;
    [| split; [reflexivity | discriminate]].
  destruct (bind (mat_get mat (find_key ["t1"; "t1_map"]%string mat)) astype_float64);
    [| split; [reflexivity | discriminate]].
  destruct (bind (mat_get mat (find_key ["t2"; "t2_map"]%string mat)) astype_float64);
    [| split; [reflexivity | discriminate]].
  destruct (truthy (find_key ["rho"; "pd"; "pd_map"]%string mat)).
  - destruct (bind (mat_get mat (find_key ["rho"; "pd"; "pd_map"]%string mat))
                astype_float64); split; try reflexivity; discriminate.
  - split; reflexivity.
Qed.

(** The cleaning block reads and writes the three volumes only. *)
Lemma clean_loaded_by_volumes (s s' : MRISimulatorModel) :
  volumes s = volumes s' ->
  snd (clean_loaded s) = snd (clean_loaded s')
  /\ volumes (fst (clean_loaded s)) = volumes (fst (clean_loaded s')).
Proof.
  unfold volumes. intros H. injection H as E1 E2 E3.
  unfold clean_loaded. cbn [t1_vol t2_vol pd_vol set_t1 set_t2 set_pd].
  rewrite E1, E2, E3.
  destruct (np_max (nan_to_num_vol (t1_vol s'))) as [m | e]; [| split; reflexivity].
  destruct (flt m 10); split; reflexivity.
Qed.

(** The importer never touches the cached image and spectrum. *)
Lemma load_mat_file_keeps_cache (s : MRISimulatorModel) (loaded : result matfile) :
  current_image (fst (load_mat_file s loaded)) = current_image s
  /\ k_space (fst (load_mat_file s loaded)) = k_space s.
Proof.
  unfold load_mat_file. destruct loaded as [mat | e]; [| split; reflexivity].
  assert (Hv : forall v, current_image (fst (load_vobj s v)) = current_image s
                         /\ k_space (fst (load_vobj s v)) = k_space s).
  { intros v. unfold load_vobj. case_results; split; reflexivity. }
  assert (Hf : forall s0, current_image (fst (load_flat s0 mat)) = current_image s0
                          /\ k_space (fst (load_flat s0 mat)) = k_space s0).
  { intros s0. unfold load_flat. case_results; split; reflexivity. }
  assert (Hc : forall s0, current_image (fst (clean_loaded s0)) = current_image s0
                          /\ k_space (fst (clean_loaded s0)) = k_space s0).
  { intros s0. unfold clean_loaded. case_results; split; reflexivity. }
  destruct (assoc "VObj" mat) as [vobj |].
  - specialize (Hv vobj). destruct (load_vobj s vobj) as [s1 [|]]; cbn [fst] in Hv.
    + destruct (Hc s1) as [Hc1 Hc2]. destruct Hv as [Hv1 Hv2].
      cbn. rewrite Hc1, Hc2. split; assumption.
    + specialize (Hf s1). destruct (load_flat s1 mat) as [s2 [[|] | e]]; cbn [fst] in Hf.
      * destruct (Hc s2) as [Hc1 Hc2]. destruct Hv as [Hv1 Hv2]. destruct Hf as [Hf1 Hf2].
        cbn. rewrite Hc1, Hc2, Hf1, Hf2. split; assumption.
      * cbn. destruct Hv, Hf. split; congruence.
      * cbn. destruct Hv, Hf. split; congruence.
  - specialize (Hf s). destruct (load_flat s mat) as [s2 [[|] | e]]; cbn [fst] in Hf.
    + destruct (Hc s2) as [Hc1 Hc2]. destruct Hf as [Hf1 Hf2].
      cbn. rewrite Hc1, Hc2. split; assumption.
    + cbn. exact Hf.
    + cbn. exact Hf.
Qed.

Lemma load_vobj_found_all (s : MRISimulatorModel) (vobj : matvalue) :
  snd (load_vobj s vobj) = true -> fully_loaded (volumes (fst (load_vobj s vobj))).
Proof.
  unfold load_vobj, fully_loaded, volumes.
  destruct (field_array vobj "T1") as [a1 | e1]; [| discriminate].
  destruct (field_array vobj "T2") as [a2 | e2]; [| discriminate].
  destruct (has_field vobj "Rho").
  - destruct (field_array vobj "Rho"); [| discriminate]. intros _. cbn. eauto.
  - destruct (has_field vobj "PD").
    + destruct (field_array vobj "PD"); [| discriminate]. intros _. cbn. eauto.
    + intros _. cbn. eauto.
Qed.

Lemma load_flat_found_all (s : MRISimulatorModel) (mat : matfile) :
  snd (load_flat s mat) = Ok true -> fully_loaded (volumes (fst (load_flat s mat))).
Proof.
  unfold load_flat, fully_loaded, volumes.
  destruct (truthy (find_key ["t1"; "t1_map"]%string mat)
            && truthy (find_key ["t2"; "t2_map"]%string mat))%bool; [| discriminate].
  destruct (bind (mat_get mat (find_key ["t1"; "t1_map"]%string mat)) astype_float64);
    [| discriminate].
  destruct (bind (mat_get mat (find_key ["t2"; "t2_map"]%string mat)) astype_float64);
    [| discriminate].
  destruct (truthy (find_key ["rho"; "pd"; "pd_map"]%string mat)).
  - destruct (bind (mat_get mat (find_key ["rho"; "pd"; "pd_map"]%string mat))
                astype_float64); [| discriminate]. intros _. cbn. eauto.
  - intros _. cbn. eauto.
Qed.

Lemma clean_loaded_keeps_all (s : MRISimulatorModel) :
  fully_loaded (volumes s) -> fully_loaded (volumes (fst (clean_loaded s))).
Proof.
  intros (a1 & a2 & a3 & H). unfold volumes in H. injection H as E1 E2 E3.
  unfold clean_loaded, fully_loaded, volumes.
  cbn [t1_vol t2_vol pd_vol set_t1 set_t2 set_pd]. rewrite E1, E2, E3.
  destruct (np_max (nan_to_num_vol (Some a1))) as [m | e]; [| cbn; eauto].
  destruct (flt m 10); cbn; eauto.
Qed.

Lemma load_mat_file_parsed (s : MRISimulatorModel) (mat : matfile) :
  load_mat_file s (Ok mat) =
    match snd (parsed s mat) with
    | Raise e => (fst (parsed s mat), (false, ExceptionText e))
    | Ok true => clean_loaded (fst (parsed s mat))
    | Ok false => (fst (parsed s mat), (false, No_T1_T2))
    end.
Proof.
  unfold load_mat_file, parsed.
  destruct (match assoc "VObj" mat with
            | Some vobj => load_vobj s vobj
            | None => (s, false)
            end) as [s1 [|]].
  - reflexivity.
  - destruct (load_flat s1 mat) as [s2 [[|] | e]]; reflexivity.
Qed.

Lemma parsed_by_file (s s' : MRISimulatorModel) (mat : matfile) :
  snd (parsed s mat) = snd (parsed s' mat)
  /\ (snd (parsed s mat) = Ok true ->
      volumes (fst (parsed s mat)) = volumes (fst (parsed s' mat))
      /\ fully_loaded (volumes (fst (parsed s mat)))).
Proof.
  unfold parsed. destruct (assoc "VObj" mat) as [vobj |].
  - destruct (load_vobj_by_record s s' vobj) as [Hf Hv].
    pose proof (load_vobj_found_all s vobj) as Ha.
    destruct (load_vobj s vobj) as [s1 f], (load_vobj s' vobj) as [s1' f'].
    cbn [fst snd] in *. subst f'. destruct f.
    + cbn. split; [reflexivity |]. intros _. split; [apply Hv | apply Ha]; reflexivity.
    + destruct (load_flat_by_file s1 s1' mat) as [Hf' Hv'].
      split; [exact Hf' |]. intros H. split; [apply Hv'; exact H |].
      apply load_flat_found_all; exact H.
  - destruct (load_flat_by_file s s' mat) as [Hf' Hv'].
    split; [exact Hf' |]. intros H. split; [apply Hv'; exact H |].
    apply load_flat_found_all; exact H.
Qed.

(** C1, as the code has it.  The flag and message of [load_mat_file] are
    decided by the container alone.  When the call returns success, all
    three volumes hold arrays and they are determined by the container alone:
    nothing of the previous T1, T2 or PD is left.  When the container does
    not open, or holds no VObj record with a readable T1 field and lacks a
    T1 or a T2 alias, the call returns failure with the store exactly as it
    was.  The cached image and spectrum are never touched. *)
Theorem load_mat_file_replacement
    (s s' : MRISimulatorModel) (loaded : result matfile) :
  snd (load_mat_file s loaded) = snd (load_mat_file s' loaded)
  /\ (fst (snd (load_mat_file s loaded)) = true ->
      volumes (fst (load_mat_file s loaded)) = volumes (fst (load_mat_file s' loaded))
      /\ fully_loaded (volumes (fst (load_mat_file s loaded))))
  /\ (forall e : exn, loaded = Raise e ->
      load_mat_file s loaded = (s, (false, ExceptionText e)))
  /\ (forall mat : matfile, loaded = Ok mat ->
      (forall vobj, assoc "VObj" mat = Some vobj ->
                    exists e, field_array vobj "T1" = Raise e) ->
      (truthy (find_key ["t1"; "t1_map"]%string mat)
       && truthy (find_key ["t2"; "t2_map"]%string mat))%bool = false ->
      load_mat_file s loaded = (s, (false, No_T1_T2)))
  /\ current_image (fst (load_mat_file s loaded)) = current_image s
  /\ k_space (fst (load_mat_file s loaded)) = k_space s.
Proof.
  split; [| split; [| split; [| split]]].
  - destruct loaded as [mat | e]; [| reflexivity].
    rewrite !load_mat_file_parsed.
    destruct (parsed_by_file s s' mat) as [Hf Hv]. rewrite <- Hf.
    destruct (snd (parsed s mat)) as [[|] | e]; try reflexivity.
    destruct (Hv eq_refl) as [Hv' _].
    apply (clean_loaded_by_volumes _ _ Hv').
  - destruct loaded as [mat | e]; [| discriminate].
    rewrite !load_mat_file_parsed.
    destruct (parsed_by_file s s' mat) as [Hf Hv]. rewrite <- Hf.
    destruct (snd (parsed s mat)) as [[|] | e]; try discriminate.
    destruct (Hv eq_refl) as [Hv' Ha]. intros _. split.
    + apply (clean_loaded_by_volumes _ _ Hv').
    + apply clean_loaded_keeps_all. exact Ha.
  - intros e ->. reflexivity.
  - intros mat -> Hno Hkeys. unfold load_mat_file.
    destruct (assoc "VObj" mat) as [vobj |].
    + destruct (Hno vobj eq_refl) as [e He]. unfold load_vobj. rewrite He.
      unfold load_flat. rewrite Hkeys. reflexivity.
    + unfold load_flat. rewrite Hkeys. reflexivity.
  - apply load_mat_file_keeps_cache.
Qed.

Lemma file_T1_T2_loads (s : MRISimulatorModel) :
  fst (snd (load_mat_file s (Ok file_T1_T2))) = true.
Proof.
  cbv -[IZR Rlt_dec].
  destruct (Rlt_dec 950 10); reflexivity.
Qed.

Lemma load_mat_file_replacement_example :
  volumes (fst (load_mat_file small_store (Ok file_T1_T2)))
    = volumes (fst (load_mat_file (mk_model None None None None None) (Ok file_T1_T2)))
  /\ fully_loaded (volumes (fst (load_mat_file small_store (Ok file_T1_T2)))).
Proof.
  destruct (load_mat_file_replacement small_store
              (mk_model None None None None None) (Ok file_T1_T2)) as (_ & H & _).
  apply H. apply file_T1_T2_loads.
Defined.

(** A failure can leave the store partly replaced.  With a flat container
    whose T2 entry does not convert, and with a VObj record that has a T1
    field only, the call returns failure after T1 has been overwritten: the
    new T1 is stored next to the old T2 and PD. *)
Lemma failure_after_partial_replacement :
  load_mat_file small_store (Ok file_text_T2)
    = (mk_model (Some two_voxels) (Some (one_voxel 70)) (Some (one_voxel 0.7)) None None,
       (false, ExceptionText ConversionError))
  /\ load_mat_file small_store (Ok file_vobj_T1_only)
    = (mk_model (Some two_voxels) (Some (one_voxel 70)) (Some (one_voxel 0.7)) None None,
       (false, No_T1_T2))
  /\ t1_vol small_store = Some (one_voxel 600)
  /\ shape (one_voxel 600) = [1; 1; 1]%nat
  /\ shape two_voxels = [1; 1; 2]%nat.
Proof. repeat split. Qed.

(** Reading the keys of the flat schema. *)
Lemma alias_key_nonempty (aliases : list string) (mat : matfile) (k : string) :
  ~ In ""%string aliases -> find_key aliases mat = Some k ->
  truthy (Some k) = true.
Proof.
  intros Hno Hk. unfold find_key in Hk. apply find_some in Hk. destruct Hk as [_ Ha].
  cbn. destruct (String.eqb_spec k ""); [| reflexivity].
  subst k. unfold alias_in in Ha. apply existsb_exists in Ha.
  destruct Ha as (a & Hin & Heq). cbn in Heq.
  destruct a; [contradiction | discriminate].
Qed.

(** C8, as the code has it.  Take a container with no VObj record in which
    the first key matching a T1 alias and the first key matching a T2 alias
    hold numeric arrays, the T1 array has at least one entry, and no key
    matches a PD alias.  Then [load_mat_file] returns success and the stored
    PD volume is an array of ones with the shape (and entry count) of the T1
    array. *)
Theorem flat_import_defaults_pd
    (s : MRISimulatorModel) (mat : matfile) (k1 k2 : string) (a1 a2 : ndarray) :
  assoc "VObj" mat = None ->
  find_key ["t1"; "t1_map"]%string mat = Some k1 ->
  find_key ["t2"; "t2_map"]%string mat = Some k2 ->
  find_key ["rho"; "pd"; "pd_map"]%string mat = None ->
  assoc k1 mat = Some (MArray a1) ->
  assoc k2 mat = Some (MArray a2) ->
  data a1 <> [] ->
  snd (load_mat_file s (Ok mat)) = (true, Loaded)
  /\ pd_vol (fst (load_mat_file s (Ok mat)))
     = Some (mk_ndarray (shape a1) (repeat (Fin 1) (length (data a1))))
  /\ option_map shape (t1_vol (fst (load_mat_file s (Ok mat)))) = Some (shape a1)
  /\ option_map shape (t2_vol (fst (load_mat_file s (Ok mat)))) = Some (shape a2).
Proof.
  intros Hno H1 H2 Hpd Ha1 Ha2 Hne.
  assert (T1 : truthy (Some k1) = true)
    by (apply (alias_key_nonempty ["t1"; "t1_map"]%string mat);
        [cbn; intuition discriminate | exact H1]).
  assert (T2 : truthy (Some k2) = true)
    by (apply (alias_key_nonempty ["t2"; "t2_map"]%string mat);
        [cbn; intuition discriminate | exact H2]).
  assert (Hones : forall l : list float64,
            map nan_to_num (map (fun _ => Fin 1) l) = repeat (Fin 1) (length l)).
  { induction l as [| x l IH]; [reflexivity |]. cbn. f_equal. exact IH. }
  assert (Hflat : load_flat s mat
            = (set_pd (set_t2 (set_t1 s (Some a1)) (Some a2)) (ones_like (Some a1)),
               Ok true)).
  { unfold load_flat. rewrite H1, H2, Hpd, T1, T2.
    cbn [andb truthy mat_get]. rewrite Ha1, Ha2. reflexivity. }
  unfold load_mat_file. rewrite Hno, Hflat. unfold clean_loaded.
  cbn [t1_vol t2_vol pd_vol set_t1 set_t2 set_pd ones_like nan_to_num_vol
       option_map np_max shape data].
  rewrite Hones.
  destruct (data a1) as [| x l] eqn:Ed; [contradiction |].
  cbn [map]. destruct (flt _ 10); cbn; repeat split.
Qed.

Lemma flat_import_defaults_pd_example :
  snd (load_mat_file small_store (Ok file_T1_T2)) = (true, Loaded)
  /\ pd_vol (fst (load_mat_file small_store (Ok file_T1_T2)))
     = Some (mk_ndarray (shape (one_voxel 950))
               (repeat (Fin 1) (length (data (one_voxel 950)))))
  /\ option_map shape (t1_vol (fst (load_mat_file small_store (Ok file_T1_T2))))
     = Some (shape (one_voxel 950))
  /\ option_map shape (t2_vol (fst (load_mat_file small_store (Ok file_T1_T2))))
     = Some (shape (one_voxel 100)).
Proof.
  apply (flat_import_defaults_pd small_store file_T1_T2 "T1" "T2"
           (one_voxel 950) (one_voxel 100)); try reflexivity.
  discriminate.
Defined.

(** With T1 and T2 aliases present, no PD array, but an empty T1 array, the
    import does not succeed: [np.max] of the empty T1 raises and the call
    returns failure (after storing all three arrays). *)
Lemma flat_import_empty_T1_fails :
  load_mat_file small_store (Ok file_empty_T1)
    = (mk_model (Some empty_array) (Some empty_array) (Some empty_array) None None,
       (false, ExceptionText ValueError))
  /\ assoc "VObj" file_empty_T1 = None
  /\ find_key ["t1"; "t1_map"]%string file_empty_T1 = Some "T1"%string
  /\ find_key ["t2"; "t2_map"]%string file_empty_T1 = Some "T2"%string
  /\ find_key ["rho"; "pd"; "pd_map"]%string file_empty_T1 = None
  /\ assoc "T1" file_empty_T1 = Some (MArray empty_array)
  /\ assoc "T2" file_empty_T1 = Some (MArray empty_array).
Proof. repeat split. Qed.

End Importer.

(* ------------------------------------------------------------------ *)
(** ** Sequence dispatch *)

Section Dispatch.

Variable zoom : array2 float64 -> R -> R -> result (array2 float64).
Variable rotate : array2 float64 -> R -> result (array2 float64).
Variable gaussian_filter1d : array2 float64 -> R -> result (array2 float64).

Lemma get2_tabulate {A : Type} (d : A) (h w : nat) (f : nat -> nat -> A) (i j : nat) :
  (i < h)%nat -> (j < w)%nat -> get2 d (tabulate h w f) i j = f i j.
Proof.
  intros Hi Hj. unfold get2, tabulate. cbn [rows].
  rewrite (nth_indep _ [] (map (fun j0 => f 0%nat j0) (seq 0 w)))
    by (rewrite length_map, length_seq; exact Hi).
  rewrite (map_nth (fun i0 => map (fun j0 => f i0 j0) (seq 0 w)) (seq 0 h) 0%nat i).
  rewrite seq_nth by exact Hi. cbn [Nat.add].
  rewrite (nth_indep _ d (f i 0%nat)) by (rewrite length_map, length_seq; exact Hj).
  rewrite (map_nth (fun j0 => f i j0) (seq 0 w) 0%nat j).
  rewrite seq_nth by exact Hj. reflexivity.
Qed.

Lemma nrows_tabulate {A : Type} (h w : nat) (f : nat -> nat -> A) :
  nrows (tabulate h w f) = h.
Proof. unfold nrows, tabulate. cbn [rows]. rewrite length_map, length_seq. reflexivity. Qed.



(** Every entry of the spin-echo image is the steady-state equation applied
    to the (broadcast) slab entries, with the TR, TE and FA of the call. *)
Lemma spin_echo_image_entries
    (p : acquisition) (t1_s t2_s pd_s img : array2 float64) (i j : nat) :
  spin_echo_image p t1_s t2_s pd_s = Ok img ->
  (i < nrows img)%nat -> (j < ncols img)%nat ->
  get2 NaN img i j
    = MRIPhysics.calculate_signal_steady_state
        (bget t1_s i j) (bget t2_s i j) (bget pd_s i j) (tr p) (te p) (fa p).
Proof.
  unfold spin_echo_image, broadcast3.
  destruct (bshape (shape2 pd_s) (shape2 t1_s)) as [s |]; [| discriminate].
  destruct (bshape s (shape2 t2_s)) as [[h w] |]; [| discriminate].
  intros E. injection E as <-. rewrite nrows_tabulate. cbn [ncols tabulate].
  intros Hi Hj. rewrite get2_tabulate by assumption. reflexivity.
Qed.





End Dispatch.


(* ------------------------------------------------------------------ *)
(** ** Shapes and entries of 2-D arrays *)

Section ArrayFacts.

Context {A : Type}.

Lemma ncols_tabulate (h w : nat) (f : nat -> nat -> A) : ncols (tabulate h w f) = w.
Proof. reflexivity. Qed.

Lemma wf_tabulate (h w : nat) (f : nat -> nat -> A) : wf_array2 (tabulate h w f).
Proof.
  unfold wf_array2, tabulate. cbn [rows ncols].
  apply Forall_map. apply Forall_forall. intros i _.
  rewrite length_map, length_seq. reflexivity.
Qed.

Lemma all2_tabulate (P : A -> Prop) (h w : nat) (f : nat -> nat -> A) :
  (forall i j, (i < h)%nat -> (j < w)%nat -> P (f i j)) ->
  all2 P (tabulate h w f).
Proof.
  intros H. unfold all2, tabulate. cbn [rows].
  apply Forall_map. apply Forall_forall. intros i Hi. apply in_seq in Hi.
  apply Forall_map. apply Forall_forall. intros j Hj. apply in_seq in Hj.
  apply H; lia.
Qed.

Lemma all2_get2 (P : A -> Prop) (d : A) (a : array2 A) (i j : nat) :
  wf_array2 a -> all2 P a -> (i < nrows a)%nat -> (j < ncols a)%nat ->
  P (get2 d a i j).
Proof.
  intros Hwf Hall Hi Hj. unfold get2.
  assert (Hin : In (nth i (rows a) []) (rows a)) by (apply nth_In; exact Hi).
  unfold wf_array2 in Hwf. unfold all2 in Hall.
  rewrite Forall_forall in Hwf, Hall.
  specialize (Hwf _ Hin). specialize (Hall _ Hin).
  rewrite Forall_forall in Hall. apply Hall. apply nth_In. lia.
Qed.

Lemma Forall_firstn {B : Type} (P : B -> Prop) (n : nat) (l : list B) :
  Forall P l -> Forall P (firstn n l).
Proof.
  intros H. revert n. induction H as [| x l Hx _ IH]; intros [| n]; cbn; auto.
Qed.

Lemma Forall_skipn {B : Type} (P : B -> Prop) (n : nat) (l : list B) :
  Forall P l -> Forall P (skipn n l).
Proof.
  intros H. revert n. induction H as [| x l Hx Hl IH]; intros [| n]; cbn; auto.
Qed.

Lemma Forall_py_slice {B : Type} (P : B -> Prop) (l : list B) (a b : Z) :
  Forall P l -> Forall P (py_slice l a b).
Proof.
  intros H. unfold py_slice. apply Forall_firstn, Forall_skipn. exact H.
Qed.

Lemma Forall_roll_half {B : Type} (P : B -> Prop) (l : list B) :
  Forall P l -> Forall P (roll_half l).
Proof.
  intros H. unfold roll_half. apply Forall_app.
  split; [apply Forall_skipn | apply Forall_firstn]; exact H.
Qed.

Lemma length_roll_half {B : Type} (l : list B) : length (roll_half l) = length l.
Proof.
  unfold roll_half. rewrite length_app, length_skipn, length_firstn.
  pose proof (Nat.Div0.div_le_upper_bound (length l) 2 (length l)). lia.
Qed.

Lemma fftshift_shape (a : array2 A) : shape2 (fftshift a) = shape2 a.
Proof.
  unfold shape2, nrows, fftshift. cbn [rows ncols].
  rewrite length_roll_half, length_map. reflexivity.
Qed.

End ArrayFacts.

Section ImagePreservation.

Context {A : Type} (P : A -> Prop).

Lemma Forall_repeat_of (x : A) (n : nat) : P x -> Forall P (repeat x n).
Proof.
  intros Hx. apply Forall_forall. intros y Hy. apply repeat_spec in Hy. subst y. exact Hx.
Qed.

Lemma py_slice_length_by_length {B C : Type} (l : list B) (l' : list C) (a b : Z) :
  length l = length l' -> length (py_slice l a b) = length (py_slice l' a b).
Proof.
  intros H. unfold py_slice. rewrite !length_firstn, !length_skipn, H. reflexivity.
Qed.

Lemma flipud_keeps (a : array2 A) :
  wf_array2 a -> all2 P a ->
  wf_array2 (flipud a) /\ all2 P (flipud a) /\ shape2 (flipud a) = shape2 a.
Proof.
  unfold wf_array2, all2, shape2, nrows, flipud. cbn [rows ncols]. intros Hw Ha.
  split; [apply Forall_rev; exact Hw | split; [apply Forall_rev; exact Ha |]].
  rewrite length_rev. reflexivity.
Qed.

Lemma fliplr_keeps (a : array2 A) :
  wf_array2 a -> all2 P a ->
  wf_array2 (fliplr a) /\ all2 P (fliplr a) /\ shape2 (fliplr a) = shape2 a.
Proof.
  unfold wf_array2, all2, shape2, nrows, fliplr. cbn [rows ncols]. intros Hw Ha.
  split; [| split].
  - apply Forall_map. revert Hw. apply Forall_impl. intros r Hr.
    rewrite length_rev. exact Hr.
  - apply Forall_map. revert Ha. apply Forall_impl. intros r Hr.
    apply Forall_rev. exact Hr.
  - rewrite length_map. reflexivity.
Qed.

Lemma transpose_keeps (d : A) (a : array2 A) :
  wf_array2 a -> all2 P a ->
  wf_array2 (transpose d a) /\ all2 P (transpose d a)
  /\ shape2 (transpose d a) = (ncols a, nrows a).
Proof.
  intros Hw Ha. unfold transpose. split; [apply wf_tabulate | split].
  - apply all2_tabulate. intros i j Hi Hj. apply all2_get2; assumption.
  - unfold shape2. rewrite nrows_tabulate. reflexivity.
Qed.

Lemma rot90_keeps (d : A) (a : array2 A) :
  wf_array2 a -> all2 P a ->
  wf_array2 (rot90 d a) /\ all2 P (rot90 d a)
  /\ shape2 (rot90 d a) = (ncols a, nrows a).
Proof.
  intros Hw Ha. destruct (fliplr_keeps a Hw Ha) as (Hw' & Ha' & Hs).
  destruct (transpose_keeps d (fliplr a) Hw' Ha') as (Hw2 & Ha2 & Hs2).
  unfold rot90. split; [exact Hw2 | split; [exact Ha2 |]].
  rewrite Hs2. unfold shape2 in Hs. injection Hs as E1. rewrite E1. reflexivity.
Qed.

Lemma slice_rows_keeps (a : array2 A) (start stop : Z) :
  wf_array2 a -> all2 P a ->
  wf_array2 (slice_rows a start stop) /\ all2 P (slice_rows a start stop).
Proof.
  unfold wf_array2, all2, slice_rows. cbn [rows ncols]. intros Hw Ha.
  split; apply Forall_py_slice; assumption.
Qed.

Lemma pad_rows_keeps (zero : A) (a : array2 A) (top bottom : nat) :
  P zero -> wf_array2 a -> all2 P a ->
  wf_array2 (pad_rows zero a top bottom) /\ all2 P (pad_rows zero a top bottom).
Proof.
  unfold wf_array2, all2, pad_rows. cbn [rows ncols]. intros Hz Hw Ha. split.
  - repeat (apply Forall_app; split); try exact Hw;
      apply Forall_forall; intros r Hr; apply repeat_spec in Hr; subst r;
      apply repeat_length.
  - repeat (apply Forall_app; split); try exact Ha;
      apply Forall_forall; intros r Hr; apply repeat_spec in Hr; subst r;
      apply Forall_repeat_of; exact Hz.
Qed.

Lemma slice_cols_keeps (a : array2 A) (start stop : Z) :
  wf_array2 a -> all2 P a ->
  wf_array2 (slice_cols a start stop) /\ all2 P (slice_cols a start stop).
Proof.
  unfold wf_array2, all2, slice_cols. cbn [rows ncols]. intros Hw Ha. split.
  - apply Forall_map. revert Hw. apply Forall_impl. intros r Hr.
    unfold slice_len. apply py_slice_length_by_length.
    rewrite length_seq. exact Hr.
  - apply Forall_map. revert Ha. apply Forall_impl. intros r Hr.
    apply Forall_py_slice. exact Hr.
Qed.

Lemma pad_cols_keeps (zero : A) (a : array2 A) (left right : nat) :
  P zero -> wf_array2 a -> all2 P a ->
  wf_array2 (pad_cols zero a left right) /\ all2 P (pad_cols zero a left right).
Proof.
  unfold wf_array2, all2, pad_cols. cbn [rows ncols]. intros Hz Hw Ha. split.
  - apply Forall_map. revert Hw. apply Forall_impl. intros r Hr.
    rewrite !length_app, !repeat_length, Hr. lia.
  - apply Forall_map. revert Ha. apply Forall_impl. intros r Hr.
    repeat (apply Forall_app; split); try exact Hr; apply Forall_repeat_of; exact Hz.
Qed.

(** Cropping and zero padding keep an image rectangular, and keep any
    property of the entries that the padding value has. *)
Lemma crop_or_pad_keeps (zero : A) (a : array2 A) (target_size : Z) :
  P zero -> wf_array2 a -> all2 P a ->
  wf_array2 (crop_or_pad zero a target_size)
  /\ all2 P (crop_or_pad zero a target_size).
Proof.
  intros Hz Hw Ha. unfold crop_or_pad.
  destruct ((Z.of_nat (nrows a) - target_size =? 0)%Z
            && (Z.of_nat (ncols a) - target_size =? 0)%Z)%bool; [split; assumption |].
  assert (H1 : forall b : array2 A, wf_array2 b /\ all2 P b ->
            wf_array2
              (if (0 <=? Z.of_nat (ncols a) - target_size)%Z
               then slice_cols b ((Z.of_nat (ncols a) - target_size) / 2)
                      ((Z.of_nat (ncols a) - target_size) / 2 + target_size)
               else pad_cols zero b
                      (Z.to_nat (Z.abs (Z.of_nat (ncols a) - target_size) / 2))
                      (Z.to_nat (Z.abs (Z.of_nat (ncols a) - target_size)
                                 - Z.abs (Z.of_nat (ncols a) - target_size) / 2)))
            /\ all2 P
              (if (0 <=? Z.of_nat (ncols a) - target_size)%Z
               then slice_cols b ((Z.of_nat (ncols a) - target_size) / 2)
                      ((Z.of_nat (ncols a) - target_size) / 2 + target_size)
               else pad_cols zero b
                      (Z.to_nat (Z.abs (Z.of_nat (ncols a) - target_size) / 2))
                      (Z.to_nat (Z.abs (Z.of_nat (ncols a) - target_size)
                                 - Z.abs (Z.of_nat (ncols a) - target_size) / 2)))).
  { intros b [Hwb Hab].
    destruct (0 <=? Z.of_nat (ncols a) - target_size)%Z;
      [apply slice_cols_keeps | apply pad_cols_keeps]; assumption. }
  apply H1.
  destruct (0 <=? Z.of_nat (nrows a) - target_size)%Z;
    [apply slice_rows_keeps | apply pad_rows_keeps]; assumption.
Qed.

End ImagePreservation.

(* ------------------------------------------------------------------ *)
(** ** Non-negative signal entries *)

Section SignalEntries.

Import MRIPhysics.

Lemma inversion_recovery_nonneg (t1 t2 pd : float64) (TR TE TI FA : R) :
  nonneg_fin (inversion_recovery t1 t2 pd TR TE TI FA).
Proof.
  unfold inversion_recovery, inversion_recovery_signal.
  destruct (fmul (fmul (fmul pd (mz_ti t1 TR TI)) (Fin (sin (radians FA))))
                 (fexp (fdiv (Fin (- TE)) t2))); cbn.
  - apply Rabs_pos.
  - left. apply DBL_MAX_pos.
  - left. apply DBL_MAX_pos.
  - lra.
Qed.

Lemma steady_state_nonneg (T1 T2 PD TR TE FA : R) :
  0 <= PD -> 0 <= TR -> 0 <= FA <= 180 ->
  exists s : R,
    calculate_signal_steady_state (Fin T1) (Fin T2) (Fin PD) TR TE FA = Fin s
    /\ 0 <= s.
Proof.
  intros Hpd Htr Hfa.
  destruct (steady_state_signal_quotient T1 T2 PD TR TE FA Htr)
    as (Hv & [He1 He1'] & Hden).
  pose proof (sin_radians_nonneg FA Hfa) as Hs.
  set (e1 := exp (- TR / Rmax T1 1e-5)) in *.
  set (q := PD * (1 - e1) * sin (radians FA) / (1 - e1 * cos (radians FA) + 1e-9)) in *.
  assert (Hq : 0 <= q).
  { unfold q. apply div_nonneg; [| assumption].
    apply Rmult_le_pos; [apply Rmult_le_pos |]; lra. }
  unfold calculate_signal_steady_state. rewrite Hv.
  destruct (fexp_fin (- TE / Rmax T2 1e-5)) as [E | E]; rewrite E.
  - eexists. split; [reflexivity |].
    apply Rmult_le_pos; [exact Hq | left; apply exp_pos].
  - cbn [fmul]. destruct Hq as [Hq | Hq].
    + rewrite sign_case_pos by exact Hq. exists DBL_MAX.
      split; [reflexivity | left; apply DBL_MAX_pos].
    + rewrite <- Hq, sign_case_zero. exists 0. split; [reflexivity | lra].
Qed.

Lemma spin_echo_nonneg (t1 t2 pd : float64) (TR TE FA : R) :
  nonneg_fin t1 -> nonneg_fin t2 -> nonneg_fin pd ->
  0 <= TR -> 0 <= FA <= 180 ->
  nonneg_fin (spin_echo t1 t2 pd TR TE FA).
Proof.
  intros H1 H2 H3 Htr Hfa.
  destruct t1 as [a | | |], t2 as [b | | |], pd as [c | | |]; try contradiction.
  destruct (steady_state_nonneg a b c TR TE FA H3 Htr Hfa) as (s & E & Hs).
  unfold spin_echo. rewrite E. exact Hs.
Qed.

(** The EPI entry: the gradient-echo signal times the echo-train decay, in
    magnitude. *)
Lemma epi_nonneg (t1 t2 pd : float64) (TR TE FA ESP : R) :
  nonneg_fin t1 -> nonneg_fin t2 -> nonneg_fin pd ->
  0 <= TR -> 0 <= FA <= 180 -> 0 <= ESP ->
  nonneg_fin (fabs (fmul (gradient_echo t1 t2 pd TR TE FA)
                         (fexp (fdiv (Fin (- ESP)) (fadd t2 (Fin 1e-5)))))).
Proof.
  intros H1 H2 H3 Htr Hfa Hesp.
  destruct t1 as [a | | |], t2 as [b | | |], pd as [c | | |]; try contradiction.
  destruct (steady_state_nonneg a b c TR TE FA H3 Htr Hfa) as (s & E & Hs).
  unfold gradient_echo. rewrite E. cbn [fadd]. cbn in H2.
  rewrite fdiv_fin by lra.
  rewrite fexp_nonpos by (apply neg_div_nonpos; lra).
  cbn. apply Rabs_pos.
Qed.

Lemma fsum_nonneg (l : list float64) (acc : R) :
  0 <= acc -> Forall nonneg_fin l ->
  exists s : R, fold_left fadd l (Fin acc) = Fin s /\ 0 <= s.
Proof.
  intros Hacc Hl. revert acc Hacc.
  induction Hl as [| x l Hx _ IH]; intros acc Hacc.
  - exists acc. split; [reflexivity | exact Hacc].
  - destruct x as [r | | |]; try contradiction. cbn in Hx. cbn [fold_left fadd].
    apply IH. lra.
Qed.

Lemma fmean_nonneg (l : list float64) :
  l <> [] -> Forall nonneg_fin l -> nonneg_fin (fmean l).
Proof.
  intros Hne Hl. unfold fmean, fsum.
  destruct (fsum_nonneg l 0 (Rle_refl 0) Hl) as (s & E & Hs). rewrite E.
  assert (Hn : 0 < INR (length l)).
  { apply lt_0_INR. destruct l; [contradiction | cbn; lia]. }
  rewrite fdiv_fin by lra. cbn. apply div_nonneg; assumption.
Qed.

End SignalEntries.

(* ------------------------------------------------------------------ *)
(** ** The inversion-recovery equation under rounding *)

Section RoundedSignal.

Variables eps eta : R.
Variables rnd fl_exp fl_sin : R -> R.
Variable deg2rad : R.
Hypothesis model : standard_model eps eta rnd fl_exp fl_sin deg2rad.
Hypothesis eps_nonneg : 0 <= eps.
Hypothesis eta_nonneg : 0 <= eta.
Hypothesis errors_small : eps + eta <= / 1000.

Lemma Rabs_le_iff (x a : R) : Rabs x <= a <-> - a <= x <= a.
Proof.
  split.
  - intros H. unfold Rabs in H. destruct (Rcase_abs x); lra.
  - intros H. apply Rabs_le. exact H.
Qed.

Lemma double_range_large : 1000000 <= double_range.
Proof. unfold double_range. apply IZR_le. discriminate. Qed.

Lemma exp_diff_le (a b : R) : a <= b -> 0 <= exp b - exp a <= (b - a) * exp b.
Proof.
  intros Hab. pose proof (exp_pos b) as Hb.
  assert (Ha : exp a = exp b * exp (a - b)).
  { rewrite <- exp_plus. f_equal. lra. }
  pose proof (exp_ineq1_le (a - b)) as H1.
  assert (H2 : exp (a - b) <= 1).
  { destruct Hab as [Hlt | ->].
    - left. rewrite <- exp_0. apply exp_increasing. lra.
    - replace (b - b) with 0 by lra. rewrite exp_0. lra. }
  rewrite Ha. split; nra.
Qed.

Lemma x_exp_neg (t : R) : 0 <= t -> t * exp (- t) <= 1.
Proof.
  intros Ht. pose proof (exp_ineq1_le t) as H. pose proof (exp_pos t) as Hp.
  rewrite exp_Ropp. apply Rmult_le_reg_r with (exp t); [exact Hp |].
  rewrite Rmult_assoc, Rinv_l by lra. lra.
Qed.

Lemma exp_nonpos_le_1 (x : R) : x <= 0 -> exp x <= 1.
Proof.
  intros [H | ->]; [| rewrite exp_0; lra].
  left. rewrite <- exp_0. apply exp_increasing. exact H.
Qed.

Lemma exp_small_le_3 (x : R) : x <= 1 -> exp x <= 3.
Proof.
  intros [H | ->]; [| apply exp_le_3].
  apply Rle_trans with (exp 1); [| apply exp_le_3].
  left. apply exp_increasing. exact H.
Qed.

(** Rounding the argument of an exponential. *)
Lemma exp_rounded_argument (x : R) :
  x <= 0 -> Rabs x <= double_range ->
  rnd x <= 0 /\ Rabs (exp (rnd x) - exp x) <= 6 * (eps + eta).
Proof.
  intros Hx Hr. destruct model as (Hrnd & Hsign & _).
  pose proof (Hsign x Hx) as Hs. split; [exact Hs |].
  pose proof (Hrnd x Hr) as Hd. rewrite (Rabs_left1 x Hx) in Hd.
  apply Rabs_le_iff in Hd.
  set (t := - x) in *. assert (Ht : 0 <= t) by (unfold t; lra).
  pose proof (exp_nonpos_le_1 x Hx) as Hx1. pose proof (exp_pos x) as Hxp.
  pose proof (exp_nonpos_le_1 (rnd x) Hs) as Hr1. pose proof (exp_pos (rnd x)) as Hrp.
  apply Rabs_le_iff.
  destruct (Rle_lt_dec (rnd x) x) as [Hle | Hgt].
  - destruct (exp_diff_le (rnd x) x Hle) as [D0 D1].
    assert (Hte : t * exp x <= 1).
    { replace x with (- t) by (unfold t; lra). apply x_exp_neg. exact Ht. }
    assert (D2 : (x - rnd x) * exp x <= (eps * t + eta) * exp x)
      by (apply Rmult_le_compat_r; lra).
    assert (D3 : eps * (t * exp x) <= eps * 1) by (apply Rmult_le_compat_l; lra).
    assert (D4 : eta * exp x <= eta * 1) by (apply Rmult_le_compat_l; lra).
    lra.
  - destruct (exp_diff_le x (rnd x) (Rlt_le _ _ Hgt)) as [D0 D1].
    assert (D2 : (rnd x - x) * exp (rnd x) <= (eps * t + eta) * exp (rnd x))
      by (apply Rmult_le_compat_r; lra).
    assert (D4 : eta * exp (rnd x) <= eta * 1) by (apply Rmult_le_compat_l; lra).
    (* t * exp (rnd x) <= 6 *)
    assert (Hc : / 2 <= 1 - eps) by lra.
    set (s := t * (1 - eps)).
    assert (Hs0 : 0 <= s) by (unfold s; apply Rmult_le_pos; lra).
    assert (Hup : rnd x <= - s + eta) by (unfold s, t in *; lra).
    assert (He : exp (rnd x) <= exp (- s) * exp eta).
    { rewrite <- exp_plus. destruct Hup as [Hlt | ->]; [| lra].
      left. apply exp_increasing. exact Hlt. }
    pose proof (x_exp_neg s Hs0) as Hse.
    pose proof (exp_small_le_3 eta ltac:(lra)) as H3.
    pose proof (exp_pos (- s)) as Hsp. pose proof (exp_pos eta) as Hep.
    assert (Hts : t <= 2 * s) by (unfold s; nra).
    assert (T1 : t * exp (rnd x) <= t * (exp (- s) * exp eta))
      by (apply Rmult_le_compat_l; lra).
    assert (T2 : t * (exp (- s) * exp eta) <= 2 * s * (exp (- s) * exp eta)).
    { apply Rmult_le_compat_r; [| exact Hts]. apply Rmult_le_pos; lra. }
    assert (T3 : 2 * s * (exp (- s) * exp eta) = 2 * (s * exp (- s)) * exp eta) by ring.
    assert (T4 : 2 * (s * exp (- s)) * exp eta <= 2 * 1 * 3).
    { apply Rmult_le_compat; try lra. apply Rmult_le_pos; [lra |].
      apply Rmult_le_pos; lra. }
    assert (T5 : eps * (t * exp (rnd x)) <= eps * 6) by (apply Rmult_le_compat_l; lra).
    lra.
Qed.

(** [np.exp(-a / b)] for [a >= 0] and [b > 0]. *)
Lemma fl_exp_quotient (a b : R) :
  0 < b -> 0 <= a <= double_range * b ->
  Rabs (fl_exp (rnd (- a / b)) - exp (- a / b)) <= 7 * (eps + eta)
  /\ 0 < exp (- a / b) <= 1.
Proof.
  intros Hb [Ha0 Ha1].
  assert (Hq0 : 0 <= a / b).
  { unfold Rdiv. apply Rmult_le_pos; [exact Ha0 |]. left. apply Rinv_0_lt_compat. exact Hb. }
  assert (Hq1 : a / b <= double_range).
  { apply Rmult_le_reg_r with b; [exact Hb |].
    unfold Rdiv. rewrite Rmult_assoc, Rinv_l by lra. lra. }
  assert (Hx : - a / b <= 0) by (replace (- a / b) with (- (a / b)) by (field; lra); lra).
  assert (Hr : Rabs (- a / b) <= double_range).
  { apply Rabs_le_iff. replace (- a / b) with (- (a / b)) by (field; lra).
    pose proof double_range_large. lra. }
  destruct (exp_rounded_argument _ Hx Hr) as [Hs Hd].
  destruct model as (_ & _ & Hexp & _).
  pose proof (Hexp _ Hs) as He.
  pose proof (exp_nonpos_le_1 _ Hs) as H1. pose proof (exp_pos (rnd (- a / b))) as Hp.
  assert (E1 : eps * exp (rnd (- a / b)) <= eps * 1) by (apply Rmult_le_compat_l; lra).
  apply Rabs_le_iff in He. apply Rabs_le_iff in Hd.
  split.
  - apply Rabs_le_iff. lra.
  - split; [apply exp_pos | apply exp_nonpos_le_1; exact Hx].
Qed.

(** One rounding after an approximate operand. *)
Lemma rnd_step (y x M a : R) :
  Rabs (y - x) <= a -> Rabs y <= M -> M <= double_range ->
  Rabs (rnd y - x) <= a + eps * M + eta.
Proof.
  intros Hyx Hy HM. destruct model as (Hrnd & _).
  pose proof (Hrnd y ltac:(lra)) as Hd.
  assert (E : eps * Rabs y <= eps * M) by (apply Rmult_le_compat_l; lra).
  apply Rabs_le_iff in Hd. apply Rabs_le_iff in Hyx. apply Rabs_le_iff. lra.
Qed.

Lemma mz_ti_error (T1 TR TI : R) :
  0 < T1 -> 0 <= TI <= double_range * T1 -> 0 <= TR <= double_range * T1 ->
  Rabs (Rounded.mz_ti rnd fl_exp T1 TR TI - Mz T1 TR TI) <= 31 * (eps + eta)
  /\ Rabs (Mz T1 TR TI) <= 2.
Proof.
  intros H1 HTI HTR. unfold Rounded.mz_ti, Mz.
  destruct (fl_exp_quotient TI T1 H1 HTI) as [EI [PI0 PI1]].
  destruct (fl_exp_quotient TR T1 H1 HTR) as [ER [PR0 PR1]].
  assert (He : 0 <= eps + eta <= / 1000) by lra. set (e := eps + eta) in *.
  assert (Hee : eps <= e /\ eta <= e) by (unfold e; lra).
  set (EI0 := exp (- TI / T1)) in *. set (ER0 := exp (- TR / T1)) in *.
  set (fI := fl_exp (rnd (- TI / T1))) in *. set (fR := fl_exp (rnd (- TR / T1))) in *.
  pose proof double_range_large as HL.
  apply Rabs_le_iff in EI. apply Rabs_le_iff in ER.
  assert (S1 : Rabs (rnd (2 * fI) - 2 * EI0) <= 14 * e + eps * 3 + eta).
  { apply rnd_step; [apply Rabs_le_iff; lra | apply Rabs_le_iff; lra | lra]. }
  apply Rabs_le_iff in S1.
  assert (S2 : Rabs (rnd (1 - rnd (2 * fI)) - (1 - 2 * EI0)) <= 17 * e + eps * 4 + eta).
  { apply rnd_step; [apply Rabs_le_iff; unfold e in *; lra
                    | apply Rabs_le_iff; unfold e in *; lra | lra]. }
  apply Rabs_le_iff in S2.
  assert (S3 : Rabs (rnd (rnd (1 - rnd (2 * fI)) + fR) - (1 - 2 * EI0 + ER0))
               <= 28 * e + eps * 3 + eta).
  { apply rnd_step; [apply Rabs_le_iff; unfold e in *; lra
                    | apply Rabs_le_iff; unfold e in *; lra | lra]. }
  apply Rabs_le_iff in S3.
  split; apply Rabs_le_iff; unfold e in *; lra.
Qed.

Lemma sin_abs_le (x : R) : Rabs (sin x) <= Rabs x.
Proof.
  assert (H : forall y, 0 <= y -> Rabs (sin y) <= y).
  { intros y Hy. apply Rabs_le_iff. pose proof (SIN_bound y) as Hb.
    destruct Hy as [Hy | <-]; [| rewrite sin_0; lra].
    pose proof (sin_lt_x y Hy) as Hlt.
    destruct (Rle_lt_dec y 1) as [Hy1 | Hy1].
    - assert (0 <= sin y).
      { apply sin_ge_0; [lra |]. pose proof PI_RGT_0. pose proof PI2_1. lra. }
      lra.
    - lra. }
  destruct (Rle_lt_dec 0 x) as [Hx | Hx].
  - rewrite (Rabs_right x) by lra. apply H. exact Hx.
  - rewrite (Rabs_left x) by lra.
    replace (sin x) with (- sin (- x)) by (rewrite sin_neg; lra).
    rewrite Rabs_Ropp. apply H. lra.
Qed.

Lemma sin_lipschitz (a b : R) : Rabs (sin a - sin b) <= Rabs (a - b).
Proof.
  rewrite form4. rewrite !Rabs_mult.
  pose proof (COS_bound ((a + b) / 2)) as Hc.
  assert (Hc' : Rabs (cos ((a + b) / 2)) <= 1) by (apply Rabs_le_iff; lra).
  pose proof (sin_abs_le ((a - b) / 2)) as Hs.
  assert (Hh : Rabs ((a - b) / 2) = Rabs (a - b) / 2).
  { unfold Rdiv. rewrite Rabs_mult. f_equal. apply Rabs_right. lra. }
  rewrite Hh in Hs. rewrite (Rabs_right 2) by lra.
  pose proof (Rabs_pos (cos ((a + b) / 2))). pose proof (Rabs_pos (sin ((a - b) / 2))).
  pose proof (Rabs_pos (a - b)).
  nra.
Qed.

Lemma fl_sin_error (FA : R) :
  -360 <= FA <= 360 ->
  Rabs (fl_sin (Rounded.radians rnd deg2rad FA) - sin (radians FA)) <= 18 * (eps + eta)
  /\ Rabs (sin (radians FA)) <= 1.
Proof.
  intros HFA. unfold Rounded.radians, radians.
  destruct model as (_ & _ & _ & Hsin & Hc).
  pose proof PI_4 as Hpi. pose proof PI_RGT_0 as Hpi0.
  apply Rabs_le_iff in Hc.
  set (c := PI / 180) in *.
  assert (Hc0 : 0 < c <= / 45) by (unfold c; lra).
  assert (He : 0 <= eps + eta <= / 1000) by lra. set (e := eps + eta) in *.
  assert (Hee : eps <= e /\ eta <= e) by (unfold e; lra).
  pose proof double_range_large as HL.
  assert (Hec : 0 <= eps * c <= eps * / 45).
  { split; [apply Rmult_le_pos; lra | apply Rmult_le_compat_l; lra]. }
  assert (A1 : Rabs (FA * deg2rad - FA * c) <= 8 * eps).
  { replace (FA * deg2rad - FA * c) with (FA * (deg2rad - c)) by ring.
    rewrite Rabs_mult.
    assert (Rabs FA <= 360) by (apply Rabs_le_iff; lra).
    assert (Rabs (deg2rad - c) <= eps * / 45) by (apply Rabs_le_iff; lra).
    pose proof (Rabs_pos FA). pose proof (Rabs_pos (deg2rad - c)). nra. }
  assert (A2 : Rabs (FA * c) <= 8).
  { rewrite Rabs_mult. assert (Rabs FA <= 360) by (apply Rabs_le_iff; lra).
    assert (Rabs c <= / 45) by (apply Rabs_le_iff; lra).
    pose proof (Rabs_pos FA). pose proof (Rabs_pos c). nra. }
  apply Rabs_le_iff in A2.
  assert (A3 : Rabs (rnd (FA * deg2rad) - FA * c) <= 8 * eps + eps * 9 + eta).
  { apply rnd_step; [exact A1 | | lra].
    apply Rabs_le_iff in A1. apply Rabs_le_iff. lra. }
  pose proof (sin_lipschitz (rnd (FA * deg2rad)) (FA * c)) as L.
  assert (A4 : Rabs (rnd (FA * deg2rad)) <= 10).
  { apply Rabs_le_iff in A3. apply Rabs_le_iff. unfold e in *. lra. }
  pose proof (Hsin _ A4) as S.
  pose proof (SIN_bound (rnd (FA * deg2rad))) as B1.
  assert (B2 : Rabs (sin (rnd (FA * deg2rad))) <= 1) by (apply Rabs_le_iff; lra).
  assert (B3 : eps * Rabs (sin (rnd (FA * deg2rad))) <= eps * 1)
    by (apply Rmult_le_compat_l; lra).
  replace (FA * PI / 180) with (FA * c) by (unfold c; lra).
  split.
  - assert (L' : Rabs (sin (rnd (FA * deg2rad)) - sin (FA * c)) <= 17 * eps + eta) by lra.
    apply Rabs_le_iff in S. apply Rabs_le_iff in L'. apply Rabs_le_iff. unfold e. lra.
  - pose proof (SIN_bound (FA * c)). apply Rabs_le_iff. lra.
Qed.

(** The error of a product of two approximate factors. *)
Lemma mul_err (x' x y' y a b A B : R) :
  Rabs (x' - x) <= a -> Rabs (y' - y) <= b -> Rabs x <= A -> Rabs y' <= B ->
  Rabs (x' * y' - x * y) <= a * B + A * b.
Proof.
  intros Hx Hy HA HB.
  replace (x' * y' - x * y) with ((x' - x) * y' + x * (y' - y)) by ring.
  eapply Rle_trans; [apply Rabs_triang |]. rewrite !Rabs_mult.
  pose proof (Rabs_pos (x' - x)). pose proof (Rabs_pos y').
  pose proof (Rabs_pos x). pose proof (Rabs_pos (y' - y)).
  apply Rplus_le_compat; apply Rmult_le_compat; lra.
Qed.

(** The computed magnitude against the real formula. *)
Lemma inversion_recovery_error (T1 T2 PD TR TE TI FA : R) :
  0 < T1 -> 0 < T2 -> Rabs PD <= IZR (2 ^ 900) ->
  0 <= TI <= double_range * T1 -> 0 <= TR <= double_range * T1 ->
  0 <= TE <= double_range * T2 -> -360 <= FA <= 360 ->
  Rabs (Rounded.inversion_recovery rnd fl_exp fl_sin deg2rad T1 T2 PD TR TE TI FA
        - Rabs (PD * Mz T1 TR TI * sin (radians FA) * exp (- TE / T2)))
    <= 250 * (Rabs PD + 1) * (eps + eta).
Proof.
  intros H1 H2 HPD HTI HTR HTE HFA.
  unfold Rounded.inversion_recovery. cbv zeta.
  eapply Rle_trans; [apply Rabs_triang_inv2 |].
  destruct (mz_ti_error T1 TR TI H1 HTI HTR) as [Em Bm].
  destruct (fl_sin_error FA HFA) as [Es Bs].
  destruct (fl_exp_quotient TE T2 H2 HTE) as [Ee [Pe0 Pe1]].
  set (m' := Rounded.mz_ti rnd fl_exp T1 TR TI) in *.
  set (m := Mz T1 TR TI) in *.
  set (s' := fl_sin (Rounded.radians rnd deg2rad FA)) in *.
  set (s := sin (radians FA)) in *.
  set (x' := fl_exp (rnd (- TE / T2))) in *.
  set (x := exp (- TE / T2)) in *.
  assert (He : 0 <= eps + eta <= / 1000) by lra. set (e := eps + eta) in *.
  assert (Hee : eps <= e /\ eta <= e) by (unfold e; lra).
  set (p := Rabs PD) in *. assert (Hp : 0 <= p) by apply Rabs_pos.
  assert (HL : 10 * IZR (2 ^ 900) <= double_range).
  { unfold double_range. rewrite <- mult_IZR. apply IZR_le. discriminate. }
  assert (Hep : 0 <= e * p <= p / 1000) by (split; nra).
  assert (Hepsp : 0 <= eps * p <= e * p).
  { split; [apply Rmult_le_pos; lra | apply Rmult_le_compat_r; unfold e; lra]. }
  assert (Bm' : Rabs m' <= 3).
  { apply Rabs_le_iff in Em. apply Rabs_le_iff in Bm. apply Rabs_le_iff. lra. }
  assert (Bs' : Rabs s' <= 2).
  { apply Rabs_le_iff in Es. apply Rabs_le_iff in Bs. apply Rabs_le_iff. lra. }
  assert (Bx : Rabs x <= 1) by (apply Rabs_le_iff; lra).
  assert (Bx' : Rabs x' <= 2).
  { apply Rabs_le_iff in Ee. apply Rabs_le_iff. lra. }
  (* pd * mz *)
  assert (P1 : Rabs (rnd (PD * m') - PD * m) <= 34 * (e * p) + e).
  { eapply Rle_trans.
    - apply (rnd_step (PD * m') (PD * m) (3 * p) (31 * (e * p))).
      + replace (PD * m' - PD * m) with (PD * (m' - m)) by ring.
        rewrite Rabs_mult. fold p. pose proof (Rabs_pos (m' - m)). nra.
      + rewrite Rabs_mult. fold p. pose proof (Rabs_pos m'). nra.
      + lra.
    - unfold e in *. lra. }
  assert (B1 : Rabs (PD * m) <= 2 * p).
  { rewrite Rabs_mult. fold p. pose proof (Rabs_pos m). nra. }
  assert (B1' : Rabs (rnd (PD * m')) <= 3 * p + 1).
  { apply Rabs_le_iff in P1. apply Rabs_le_iff in B1. apply Rabs_le_iff. lra. }
  (* ... * sin *)
  assert (M2 : Rabs (rnd (PD * m') * s' - PD * m * s) <= 104 * (e * p) + 2 * e).
  { eapply Rle_trans; [apply (mul_err _ _ _ _ _ _ _ _ P1 Es B1 Bs') |]. lra. }
  assert (P2 : Rabs (rnd (rnd (PD * m') * s') - PD * m * s) <= 111 * (e * p) + 5 * e).
  { eapply Rle_trans.
    - apply (rnd_step _ _ (6 * p + 2) _ M2).
      + rewrite Rabs_mult. pose proof (Rabs_pos (rnd (PD * m'))). pose proof (Rabs_pos s').
        nra.
      + lra.
    - unfold e in *. lra. }
  assert (B2 : Rabs (PD * m * s) <= 2 * p).
  { rewrite Rabs_mult. pose proof (Rabs_pos (PD * m)). pose proof (Rabs_pos s). nra. }
  assert (B2' : Rabs (rnd (rnd (PD * m') * s')) <= 3 * p + 1).
  { apply Rabs_le_iff in P2. apply Rabs_le_iff in B2. apply Rabs_le_iff. lra. }
  (* ... * exp *)
  assert (M3 : Rabs (rnd (rnd (PD * m') * s') * x' - PD * m * s * x)
               <= 236 * (e * p) + 10 * e).
  { eapply Rle_trans; [apply (mul_err _ _ _ _ _ _ _ _ P2 Ee B2 Bx') |]. lra. }
  assert (P3 : Rabs (rnd (rnd (rnd (PD * m') * s') * x') - PD * m * s * x)
               <= 243 * (e * p) + 13 * e).
  { eapply Rle_trans.
    - apply (rnd_step _ _ (6 * p + 2) _ M3).
      + rewrite Rabs_mult. pose proof (Rabs_pos (rnd (rnd (PD * m') * s'))).
        pose proof (Rabs_pos x'). nra.
      + lra.
    - unfold e in *. lra. }
  eapply Rle_trans; [exact P3 |]. lra.
Qed.

(** C4.  For T1 > 0, T2 > 0, non-negative TI, TR and TE and a flip angle
    within a turn, [inversion_recovery] evaluates
    [|PD * Mz(TI) * sin(FA) * exp(-TE/T2)|] with
    [Mz(TI) = 1 - 2 exp(-TI/T1) + exp(-TR/T1)] in double arithmetic: under
    the standard model with relative error [eps] and underflow error [eta]
    the computed value is within [250 (|PD| + 1) (eps + eta)] of the real
    value, and with exact operations it is that value.  The entry the
    pipeline model returns is finite and non-negative.  With the
    [exp(-TR/T1)] term dropped, Mz is negative for TI < T1 ln 2, zero at
    TI = T1 ln 2 and positive for TI > T1 ln 2. *)
Theorem inversion_recovery_formula (T1 T2 PD TR TE TI FA : R) :
  0 < T1 -> 0 < T2 -> Rabs PD <= IZR (2 ^ 900) ->
  0 <= TI <= double_range * T1 -> 0 <= TR <= double_range * T1 ->
  0 <= TE <= double_range * T2 -> -360 <= FA <= 360 ->
  Rabs (Rounded.inversion_recovery rnd fl_exp fl_sin deg2rad T1 T2 PD TR TE TI FA
        - Rabs (PD * Mz T1 TR TI * sin (radians FA) * exp (- TE / T2)))
    <= 250 * (Rabs PD + 1) * (eps + eta)
  /\ (exists s : R,
        MRIPhysics.inversion_recovery (Fin T1) (Fin T2) (Fin PD) TR TE TI FA = Fin s
        /\ 0 <= s)
  /\ Mz T1 TR TI = Mz_long_TR T1 TI + exp (- TR / T1)
  /\ (TI < T1 * ln 2 -> Mz_long_TR T1 TI < 0)
  /\ Mz_long_TR T1 (T1 * ln 2) = 0
  /\ (T1 * ln 2 < TI -> 0 < Mz_long_TR T1 TI).
Proof.
  intros H1 H2 HPD HTI HTR HTE HFA.
  split; [apply inversion_recovery_error; assumption |].
  split.
  { pose proof (inversion_recovery_nonneg (Fin T1) (Fin T2) (Fin PD) TR TE TI FA) as Hn.
    destruct (MRIPhysics.inversion_recovery (Fin T1) (Fin T2) (Fin PD) TR TE TI FA)
      as [s | | |]; try contradiction.
    exists s. split; [reflexivity | exact Hn]. }
  split; [unfold Mz, Mz_long_TR; ring |].
  split; [apply Mz_long_TR_negative; assumption |].
  split; [| apply Mz_long_TR_positive; assumption].
  unfold Mz_long_TR.
  replace (- (T1 * ln 2) / T1) with (- ln 2) by (field; lra).
  rewrite exp_neg_ln2. field.
Qed.

End RoundedSignal.

(** An arithmetic in which every operation is off by its full relative
    error meets the standard model. *)
Lemma scaled_rounding_model (eps : R) :
  0 <= eps ->
  standard_model eps 0 (fun x => x * (1 + eps)) (fun x => exp x * (1 + eps))
    (fun x => sin x * (1 + eps)) (PI / 180 * (1 + eps)).
Proof.
  intros He.
  assert (H : forall y, Rabs (y * (1 + eps) - y) <= eps * Rabs y + 0).
  { intros y. replace (y * (1 + eps) - y) with (eps * y) by ring.
    rewrite Rabs_mult, (Rabs_right eps) by lra. lra. }
  unfold standard_model. repeat split.
  - intros x _. apply H.
  - intros x Hx. nra.
  - intros x _. pose proof (H (exp x)) as Hx.
    rewrite (Rabs_right (exp x)) in Hx by (left; apply exp_pos). exact Hx.
  - intros x _. apply H.
  - pose proof (H (PI / 180)) as Hp. pose proof PI_RGT_0.
    rewrite (Rabs_right (PI / 180)) in Hp by lra. lra.
Qed.

Lemma inversion_recovery_formula_example :
  Rabs (Rounded.inversion_recovery
          (fun x => x * (1 + / 1000000)) (fun x => exp x * (1 + / 1000000))
          (fun x => sin x * (1 + / 1000000)) (PI / 180 * (1 + / 1000000))
          3000 2000 1 9000 120 2000 90
        - Rabs (1 * Mz 3000 9000 2000 * sin (radians 90) * exp (- 120 / 2000)))
    <= 250 * (Rabs 1 + 1) * (/ 1000000 + 0)
  /\ (exists s : R,
        MRIPhysics.inversion_recovery (Fin 3000) (Fin 2000) (Fin 1) 9000 120 2000 90
          = Fin s
        /\ 0 <= s)
  /\ Mz 3000 9000 2000 = Mz_long_TR 3000 2000 + exp (- 9000 / 3000)
  /\ (2000 < 3000 * ln 2 -> Mz_long_TR 3000 2000 < 0)
  /\ Mz_long_TR 3000 (3000 * ln 2) = 0
  /\ (3000 * ln 2 < 2000 -> 0 < Mz_long_TR 3000 2000).
Proof.
  assert (HL : 1000000 <= double_range) by apply double_range_large.
  apply (inversion_recovery_formula (/ 1000000) 0 _ _ _ _
           (scaled_rounding_model (/ 1000000) ltac:(lra))); try lra.
  rewrite Rabs_R1. apply (IZR_le 1). discriminate.
Defined.

(** Without rounding the rounded model is the array model of the pipeline,
    which computes on exact reals. *)
Lemma inversion_recovery_exact_arithmetic (T1 T2 PD TR TE TI FA : R) :
  0 < T1 -> 0 < T2 -> 0 <= TI -> 0 <= TR -> 0 <= TE ->
  MRIPhysics.inversion_recovery (Fin T1) (Fin T2) (Fin PD) TR TE TI FA
  = Fin (Rounded.inversion_recovery (fun x => x) exp sin (PI / 180)
           T1 T2 PD TR TE TI FA).
Proof.
  intros H1 H2 HTI HTR HTE.
  unfold MRIPhysics.inversion_recovery, MRIPhysics.inversion_recovery_signal,
    MRIPhysics.mz_ti.
  rewrite !fdiv_fin by lra.
  rewrite !fexp_nonpos by (apply neg_div_nonpos; lra).
  cbn [fmul fsub fadd fneg fabs nan_to_num].
  unfold Rounded.inversion_recovery, Rounded.mz_ti, Rounded.radians, radians.
  do 2 f_equal. replace (FA * (PI / 180)) with (FA * PI / 180) by lra.
  ring.
Qed.

Lemma exp_nat (n : nat) : exp (INR n) = exp 1 ^ n.
Proof.
  induction n as [| n IH]; [cbn; apply exp_0 |].
  rewrite S_INR, exp_plus, IH. cbn. ring.
Qed.

Lemma exp_2000_overflows : overflow_threshold <= exp 2000.
Proof.
  replace 2000 with (INR 2000) by (rewrite INR_IZR_INZ; reflexivity).
  rewrite exp_nat.
  assert (H2 : 2 <= exp 1) by (pose proof (exp_ineq1_le 1); lra).
  apply Rle_trans with (2 ^ 2000).
  - unfold overflow_threshold. rewrite pow_IZR. apply IZR_le.
    apply Z.leb_le. vm_compute. reflexivity.
  - apply pow_incr. lra.
Qed.

(** With exact operations in range, the inversion time -2000 at T1 = 1
    overflows the exponential: the call returns the largest double, while
    the formula has a larger value. *)
Lemma inversion_recovery_overflows :
  MRIPhysics.inversion_recovery (Fin 1) (Fin 1) (Fin 1) 0 0 (-2000) 90 = Fin DBL_MAX
  /\ DBL_MAX < Rabs (1 * Mz 1 0 (-2000) * sin (radians 90) * exp (- 0 / 1)).
Proof.
  pose proof exp_2000_overflows as Hov.
  assert (Hs : sin (radians 90) = 1) by (rewrite radians_90; apply sin_PI2).
  assert (E0 : - 0 / 1 = 0) by lra.
  assert (E1 : - -2000 / 1 = 2000) by lra.
  split.
  - unfold MRIPhysics.inversion_recovery, MRIPhysics.inversion_recovery_signal,
      MRIPhysics.mz_ti.
    rewrite !fdiv_fin by lra. rewrite E0, E1, Hs.
    rewrite (fexp_nonpos 0) by lra. rewrite exp_0.
    cbn [fexp]. rewrite overflow_at_least by exact Hov.
    cbn [fmul]. rewrite sign_case_pos by lra.
    cbn [fsub fneg fadd fmul]. rewrite !sign_case_pos by lra.
    cbn [fmul]. rewrite !sign_case_pos by lra.
    cbn [fmul]. rewrite !sign_case_pos by lra.
    reflexivity.
  - unfold Mz. rewrite E0, E1, Hs, exp_0.
    pose proof DBL_MAX_below_threshold as Hd.
    pose proof overflow_threshold_large as Ht.
    pose proof double_range_large as Hl. unfold double_range in Hl.
    rewrite Rabs_left by lra. lra.
Qed.

(* ------------------------------------------------------------------ *)
(** ** Slabs of a well-formed volume *)

Section Slabs.

Variables d0 d1 d2 : nat.
Variable v : ndarray.
Hypothesis Hv : good_volume d0 d1 d2 v.

Lemma vget_nonneg (i j k : nat) :
  (i < d0)%nat -> (j < d1)%nat -> (k < d2)%nat -> nonneg_fin (vget v d1 d2 i j k).
Proof.
  intros Hi Hj Hk. destruct Hv as (_ & Hlen & Hall & _).
  unfold vget. rewrite Forall_forall in Hall. apply Hall. apply nth_In.
  rewrite Hlen.
  assert (H1 : (i * d1 + j + 1 <= d0 * d1)%nat).
  { assert (H : ((i + 1) * d1 <= d0 * d1)%nat) by (apply Nat.mul_le_mono_r; lia). lia. }
  assert (H2 : ((i * d1 + j + 1) * d2 <= d0 * d1 * d2)%nat)
    by (apply Nat.mul_le_mono_r; exact H1).
  lia.
Qed.

Lemma axial_slab_good (z_start z_end : Z) :
  (0 <= z_start < z_end)%Z -> (z_end <= Z.of_nat d2)%Z ->
  exists a, axial_slab v z_start z_end = Ok a
            /\ good_image a /\ shape2 a = (d0, d1).
Proof.
  intros Hse He. destruct Hv as (Hsh & _ & _).
  unfold axial_slab. rewrite Hsh. eexists. split; [reflexivity |].
  split; [split; [apply wf_tabulate |] |].
  - apply all2_tabulate. intros i j Hi Hj.
    rewrite py_slice_seq by lia. apply fmean_nonneg.
    + intros E. apply (f_equal (@length _)) in E.
      rewrite length_map, length_seq in E. cbn in E. lia.
    + apply Forall_map. apply Forall_forall. intros k Hk. apply in_seq in Hk.
      apply vget_nonneg; lia.
  - unfold shape2. rewrite nrows_tabulate. reflexivity.
Qed.

Lemma orient_good (a : array2 float64) :
  good_image a ->
  good_image (orient a) /\ shape2 (orient a) = (ncols a, nrows a).
Proof.
  intros [Hw Ha]. unfold orient.
  destruct (transpose_keeps nonneg_fin NaN a Hw Ha) as (Hw1 & Ha1 & Hs1).
  destruct (flipud_keeps nonneg_fin _ Hw1 Ha1) as (Hw2 & Ha2 & Hs2).
  split; [split; assumption |]. rewrite Hs2. exact Hs1.
Qed.

Lemma sagittal_slice_good (z : Z) :
  (0 <= z < Z.of_nat d1)%Z ->
  exists a, sagittal_slice v z = Ok a
            /\ good_image (orient a) /\ shape2 (orient a) = (d2, d0).
Proof.
  intros Hz. destruct Hv as (Hsh & _ & _).
  unfold sagittal_slice. rewrite Hsh.
  destruct (Z.leb_spec 0 z); [| lia]. destruct (Z.ltb_spec z (Z.of_nat d1)); [| lia].
  cbn [andb]. eexists. split; [reflexivity |].
  match goal with |- good_image (orient ?a) /\ _ =>
    assert (Hg : good_image a) end.
  { split; [apply wf_tabulate |]. apply all2_tabulate. intros i k Hi Hk.
    apply vget_nonneg; lia. }
  destruct (orient_good _ Hg) as [Hg' Hs]. split; [exact Hg' |].
  rewrite Hs. rewrite nrows_tabulate. reflexivity.
Qed.

Lemma coronal_slice_good (z : Z) :
  (0 <= z < Z.of_nat d0)%Z ->
  exists a, coronal_slice v z = Ok a
            /\ good_image (orient a) /\ shape2 (orient a) = (d2, d1).
Proof.
  intros Hz. destruct Hv as (Hsh & _ & _).
  unfold coronal_slice. rewrite Hsh.
  destruct (Z.leb_spec 0 z); [| lia]. destruct (Z.ltb_spec z (Z.of_nat d0)); [| lia].
  cbn [andb]. eexists. split; [reflexivity |].
  match goal with |- good_image (orient ?a) /\ _ =>
    assert (Hg : good_image a) end.
  { split; [apply wf_tabulate |]. apply all2_tabulate. intros j k Hj Hk.
    apply vget_nonneg; lia. }
  destruct (orient_good _ Hg) as [Hg' Hs]. split; [exact Hg' |].
  rewrite Hs. rewrite nrows_tabulate. reflexivity.
Qed.

End Slabs.

(* ------------------------------------------------------------------ *)
(** ** The pipeline on a well-formed volume *)

Section RenderStages.

Lemma clamp_slice_range (n : nat) (idx : Z) :
  (0 < n)%nat -> (0 <= clamp_slice (Z.of_nat n) idx < Z.of_nat n)%Z.
Proof. intros Hn. unfold clamp_slice. lia. Qed.

Lemma py_int_ge_one (x : R) : 1 <= x -> (1 <= py_int x)%Z.
Proof.
  intros Hx. unfold py_int. destruct (Rle_dec 0 x) as [_ | N]; [| lra].
  destruct (base_Int_part x) as [_ Hhi].
  assert (H : IZR 0 < IZR (Int_part x)) by (simpl; lra).
  apply lt_IZR in H. lia.
Qed.

(** Step 1 on three well-formed volumes of one shape: three rectangular,
    non-negative slabs of one shape, with [d2] rows off the axial plane. *)
Lemma reslice_good (d0 d1 d2 : nat) (v1 v2 v3 : ndarray) (p : acquisition) :
  good_volume d0 d1 d2 v1 -> good_volume d0 d1 d2 v2 -> good_volume d0 d1 d2 v3 ->
  (0 < d0)%nat -> (0 < d1)%nat -> (0 < d2)%nat ->
  exists a b c h w,
    reslice v1 (Some v2) (Some v3) p = Ok (a, b, c)
    /\ good_image a /\ good_image b /\ good_image c
    /\ shape2 a = (h, w) /\ shape2 b = (h, w) /\ shape2 c = (h, w)
    /\ (0 < h)%nat /\ (0 < w)%nat
    /\ (view_plane p <> "axial"%string -> h = d2).
Proof.
  intros G1 G2 G3 P0 P1 P2. unfold reslice.
  assert (Hsh : shape v1 = [d0; d1; d2]) by apply G1. rewrite Hsh.
  destruct (String.eqb_spec (view_plane p) "axial") as [Eax | Nax]; cbn [negb].
  - cbn [dim_at nth_error bind].
    pose proof (axial_window_bounds d2 (slice_idx p) (thickness p) P2) as Hb.
    destruct (axial_window (Z.of_nat d2) (slice_idx p) (thickness p)) as [zs ze].
    destruct Hb as [Hse He].
    destruct (axial_slab_good d0 d1 d2 v1 G1 zs ze Hse He) as (a & Ea & Ga & Sa).
    destruct (axial_slab_good d0 d1 d2 v2 G2 zs ze Hse He) as (b & Eb & Gb & Sb).
    destruct (axial_slab_good d0 d1 d2 v3 G3 zs ze Hse He) as (c & Ec & Gc & Sc).
    exists a, b, c, d0, d1. rewrite Ea. cbn [bind on_volume]. rewrite Eb, Ec.
    cbn [bind]. repeat (split; [assumption || reflexivity |]).
    intros N. contradiction.
  - destruct (String.eqb (view_plane p) "sagittal").
    + cbn [dim_at nth_error bind].
      pose proof (clamp_slice_range d1 (slice_idx p) P1) as Hz.
      destruct (sagittal_slice_good d0 d1 d2 v1 G1 _ Hz) as (a & Ea & Ga & Sa).
      destruct (sagittal_slice_good d0 d1 d2 v2 G2 _ Hz) as (b & Eb & Gb & Sb).
      destruct (sagittal_slice_good d0 d1 d2 v3 G3 _ Hz) as (c & Ec & Gc & Sc).
      exists (orient a), (orient b), (orient c), d2, d0.
      rewrite Ea. cbn [bind on_volume]. rewrite Eb, Ec. cbn [bind].
      repeat (split; [assumption || reflexivity |]). intros _. reflexivity.
    + cbn [dim_at nth_error bind].
      pose proof (clamp_slice_range d0 (slice_idx p) P0) as Hz.
      destruct (coronal_slice_good d0 d1 d2 v1 G1 _ Hz) as (a & Ea & Ga & Sa).
      destruct (coronal_slice_good d0 d1 d2 v2 G2 _ Hz) as (b & Eb & Gb & Sb).
      destruct (coronal_slice_good d0 d1 d2 v3 G3 _ Hz) as (c & Ec & Gc & Sc).
      exists (orient a), (orient b), (orient c), d2, d1.
      rewrite Ea. cbn [bind on_volume]. rewrite Eb, Ec. cbn [bind].
      repeat (split; [assumption || reflexivity |]). intros _. reflexivity.
Qed.

Lemma bget_good (a : array2 float64) (h w i j : nat) :
  good_image a -> shape2 a = (h, w) -> (i < h)%nat -> (j < w)%nat ->
  nonneg_fin (bget a i j).
Proof.
  intros [Hw Ha] Hs Hi Hj. unfold shape2 in Hs. injection Hs as Eh Ew.
  unfold bget. apply all2_get2; try assumption.
  - destruct (Nat.eqb (nrows a) 1); lia.
  - destruct (Nat.eqb (ncols a) 1); lia.
Qed.

(** An elementwise expression over slabs of one shape. *)
Lemma broadcast3_good (f : float64 -> float64 -> float64 -> float64)
    (t1 t2 pd : array2 float64) (h w : nat) :
  good_image t1 -> good_image t2 -> good_image pd ->
  shape2 t1 = (h, w) -> shape2 t2 = (h, w) -> shape2 pd = (h, w) ->
  (forall x y z, nonneg_fin x -> nonneg_fin y -> nonneg_fin z -> nonneg_fin (f x y z)) ->
  exists img, broadcast3 f t1 t2 pd = Ok img /\ good_image img /\ shape2 img = (h, w).
Proof.
  intros G1 G2 G3 S1 S2 S3 Hf. unfold broadcast3. rewrite S1, S2, S3.
  unfold bshape, bdim. cbn [fst snd]. rewrite !Nat.eqb_refl. cbn [fst snd].
  rewrite ?Nat.eqb_refl. eexists. split; [reflexivity |].
  split; [split; [apply wf_tabulate |] |].
  - apply all2_tabulate. intros i j Hi Hj.
    apply Hf; eapply bget_good; eassumption.
  - unfold shape2. rewrite nrows_tabulate. reflexivity.
Qed.

Variable zoom : array2 float64 -> R -> R -> result (array2 float64).
Variable rotate : array2 float64 -> R -> result (array2 float64).
Variable gaussian_filter1d : array2 float64 -> R -> result (array2 float64).
Hypothesis zoom_ok : zoom_contract zoom.
Hypothesis rotate_ok : rotate_contract rotate.
Hypothesis filter_ok : filter_contract gaussian_filter1d.

(** Step 2 returns a rectangular, non-negative image for every sequence
    family when TR >= 0 and 0 <= FA <= 180. *)
Lemma sequence_signal_good (p : acquisition) (t1 t2 pd : array2 float64) (h w : nat) :
  good_image t1 -> good_image t2 -> good_image pd ->
  shape2 t1 = (h, w) -> shape2 t2 = (h, w) -> shape2 pd = (h, w) ->
  0 <= tr p -> 0 <= fa p <= 180 -> 0 < esp p ->
  exists img, sequence_signal gaussian_filter1d p t1 t2 pd = Ok img
              /\ good_image img /\ shape2 img = (h, w).
Proof.
  intros G1 G2 G3 S1 S2 S3 Htr Hfa Hesp. unfold sequence_signal.
  destruct (contains "FLAIR" (seq_type p)).
  { destruct (broadcast3_good
      (fun t1 t2 pd => MRIPhysics.inversion_recovery t1 t2 pd (tr p) (te p) (ti p) (fa p))
      t1 t2 pd h w G1 G2 G3 S1 S2 S3) as (img & E & G & S).
    - intros. apply inversion_recovery_nonneg.
    - exists img. auto. }
  destruct (contains "EPI" (seq_type p)).
  { destruct (broadcast3_good
      (fun t1 t2 pd =>
         fabs (fmul (MRIPhysics.gradient_echo t1 t2 pd (tr p) (te p) (fa p))
                    (fexp (fdiv (Fin (- esp p)) (fadd t2 (Fin 1e-5))))))
      t1 t2 pd h w G1 G2 G3 S1 S2 S3) as (img & E & G & S).
    - intros. apply epi_nonneg; try assumption. lra.
    - exists img. auto. }
  assert (Hse : exists img, spin_echo_image p t1 t2 pd = Ok img
                            /\ good_image img /\ shape2 img = (h, w)).
  { apply broadcast3_good; try assumption.
    intros. apply spin_echo_nonneg; assumption. }
  destruct Hse as (img & E & G & S).
  destruct (contains "FSE" (seq_type p)).
  - rewrite E. cbn [bind]. destruct (Rlt_dec 1 (etl p)) as [Hetl | _].
    + destruct (filter_ok img (etl p * esp p * 0.02) G) as (r & Er & Gr & Sr).
      * assert (0 < etl p * esp p) by (apply Rmult_lt_0_compat; lra). lra.
      * exists r. split; [exact Er | split; [exact Gr |]]. rewrite Sr. exact S.
    + exists img. auto.
  - exists img. auto.
Qed.

(** Steps 4 and 5, after the zoom. *)
Lemma resample_tail (p : acquisition) (is_mpr : bool) (r1 : array2 float64) :
  good_image r1 -> (0 < matrix_size p)%Z ->
  exists r,
    (img_res <- (if Req_dec_T (rotation p) 0 then Ok r1 else rotate r1 (rotation p)) ;;
     Ok (if is_mpr then rot90 NaN (crop_or_pad (Fin 0) img_res (matrix_size p))
         else crop_or_pad (Fin 0) img_res (matrix_size p))) = Ok r
    /\ good_image r
    /\ Z.of_nat (nrows r) = matrix_size p
    /\ Z.of_nat (ncols r) = matrix_size p.
Proof.
  intros G1 HM.
  assert (Hr : exists r2, (if Req_dec_T (rotation p) 0 then Ok r1
                           else rotate r1 (rotation p)) = Ok r2 /\ good_image r2).
  { destruct (Req_dec_T (rotation p) 0); [exists r1; split; [reflexivity | exact G1] |].
    apply rotate_ok. exact G1. }
  destruct Hr as (r2 & E2 & [W2 A2]). rewrite E2. cbn [bind].
  assert (H0 : nonneg_fin (Fin 0)) by (cbn; lra).
  destruct (crop_or_pad_keeps nonneg_fin (Fin 0) r2 (matrix_size p) H0 W2 A2) as [W3 A3].
  destruct (crop_or_pad_shape (Fin 0) r2 (matrix_size p)) as [Sh Sw]; [lia |].
  eexists. split; [reflexivity |]. destruct is_mpr.
  - destruct (rot90_keeps nonneg_fin NaN _ W3 A3) as (W4 & A4 & S4).
    pose proof (f_equal fst S4) as Er. pose proof (f_equal snd S4) as Ec.
    unfold shape2 in Er, Ec. cbn [fst snd] in Er, Ec.
    split; [split; assumption |]. rewrite Er, Ec. split; assumption.
  - split; [split; assumption |]. split; assumption.
Qed.

Lemma target_positive (x fov_mm : R) (n : nat) :
  0 < fov_mm -> fov_mm <= x -> (0 < n)%nat ->
  0 < IZR (py_int (x * / fov_mm)) / INR n.
Proof.
  intros Hf Hx Hn. apply div_pos; [| apply lt_0_INR; exact Hn]. apply IZR_lt.
  assert (H : (1 <= py_int (x * / fov_mm))%Z); [| lia].
  apply py_int_ge_one. apply Rmult_le_reg_r with fov_mm; [exact Hf |].
  rewrite Rmult_assoc, Rinv_l by lra. lra.
Qed.

Lemma float_of_int_small (z : Z) :
  Rabs (IZR z) <= IZR (2 ^ 1000) -> float_of_int z = Ok (Fin (IZR z)).
Proof. intros H. unfold float_of_int. rewrite overflow_small by exact H. reflexivity. Qed.

Lemma py_add_fin (a b : R) :
  Rabs (a + b) <= IZR (2 ^ 1000) -> py_add (Fin a) (Fin b) = Fin (a + b).
Proof. intros H. unfold py_add. cbn [fadd overflowing]. apply overflow_small, H. Qed.

Lemma py_mul_fin (a b : R) :
  Rabs (a * b) <= IZR (2 ^ 1000) -> py_mul (Fin a) (Fin b) = Fin (a * b).
Proof. intros H. unfold py_mul. cbn [fmul overflowing]. apply overflow_small, H. Qed.

Lemma py_div_fin (a b : R) :
  b <> 0 -> Rabs (a / b) <= IZR (2 ^ 1000) -> py_div (Fin a) (Fin b) = Ok (Fin (a / b)).
Proof.
  intros Hb H. unfold py_div.
  destruct (Req_dec_T b 0) as [E | _]; [contradiction |].
  rewrite fdiv_fin by exact Hb. cbn [overflowing]. rewrite overflow_small by exact H.
  reflexivity.
Qed.

(** With the sizes in range the target sizes are the truncated products and
    no conversion raises. *)
Lemma resample_in_range (p : acquisition) (is_mpr : bool) (img : array2 float64) :
  fov p <> 0 -> sizes_in_range p is_mpr (nrows img) ->
  resample zoom rotate p is_mpr img =
    (let pixels_per_mm := IZR (matrix_size p) / fov p in
     let src_phys_h :=
       if is_mpr then INR (nrows img) * (thickness p + gap p) else base_fov in
     let target_h := py_int (src_phys_h * pixels_per_mm) in
     let target_w := py_int (base_fov * pixels_per_mm) in
     img_res <-
       (if ((0 <? nrows img) && (0 <? ncols img))%nat then
          if is_mpr then
            zoom img (IZR target_h / INR (nrows img)) (IZR target_w / INR (ncols img))
          else
            let scale := IZR target_w / INR (ncols img) in
            zoom img scale scale
        else Ok img) ;;
     img_res <-
       (if Req_dec_T (rotation p) 0 then Ok img_res
        else rotate img_res (rotation p)) ;;
     let final_img := crop_or_pad (Fin 0) img_res (matrix_size p) in
     Ok (if is_mpr then rot90 NaN final_img else final_img)).
Proof.
  intros Hfov (HM & Hppm & Hw & Hmpr). unfold resample.
  rewrite float_of_int_small by exact HM. cbn [bind].
  rewrite py_div_fin by assumption. cbn [bind]. cbv zeta.
  rewrite (py_mul_fin base_fov) by exact Hw.
  destruct is_mpr.
  - destruct (Hmpr eq_refl) as (Hs & Hh & Hhp).
    rewrite py_add_fin by exact Hs. rewrite py_mul_fin by exact Hh.
    rewrite py_mul_fin by exact Hhp. reflexivity.
  - rewrite (py_mul_fin base_fov) by exact Hw. reflexivity.
Qed.

(** Steps 3 to 5 on a non-empty image: the result is [M] by [M]. *)
Lemma resample_good (p : acquisition) (is_mpr : bool) (img : array2 float64) :
  good_image img -> (0 < nrows img)%nat -> (0 < ncols img)%nat ->
  (0 < matrix_size p)%Z ->
  0 < fov p <= base_fov * IZR (matrix_size p) ->
  (is_mpr = true ->
   fov p <= INR (nrows img) * (thickness p + gap p) * IZR (matrix_size p)) ->
  sizes_in_range p is_mpr (nrows img) ->
  exists r, resample zoom rotate p is_mpr img = Ok r
            /\ good_image r
            /\ Z.of_nat (nrows r) = matrix_size p
            /\ Z.of_nat (ncols r) = matrix_size p.
Proof.
  intros G Hh Hw HM [Hfov Hfov'] Hmpr Hrange.
  rewrite resample_in_range by (assumption || lra). cbv zeta.
  assert (Hguard : ((0 <? nrows img) && (0 <? ncols img))%nat = true).
  { apply andb_true_intro. split; apply Nat.ltb_lt; assumption. }
  rewrite Hguard.
  assert (Htw : 0 < IZR (py_int (base_fov * (IZR (matrix_size p) / fov p)))
                    / INR (ncols img)).
  { replace (base_fov * (IZR (matrix_size p) / fov p))
      with (base_fov * IZR (matrix_size p) * / fov p) by (unfold Rdiv; ring).
    apply target_positive; assumption. }
  destruct is_mpr.
  - assert (Hth : 0 < IZR (py_int (INR (nrows img) * (thickness p + gap p)
                                   * (IZR (matrix_size p) / fov p)))
                      / INR (nrows img)).
    { replace (INR (nrows img) * (thickness p + gap p) * (IZR (matrix_size p) / fov p))
        with (INR (nrows img) * (thickness p + gap p) * IZR (matrix_size p) * / fov p)
        by (unfold Rdiv; ring).
      apply target_positive; auto. }
    destruct (zoom_ok img _ _ G Hth Htw) as (r1 & E1 & G1). rewrite E1. cbn [bind].
    apply (resample_tail p true r1 G1 HM).
  - destruct (zoom_ok img _ _ G Htw Htw) as (r1 & E1 & G1). rewrite E1. cbn [bind].
    apply (resample_tail p false r1 G1 HM).
Qed.

Lemma fft2_good (img : array2 float64) :
  (0 < nrows img)%nat -> (0 < ncols img)%nat ->
  exists k, fft2 img = Ok k /\ shape2 k = shape2 img.
Proof.
  intros Hh Hw. unfold fft2.
  destruct (Nat.eqb_spec (nrows img) 0); [lia |].
  destruct (Nat.eqb_spec (ncols img) 0); [lia |].
  cbn [orb]. eexists. split; [reflexivity |].
  unfold shape2. rewrite nrows_tabulate. reflexivity.
Qed.

End RenderStages.

(* ------------------------------------------------------------------ *)
(** ** calculate_image *)

Section Render.

Variable zoom : array2 float64 -> R -> R -> result (array2 float64).
Variable rotate : array2 float64 -> R -> result (array2 float64).
Variable gaussian_filter1d : array2 float64 -> R -> result (array2 float64).

Lemma rot90_shape {A : Type} (d : A) (a : array2 A) :
  nrows (rot90 d a) = ncols a /\ ncols (rot90 d a) = nrows a.
Proof.
  unfold rot90, transpose. rewrite nrows_tabulate. cbn [ncols tabulate fliplr].
  split; [reflexivity |]. unfold nrows, fliplr. cbn [rows]. apply length_map.
Qed.

(** Whatever the scipy routines do, an image that [resample] returns is
    [matrix_size] by [matrix_size]. *)
Lemma resample_shape (p : acquisition) (is_mpr : bool) (img r : array2 float64) :
  (0 <= matrix_size p)%Z ->
  resample zoom rotate p is_mpr img = Ok r ->
  Z.of_nat (nrows r) = matrix_size p /\ Z.of_nat (ncols r) = matrix_size p.
Proof.
  intros HM. unfold resample.
  destruct (float_of_int (matrix_size p)) as [m |]; [| discriminate]. cbn [bind].
  destruct (py_div m (Fin (fov p))) as [ppm |]; [| discriminate]. cbn [bind]. cbv zeta.
  match goal with |- bind ?z _ = _ -> _ => destruct z as [th |] end; [| discriminate].
  cbn [bind].
  match goal with |- bind ?z _ = _ -> _ => destruct z as [tw |] end; [| discriminate].
  cbn [bind].
  match goal with |- bind ?z _ = _ -> _ => destruct z as [r1 |] end; [| discriminate].
  cbn [bind].
  match goal with |- bind ?z _ = _ -> _ => destruct z as [r2 |] end; [| discriminate].
  cbn [bind]. intros E. injection E as <-.
  destruct (crop_or_pad_shape (Fin 0) r2 (matrix_size p) HM) as [Sh Sw].
  destruct is_mpr; [| split; assumption].
  destruct (rot90_shape NaN (crop_or_pad (Fin 0) r2 (matrix_size p))) as [Er Ec].
  rewrite Er, Ec. split; assumption.
Qed.


(** The pipeline on a store of well-formed volumes, from its stages. *)
Lemma render_good_store
    (self : MRISimulatorModel) (p : acquisition)
    (d0 d1 d2 : nat) (v1 v2 v3 : ndarray) :
  zoom_contract zoom -> rotate_contract rotate -> filter_contract gaussian_filter1d ->
  t1_vol self = Some v1 -> t2_vol self = Some v2 -> pd_vol self = Some v3 ->
  good_volume d0 d1 d2 v1 -> good_volume d0 d1 d2 v2 -> good_volume d0 d1 d2 v3 ->
  (0 < d0)%nat -> (0 < d1)%nat -> (0 < d2)%nat ->
  (0 < matrix_size p)%Z ->
  0 < fov p <= base_fov * IZR (matrix_size p) ->
  (view_plane p <> "axial"%string ->
   fov p <= INR d2 * (thickness p + gap p) * IZR (matrix_size p)) ->
  sizes_in_range p (negb (String.eqb (view_plane p) "axial")) d2 ->
  0 <= tr p -> 0 <= fa p <= 180 -> 0 < esp p ->
  exists (img : array2 float64) (k : array2 complex),
    calculate_image zoom rotate gaussian_filter1d self p
      = (set_k_space (set_current_image self img) (fftshift k), Ok (Some img))
    /\ Z.of_nat (nrows img) = matrix_size p
    /\ Z.of_nat (ncols img) = matrix_size p
    /\ good_image img
    /\ fft2 img = Ok k
    /\ shape2 (fftshift k) = shape2 img.
Proof.
  intros zoom_ok rotate_ok filter_ok E1 E2 E3 G1 G2 G3 P0 P1 P2 HM Hfov Hmpr Hrange
    Htr Hfa Hesp.
  unfold calculate_image, form_image. rewrite E1, E2, E3.
  destruct (reslice_good d0 d1 d2 v1 v2 v3 p G1 G2 G3 P0 P1 P2)
    as (a & b & c & h & w & Er & Ga & Gb & Gc & Sa & Sb & Sc & Hh & Hw & Hd2).
  rewrite Er. cbn [bind].
  destruct (sequence_signal_good gaussian_filter1d filter_ok p a b c h w
              Ga Gb Gc Sa Sb Sc Htr Hfa Hesp) as (s & Es & Gs & Ss).
  rewrite Es. cbn [bind].
  pose proof (f_equal fst Ss) as Sr. pose proof (f_equal snd Ss) as Sk.
  unfold shape2 in Sr, Sk. cbn [fst snd] in Sr, Sk.
  destruct (resample_good zoom rotate zoom_ok rotate_ok p
              (negb (String.eqb (view_plane p) "axial")) s Gs) as (r & Erz & Gr & Rh & Rw).
  - lia.
  - lia.
  - exact HM.
  - exact Hfov.
  - intros Hm. rewrite Sr.
    destruct (String.eqb_spec (view_plane p) "axial") as [Eax | Nax]; [discriminate |].
    rewrite (Hd2 Nax). apply Hmpr. exact Nax.
  - rewrite Sr.
    destruct (String.eqb_spec (view_plane p) "axial") as [Eax | Nax]; cbn [negb] in *.
    + destruct Hrange as (R1 & R2 & R3 & _).
      split; [exact R1 | split; [exact R2 | split; [exact R3 | discriminate]]].
    + rewrite (Hd2 Nax). exact Hrange.
  - rewrite Erz.
    destruct (fft2_good r) as (k & Ek & Sk'); [lia | lia |].
    rewrite Ek. exists r, k.
    split; [reflexivity | split; [exact Rh | split; [exact Rw | split; [exact Gr |]]]].
    split; [exact Ek |]. rewrite fftshift_shape. exact Sk'.
Qed.

Hypothesis zoom_ok : zoom_contract zoom.
Hypothesis rotate_ok : rotate_contract rotate.
Hypothesis filter_ok : filter_contract gaussian_filter1d.


End Render.

(* ------------------------------------------------------------------ *)
(** ** Closed instances of the pipeline *)

Section RenderExamples.

Lemma same_zoom_contract : zoom_contract same_zoom.
Proof. intros img zh zw G _ _. exists img. split; [reflexivity | exact G]. Qed.

Lemma same_rotate_contract : rotate_contract same_rotate.
Proof. intros img angle G. exists img. split; [reflexivity | exact G]. Qed.

Lemma same_filter_contract : filter_contract same_filter.
Proof.
  intros img sigma G _. exists img. split; [reflexivity | split; [exact G | reflexivity]].
Qed.

Lemma one_voxel_good (x : R) : 0 <= x -> good_volume 1 1 1 (one_voxel x).
Proof.
  intros Hx. split; [reflexivity | split; [reflexivity | split; [| reflexivity]]].
  constructor; [exact Hx | constructor].
Qed.

(** Magnitudes up to a million are far inside the range. *)
Lemma below_range (x : R) : -1000000 <= x <= 1000000 -> Rabs x <= IZR (2 ^ 1000).
Proof.
  intros H. assert (Hb : 1000000 <= IZR (2 ^ 1000)) by (apply IZR_le; discriminate).
  apply Rabs_le. lra.
Qed.









End RenderExamples.

(* ================================================================== *)
(** * Further properties of the core and its callers *)

(* ------------------------------------------------------------------ *)
(** ** The patient and history lists *)

Section Managers.

Context {A : Type}.

Lemma delete_at_cons (x : A) (i : nat) (l : list A) :
  delete_at (S i) (x :: l) = x :: delete_at i l.
Proof. reflexivity. Qed.

Lemma length_delete_at (i : nat) (l : list A) :
  (i < length l)%nat -> length (delete_at i l) = (length l - 1)%nat.
Proof.
  intros Hi. unfold delete_at. rewrite length_app, length_firstn, length_skipn. lia.
Qed.

Lemma nth_error_delete_at (i j : nat) (l : list A) :
  (i < length l)%nat ->
  nth_error (delete_at i l) j
    = if (j <? i)%nat then nth_error l j else nth_error l (S j).
Proof.
  intros Hi. unfold delete_at. rewrite nth_error_app, length_firstn.
  replace (Nat.min i (length l)) with i by lia.
  destruct (Nat.ltb_spec j i) as [Hj | Hj].
  - rewrite nth_error_firstn.
    destruct (Nat.ltb_spec j i); [reflexivity | lia].
  - rewrite nth_error_skipn. f_equal. lia.
Qed.

Lemma delete_at_last (l : list A) (x : A) : delete_at (length l) (l ++ [x]) = l.
Proof.
  unfold delete_at. rewrite firstn_app, Nat.sub_diag, firstn_all. cbn [firstn].
  rewrite app_nil_r. rewrite skipn_all2 by (rewrite length_app; cbn; lia).
  apply app_nil_r.
Qed.

(** X1.  [delete_patient] and [delete_record] remove exactly the entry at a
    valid position and nothing else: the list gets one shorter, entries
    before the position stay where they are and later ones move up by one.
    Any other position, negative ones included (they do not count from the
    end), leaves the list untouched. *)
Theorem delete_by_index (data : list A) (idx : Z) (j : nat) :
  HistoryManager.delete_record data idx = PatientManager.delete_patient data idx
  /\ nth_error (PatientManager.delete_patient data idx) j
     = (if ((0 <=? idx) && (idx <? Z.of_nat (length data)))%Z
        then if (Z.of_nat j <? idx)%Z then nth_error data j else nth_error data (S j)
        else nth_error data j)
  /\ length (PatientManager.delete_patient data idx)
     = (if ((0 <=? idx) && (idx <? Z.of_nat (length data)))%Z
        then (length data - 1)%nat else length data).
Proof.
  split; [reflexivity |]. unfold PatientManager.delete_patient.
  destruct (Z.leb_spec 0 idx) as [H0 | H0]; cbn [andb]; [| split; reflexivity].
  destruct (Z.ltb_spec idx (Z.of_nat (length data))) as [H1 | H1];
    [| split; reflexivity].
  split.
  - rewrite nth_error_delete_at by lia.
    destruct (Nat.ltb_spec j (Z.to_nat idx)), (Z.ltb_spec (Z.of_nat j) idx);
      try reflexivity; lia.
  - apply length_delete_at. lia.
Qed.

(** X2.  Registration appends and snapshots prepend: a new patient sits at
    the end of the list and a new history record at position 0, with every
    earlier record one position further down.  Deleting the entry just added
    (the last patient, or history record 0) gives back the list as it was. *)
Theorem add_then_delete (data : list A) (x : A) (j : nat) :
  PatientManager.delete_patient (PatientManager.add_patient data x)
      (Z.of_nat (length data)) = data
  /\ HistoryManager.delete_record (HistoryManager.add_record data x) 0 = data
  /\ nth_error (PatientManager.add_patient data x) (length data) = Some x
  /\ ((j < length data)%nat ->
      nth_error (PatientManager.add_patient data x) j = nth_error data j)
  /\ nth_error (HistoryManager.add_record data x) 0 = Some x
  /\ nth_error (HistoryManager.add_record data x) (S j) = nth_error data j.
Proof.
  split; [| split; [| split; [| split; [| split]]]].
  - unfold PatientManager.delete_patient, PatientManager.add_patient.
    rewrite length_app. cbn [length].
    destruct (Z.leb_spec 0 (Z.of_nat (length data))); [| lia].
    destruct (Z.ltb_spec (Z.of_nat (length data)) (Z.of_nat (length data + 1))); [| lia].
    cbn [andb]. rewrite Nat2Z.id. apply delete_at_last.
  - reflexivity.
  - unfold PatientManager.add_patient. rewrite nth_error_app2 by lia.
    rewrite Nat.sub_diag. reflexivity.
  - intros Hj. unfold PatientManager.add_patient. apply nth_error_app1. exact Hj.
  - reflexivity.
  - reflexivity.
Qed.

End Managers.

Lemma add_then_delete_example :
  PatientManager.delete_patient (PatientManager.add_patient [7; 8]%Z 9%Z) 2 = [7; 8]%Z
  /\ HistoryManager.delete_record (HistoryManager.add_record [7; 8]%Z 9%Z) 0 = [7; 8]%Z
  /\ nth_error (PatientManager.add_patient [7; 8]%Z 9%Z) 2 = Some 9%Z
  /\ ((1 < 2)%nat ->
      nth_error (PatientManager.add_patient [7; 8]%Z 9%Z) 1 = nth_error [7; 8]%Z 1)
  /\ nth_error (HistoryManager.add_record [7; 8]%Z 9%Z) 0 = Some 9%Z
  /\ nth_error (HistoryManager.add_record [7; 8]%Z 9%Z) 2 = nth_error [7; 8]%Z 1.
Proof. exact (add_then_delete [7; 8]%Z 9%Z 1). Defined.

Example delete_negative_index :
  PatientManager.delete_patient [7; 8; 9]%Z (-1) = [7; 8; 9]%Z.
Proof. reflexivity. Qed.

Example delete_middle :
  PatientManager.delete_patient [7; 8; 9]%Z 1 = [7; 9]%Z.
Proof. reflexivity. Qed.

(* ------------------------------------------------------------------ *)
(** ** The history table of the window *)

Section HistoryTable.

Context {P : Type}.

Lemma table_records (keep : history_record P -> bool) (l : list (history_record P))
    (s : nat) :
  map snd (filter (fun row => keep (snd row)) (combine (seq s (length l)) l))
    = filter keep l.
Proof.
  revert s. induction l as [| x l IH]; intros s; [reflexivity |].
  cbn [length seq combine filter snd]. destruct (keep x); cbn [map snd]; rewrite IH;
    reflexivity.
Qed.

Lemma table_row (keep : history_record P -> bool) (l : list (history_record P))
    (s r idx : nat) (h : history_record P) :
  nth_error (filter (fun row => keep (snd row)) (combine (seq s (length l)) l)) r
    = Some (idx, h) ->
  (s <= idx)%nat /\ nth_error l (idx - s) = Some h /\ keep h = true
  /\ filter keep (delete_at (idx - s) l) = delete_at r (filter keep l).
Proof.
  revert s r. induction l as [| x l IH]; intros s r Hr.
  - destruct r; discriminate.
  - cbn [length seq combine filter snd] in Hr |- *.
    destruct (keep x) eqn:Kx.
    + destruct r as [| r].
      * cbn in Hr. injection Hr as <- <-. rewrite Nat.sub_diag.
        repeat split; try assumption; try lia.
      * cbn [nth_error] in Hr. destruct (IH (S s) r Hr) as (Hs & Hn & Hk & Hf).
        replace (idx - s)%nat with (S (idx - S s)) by lia.
        repeat split; try assumption; try lia.
        rewrite !delete_at_cons. cbn [filter]. rewrite Kx, Hf. reflexivity.
    + destruct (IH (S s) r Hr) as (Hs & Hn & Hk & Hf).
      replace (idx - s)%nat with (S (idx - S s)) by lia.
      repeat split; try assumption; try lia.
      rewrite delete_at_cons. cbn [filter]. rewrite Kx. exact Hf.
Qed.

(** X3.  In the history table, filtered by patient or not, every row stores
    the position of the record it displays, and the rows list exactly the
    records that pass the filter, in list order.  Deleting the current row
    deletes that record and no other: the rebuilt table is the old one
    without that row. *)
Theorem history_row_deletes_its_record
    (filter_id : option string) (data : list (history_record P)) (r : Z) :
  (0 <= r < Z.of_nat (length (load_history_table filter_id data)))%Z ->
  exists (idx : nat) (h : history_record P),
    nth_error (load_history_table filter_id data) (Z.to_nat r) = Some (idx, h)
    /\ nth_error data idx = Some h
    /\ shown filter_id h = true
    /\ handle_delete_history filter_id data r = Some (delete_at idx data)
    /\ map snd (load_history_table filter_id (delete_at idx data))
       = delete_at (Z.to_nat r) (map snd (load_history_table filter_id data))
    /\ map snd (load_history_table filter_id data) = filter (shown filter_id) data.
Proof.
  intros Hr.
  destruct (nth_error (load_history_table filter_id data) (Z.to_nat r))
    as [[idx h] |] eqn:E.
  2: { apply nth_error_None in E. lia. }
  exists idx, h. unfold load_history_table in E.
  destruct (table_row (shown filter_id) data 0 (Z.to_nat r) idx h E)
    as (_ & Hn & Hk & Hf).
  rewrite Nat.sub_0_r in Hn, Hf.
  assert (Hidx : (idx < length data)%nat) by (apply nth_error_Some; congruence).
  split; [reflexivity | split; [exact Hn | split; [exact Hk | split; [| split]]]].
  - unfold handle_delete_history. destruct (Z.leb_spec 0 r); [| lia].
    unfold load_history_table. rewrite E. unfold HistoryManager.delete_record.
    destruct (Z.leb_spec 0 (Z.of_nat idx)); [| lia].
    destruct (Z.ltb_spec (Z.of_nat idx) (Z.of_nat (length data))); [| lia].
    cbn [andb]. rewrite Nat2Z.id. reflexivity.
  - unfold load_history_table. rewrite !table_records. exact Hf.
  - unfold load_history_table. apply table_records.
Qed.

End HistoryTable.

Lemma history_row_deletes_its_record_example :
  exists (idx : nat) (h : history_record unit),
    nth_error (load_history_table (Some "P2"%string) sample_history) (Z.to_nat 1)
      = Some (idx, h)
    /\ nth_error sample_history idx = Some h
    /\ shown (Some "P2"%string) h = true
    /\ handle_delete_history (Some "P2"%string) sample_history 1
       = Some (delete_at idx sample_history)
    /\ map snd (load_history_table (Some "P2"%string) (delete_at idx sample_history))
       = delete_at (Z.to_nat 1)
           (map snd (load_history_table (Some "P2"%string) sample_history))
    /\ map snd (load_history_table (Some "P2"%string) sample_history)
       = filter (shown (Some "P2"%string)) sample_history.
Proof.
  apply (history_row_deletes_its_record (Some "P2"%string) sample_history 1).
  cbn. lia.
Defined.

Example filtered_rows_keep_positions :
  map fst (load_history_table (Some "P2"%string) sample_history) = [0; 2]%nat.
Proof. reflexivity. Qed.

(* ------------------------------------------------------------------ *)
(** ** The synthetic phantom *)

Section Phantom.

Lemma nth_flat_map_blocks {B C : Type} (f : B -> list C) (l : list B) (k i j : nat)
    (db : B) (d : C) :
  (forall x, length (f x) = k) -> (i < length l)%nat -> (j < k)%nat ->
  nth (i * k + j) (flat_map f l) d = nth j (f (nth i l db)) d.
Proof.
  intros Hk. revert i. induction l as [| x l IH]; intros i Hi Hj; [cbn in Hi; lia |].
  cbn [flat_map]. destruct i as [| i].
  - cbn [Nat.mul Nat.add nth]. apply app_nth1. rewrite Hk. exact Hj.
  - rewrite app_nth2 by (rewrite Hk; cbn; lia). rewrite Hk.
    replace (S i * k + j - k)%nat with (i * k + j)%nat by (cbn; lia).
    cbn [nth]. apply IH; [cbn in Hi; lia | exact Hj].
Qed.

Lemma nth_map_seq {C : Type} (g : nat -> C) (n z : nat) (d : C) :
  (z < n)%nat -> nth z (map g (seq 0 n)) d = g z.
Proof.
  intros Hz. rewrite (nth_indep _ d (g 0%nat)) by (rewrite length_map, length_seq; exact Hz).
  rewrite map_nth, seq_nth by exact Hz. reflexivity.
Qed.

Lemma phantom_row_length (d0 d1 d2 : nat) (pick : R * R * R -> R) (i j : nat) :
  length (map (fun z => Fin (pick (phantom_voxel d0 d1 d2 i j z))) (seq 0 d2)) = d2.
Proof. rewrite length_map, length_seq. reflexivity. Qed.

Lemma phantom_plane_length (d0 d1 d2 : nat) (pick : R * R * R -> R) (i : nat) :
  length (flat_map (fun j =>
            map (fun z => Fin (pick (phantom_voxel d0 d1 d2 i j z))) (seq 0 d2))
          (seq 0 d1)) = (d1 * d2)%nat.
Proof.
  rewrite (flat_map_constant_length (c := d2)), length_seq; [reflexivity |].
  intros j _. apply phantom_row_length.
Qed.

Lemma phantom_data_length (d0 d1 d2 : nat) (pick : R * R * R -> R) :
  length (data (phantom_map d0 d1 d2 pick)) = (d0 * d1 * d2)%nat.
Proof.
  unfold phantom_map. cbn [data].
  rewrite (flat_map_constant_length (c := (d1 * d2)%nat)), length_seq; [lia |].
  intros i _. apply phantom_plane_length.
Qed.

(** The buffer layout: entry [(i, j, z)] of a generated map is the value the
    generator computes for that voxel. *)
Lemma phantom_entry (d0 d1 d2 : nat) (pick : R * R * R -> R) (i j z : nat) :
  (i < d0)%nat -> (j < d1)%nat -> (z < d2)%nat ->
  vget (phantom_map d0 d1 d2 pick) d1 d2 i j z
    = Fin (pick (phantom_voxel d0 d1 d2 i j z)).
Proof.
  intros Hi Hj Hz. unfold vget, phantom_map. cbn [data].
  replace ((i * d1 + j) * d2 + z)%nat with (i * (d1 * d2) + (j * d2 + z))%nat by lia.
  assert (Hjz : (j * d2 + z < d1 * d2)%nat).
  { assert (H : ((j + 1) * d2 <= d1 * d2)%nat) by (apply Nat.mul_le_mono_r; lia). lia. }
  rewrite (nth_flat_map_blocks _ _ (d1 * d2) i (j * d2 + z) 0%nat);
    [| intros x; apply phantom_plane_length | rewrite length_seq; exact Hi | exact Hjz].
  rewrite seq_nth by exact Hi. cbn [Nat.add].
  rewrite (nth_flat_map_blocks _ _ d2 j z 0%nat);
    [| intros x; apply phantom_row_length | rewrite length_seq; exact Hj | exact Hz].
  rewrite seq_nth by exact Hj. cbn [Nat.add].
  apply (nth_map_seq (fun z0 => Fin (pick (phantom_voxel d0 d1 d2 i j z0)))). exact Hz.
Qed.

(** The generator writes one of four tissue triples at every voxel. *)
Lemma phantom_voxel_values (d0 d1 d2 i j z : nat) :
  phantom_voxel d0 d1 d2 i j z = (0, 0, 0)
  \/ phantom_voxel d0 d1 d2 i j z = (600, 70, 0.70)
  \/ phantom_voxel d0 d1 d2 i j z = (950, 100, 0.85)
  \/ phantom_voxel d0 d1 d2 i j z = (3000, 2000, 1).
Proof.
  unfold phantom_voxel. cbv zeta.
  match goal with |- context [if (?m && ?b)%bool then (3000, 2000, 1) else _] =>
    destruct (m && b)%bool end; [auto |].
  match goal with |- context [if (?b && ?g)%bool then (950, 100, 0.85) else _] =>
    destruct b; cbn [andb]; [destruct g |] end; auto.
Qed.

Lemma phantom_map_good (d0 d1 d2 : nat) (pick : R * R * R -> R) :
  (Z.of_nat (d0 * d1 * d2) < 2 ^ 63)%Z ->
  (forall i j z, 0 <= pick (phantom_voxel d0 d1 d2 i j z)) ->
  good_volume d0 d1 d2 (phantom_map d0 d1 d2 pick).
Proof.
  intros Hsize Hp.
  split; [reflexivity | split; [apply phantom_data_length | split]].
  - unfold phantom_map. cbn [data].
    apply Forall_flat_map. apply Forall_forall. intros i _.
    apply Forall_flat_map. apply Forall_forall. intros j _.
    apply Forall_map. apply Forall_forall. intros z _. cbn. apply Hp.
  - rewrite phantom_data_length. exact Hsize.
Qed.

Lemma phantom_picks_nonneg (d0 d1 d2 i j z : nat) :
  0 <= fst (fst (phantom_voxel d0 d1 d2 i j z))
  /\ 0 <= snd (fst (phantom_voxel d0 d1 d2 i j z))
  /\ 0 <= snd (phantom_voxel d0 d1 d2 i j z).
Proof.
  destruct (phantom_voxel_values d0 d1 d2 i j z) as [E | [E | [E | E]]];
    rewrite E; cbn [fst snd]; repeat split; lra.
Qed.

(** The three generated maps are well-formed volumes of the requested shape
    with finite, non-negative entries. *)
Lemma phantom_good (d0 d1 d2 : nat) :
  (Z.of_nat (d0 * d1 * d2) < 2 ^ 63)%Z ->
  let '(t1, t2, pd) := generate_synthetic_phantom (d0, d1, d2) in
  good_volume d0 d1 d2 t1 /\ good_volume d0 d1 d2 t2 /\ good_volume d0 d1 d2 pd.
Proof.
  intros Hsize. cbn [generate_synthetic_phantom].
  split; [| split]; apply (phantom_map_good d0 d1 d2); try exact Hsize;
    intros i j z; apply (phantom_picks_nonneg d0 d1 d2 i j z).
Qed.

Lemma default_phantom_size : (Z.of_nat (128 * 128 * 20) < 2 ^ 63)%Z.
Proof. reflexivity. Qed.

(** X4.  For every requested shape, the three maps of the generated phantom
    have that shape with one entry per voxel, and every voxel carries one of
    four tissue triples (T1, T2, PD): background (0, 0, 0), white matter
    (600, 70, 0.70), gray matter (950, 100, 0.85) or ventricle
    (3000, 2000, 1.0).  In particular the three maps vanish on the same
    voxels. *)
Theorem phantom_tissue_triples (d0 d1 d2 i j z : nat) :
  (i < d0)%nat -> (j < d1)%nat -> (z < d2)%nat ->
  let '(t1, t2, pd) := generate_synthetic_phantom (d0, d1, d2) in
  shape t1 = [d0; d1; d2] /\ shape t2 = [d0; d1; d2] /\ shape pd = [d0; d1; d2]
  /\ length (data t1) = (d0 * d1 * d2)%nat
  /\ length (data t2) = (d0 * d1 * d2)%nat
  /\ length (data pd) = (d0 * d1 * d2)%nat
  /\ exists a b c : R,
       vget t1 d1 d2 i j z = Fin a /\ vget t2 d1 d2 i j z = Fin b
       /\ vget pd d1 d2 i j z = Fin c
       /\ ((a, b, c) = (0, 0, 0) \/ (a, b, c) = (600, 70, 0.70)
           \/ (a, b, c) = (950, 100, 0.85) \/ (a, b, c) = (3000, 2000, 1)).
Proof.
  intros Hi Hj Hz. cbn [generate_synthetic_phantom].
  split; [reflexivity | split; [reflexivity | split; [reflexivity |]]].
  split; [apply phantom_data_length | split; [apply phantom_data_length |]].
  split; [apply phantom_data_length |].
  rewrite !phantom_entry by assumption.
  destruct (phantom_voxel d0 d1 d2 i j z) as [[a b] c] eqn:E.
  exists a, b, c. cbn [fst snd].
  split; [reflexivity | split; [reflexivity | split; [reflexivity |]]].
  rewrite <- E. apply phantom_voxel_values.
Qed.

Lemma phantom_tissue_triples_example :
  let '(t1, t2, pd) := generate_synthetic_phantom (128, 128, 20)%nat in
  shape t1 = [128; 128; 20]%nat /\ shape t2 = [128; 128; 20]%nat
  /\ shape pd = [128; 128; 20]%nat
  /\ length (data t1) = (128 * 128 * 20)%nat
  /\ length (data t2) = (128 * 128 * 20)%nat
  /\ length (data pd) = (128 * 128 * 20)%nat
  /\ exists a b c : R,
       vget t1 128 20 64 64 10 = Fin a /\ vget t2 128 20 64 64 10 = Fin b
       /\ vget pd 128 20 64 64 10 = Fin c
       /\ ((a, b, c) = (0, 0, 0) \/ (a, b, c) = (600, 70, 0.70)
           \/ (a, b, c) = (950, 100, 0.85) \/ (a, b, c) = (3000, 2000, 1)).
Proof. apply (phantom_tissue_triples 128 128 20 64 64 10); lia. Defined.

(** X5.  The taper of the phantom floors at zero: a slice 20 or more
    positions away from the centre slice [d2 // 2] is background in all
    three maps, whatever the in-plane position. *)
Theorem phantom_far_slices_empty (d0 d1 d2 i j z : nat) :
  (i < d0)%nat -> (j < d1)%nat -> (z < d2)%nat ->
  (20 <= Z.abs (Z.of_nat z - Z.of_nat d2 / 2))%Z ->
  let '(t1, t2, pd) := generate_synthetic_phantom (d0, d1, d2) in
  vget t1 d1 d2 i j z = Fin 0 /\ vget t2 d1 d2 i j z = Fin 0
  /\ vget pd d1 d2 i j z = Fin 0.
Proof.
  intros Hi Hj Hz Hfar. cbn [generate_synthetic_phantom].
  rewrite !phantom_entry by assumption.
  assert (E : phantom_voxel d0 d1 d2 i j z = (0, 0, 0)).
  { unfold phantom_voxel. cbv zeta.
    set (x := linspace d1 j). set (y := linspace d0 i).
    set (s0 := 1 - IZR (Z.abs (Z.of_nat z - Z.of_nat d2 / 2)) * 0.05).
    assert (Hs0 : s0 <= 0).
    { unfold s0. apply IZR_le in Hfar. lra. }
    assert (Hscale : (if rltb s0 0 then 0 else s0) = 0).
    { unfold rltb. destruct (Rlt_dec s0 0); [reflexivity | lra]. }
    rewrite Hscale.
    assert (Hb : rltb (x * x + y * y) (0.85 * 0) = false).
    { unfold rltb. destruct (Rlt_dec (x * x + y * y) (0.85 * 0)) as [H | _];
        [| reflexivity].
      pose proof (Rle_0_sqr x) as Hx. pose proof (Rle_0_sqr y) as Hy.
      unfold Rsqr in Hx, Hy. lra. }
    rewrite Hb. rewrite andb_false_r. reflexivity. }
  rewrite E. cbn [fst snd]. repeat split.
Qed.

Lemma phantom_far_slices_empty_example :
  let '(t1, t2, pd) := generate_synthetic_phantom (8, 8, 60)%nat in
  vget t1 8 60 3 4 5 = Fin 0 /\ vget t2 8 60 3 4 5 = Fin 0
  /\ vget pd 8 60 3 4 5 = Fin 0.
Proof. apply (phantom_far_slices_empty 8 8 60 3 4 5); cbn; lia. Defined.

End Phantom.

(* ------------------------------------------------------------------ *)
(** ** Rendering the default phantom; what a render does to the store *)

Section RenderStore.

Variable zoom : array2 float64 -> R -> R -> result (array2 float64).
Variable rotate : array2 float64 -> R -> result (array2 float64).
Variable gaussian_filter1d : array2 float64 -> R -> result (array2 float64).

(** X6.  A freshly constructed model renders for every setting the window
    offers: on the default phantom, with a matrix size of 64 to 512, a
    field of view of 100 to 400 mm, a thickness of 1 to 20, a gap of 0 to
    20, TR >= 0, a flip angle of 0 to 180 degrees and a positive echo
    spacing, and with scipy routines that meet their contracts,
    [calculate_image] returns an M by M image of finite non-negative entries
    for every plane, sequence, slice index and rotation, and caches it
    together with its centred spectrum. *)
Theorem default_phantom_renders (p : acquisition) :
  zoom_contract zoom -> rotate_contract rotate -> filter_contract gaussian_filter1d ->
  (64 <= matrix_size p <= 512)%Z ->
  100 <= fov p <= 400 -> 1 <= thickness p <= 20 -> 0 <= gap p <= 20 ->
  0 <= tr p -> 0 <= fa p <= 180 -> 0 < esp p ->
  exists (img : array2 float64) (k : array2 complex),
    calculate_image zoom rotate gaussian_filter1d init p
      = (set_k_space (set_current_image init img) (fftshift k), Ok (Some img))
    /\ Z.of_nat (nrows img) = matrix_size p
    /\ Z.of_nat (ncols img) = matrix_size p
    /\ good_image img
    /\ fft2 img = Ok k
    /\ shape2 (fftshift k) = shape2 img.
Proof.
  intros Hz Hr Hf HM Hfov Hth Hgap Htr Hfa Hesp.
  pose proof (phantom_good 128 128 20 default_phantom_size) as Hg. cbn [generate_synthetic_phantom] in Hg.
  destruct Hg as (G1 & G2 & G3).
  assert (HMr : 64 <= IZR (matrix_size p) <= 512)
    by (split; [apply (IZR_le 64) | apply (IZR_le _ 512)]; lia).
  assert (Hq : 0 <= IZR (matrix_size p) / fov p <= 6).
  { split.
    - apply Rmult_le_pos; [lra |]. apply Rlt_le, Rinv_0_lt_compat. lra.
    - apply Rmult_le_reg_r with (fov p); [lra |].
      unfold Rdiv. rewrite Rmult_assoc, Rinv_l by lra. nra. }
  assert (H20 : INR 20 = 20) by (rewrite INR_IZR_INZ; reflexivity).
  apply (render_good_store zoom rotate gaussian_filter1d init p 128 128 20 _ _ _ Hz Hr Hf
           eq_refl eq_refl eq_refl G1 G2 G3); try lia; try assumption.
  - unfold base_fov. lra.
  - intros _. rewrite H20. nra.
  - unfold sizes_in_range, base_fov. rewrite H20.
    split; [| split; [| split; [| intros _; split; [| split]]]];
      apply below_range; nra.
Qed.

Lemma volumes_set_cache (s : MRISimulatorModel) (img : array2 float64)
    (k : array2 complex) :
  volumes (set_k_space (set_current_image s img) k) = volumes s
  /\ volumes (set_current_image s img) = volumes s.
Proof. split; reflexivity. Qed.

(** X7.  A render never writes the parameter volumes.  The call returns
    [None] only when no volume is stored.  With a matrix size M >= 1, a call
    that raises leaves the whole store as it was, the cached image and
    spectrum included. *)
Theorem render_store_effects (s : MRISimulatorModel) (p : acquisition) :
  volumes (fst (calculate_image zoom rotate gaussian_filter1d s p)) = volumes s
  /\ (snd (calculate_image zoom rotate gaussian_filter1d s p) = Ok None <->
      t1_vol s = None)
  /\ ((0 < matrix_size p)%Z ->
      forall e, snd (calculate_image zoom rotate gaussian_filter1d s p) = Raise e ->
      fst (calculate_image zoom rotate gaussian_filter1d s p) = s).
Proof.
  unfold calculate_image. destruct (t1_vol s) as [t1v |] eqn:E1.
  2: { cbn. repeat split; auto. }
  destruct (form_image zoom rotate gaussian_filter1d s t1v p) as [final | e0] eqn:Ef.
  2: { cbn. repeat split; try discriminate; auto. }
  destruct (fft2 final) as [k | e1] eqn:Ek.
  - cbn [fst snd]. split; [reflexivity | split; [split; discriminate |]].
    intros _ e He. discriminate.
  - cbn [fst snd]. split; [reflexivity | split; [split; discriminate |]].
    intros HM e _. exfalso.
    assert (Hs : Z.of_nat (nrows final) = matrix_size p
                 /\ Z.of_nat (ncols final) = matrix_size p).
    { unfold form_image in Ef.
      destruct (reslice t1v (t2_vol s) (pd_vol s) p) as [[[a b] c] |]; [| discriminate].
      cbn [bind] in Ef.
      destruct (sequence_signal gaussian_filter1d p a b c) as [sg |]; [| discriminate].
      cbn [bind] in Ef. eapply resample_shape; [| exact Ef]. lia. }
    destruct Hs as [Sh Sw].
    destruct (fft2_good final) as (k & Ek' & _); [lia | lia |]. congruence.
Qed.

End RenderStore.

Lemma default_phantom_renders_example :
  exists (img : array2 float64) (k : array2 complex),
    calculate_image same_zoom same_rotate same_filter init t2_weighted
      = (set_k_space (set_current_image init img) (fftshift k), Ok (Some img))
    /\ Z.of_nat (nrows img) = matrix_size t2_weighted
    /\ Z.of_nat (ncols img) = matrix_size t2_weighted
    /\ good_image img
    /\ fft2 img = Ok k
    /\ shape2 (fftshift k) = shape2 img.
Proof.
  apply (default_phantom_renders same_zoom same_rotate same_filter t2_weighted
           same_zoom_contract same_rotate_contract same_filter_contract);
    cbn; try lia; lra.
Defined.

(* ------------------------------------------------------------------ *)
(** ** Invariants of a session *)

Section SessionInvariants.

Variable zoom : array2 float64 -> R -> R -> result (array2 float64).
Variable rotate : array2 float64 -> R -> result (array2 float64).
Variable gaussian_filter1d : array2 float64 -> R -> result (array2 float64).

Lemma fully_loaded_fields (s : MRISimulatorModel) :
  fully_loaded (volumes s) <->
  holds_array (t1_vol s) /\ holds_array (t2_vol s) /\ holds_array (pd_vol s).
Proof.
  unfold fully_loaded, volumes, holds_array. split.
  - intros (a1 & a2 & a3 & E). injection E as E1 E2 E3. eauto 10.
  - intros ((a1 & E1) & (a2 & E2) & (a3 & E3)). exists a1, a2, a3. congruence.
Qed.

Ltac arrays_held :=
  cbn; unfold holds_array;
  repeat match goal with
         | |- _ /\ _ => split
         | |- exists _, _ => eexists
         end;
  first [reflexivity | eassumption].

Lemma load_vobj_keeps_arrays (s : MRISimulatorModel) (vobj : matvalue) :
  holds_array (t1_vol s) -> holds_array (t2_vol s) -> holds_array (pd_vol s) ->
  holds_array (t1_vol (fst (load_vobj s vobj)))
  /\ holds_array (t2_vol (fst (load_vobj s vobj)))
  /\ holds_array (pd_vol (fst (load_vobj s vobj))).
Proof.
  intros (a1 & E1) (a2 & E2) (a3 & E3). unfold load_vobj.
  destruct (field_array vobj "T1"); [| arrays_held].
  destruct (field_array vobj "T2"); [| arrays_held].
  destruct (has_field vobj "Rho").
  - destruct (field_array vobj "Rho"); arrays_held.
  - destruct (has_field vobj "PD").
    + destruct (field_array vobj "PD"); arrays_held.
    + arrays_held.
Qed.

Lemma load_flat_keeps_arrays (s : MRISimulatorModel) (mat : matfile) :
  holds_array (t1_vol s) -> holds_array (t2_vol s) -> holds_array (pd_vol s) ->
  holds_array (t1_vol (fst (load_flat s mat)))
  /\ holds_array (t2_vol (fst (load_flat s mat)))
  /\ holds_array (pd_vol (fst (load_flat s mat))).
Proof.
  intros (a1 & E1) (a2 & E2) (a3 & E3). unfold load_flat.
  destruct (truthy (find_key ["t1"; "t1_map"]%string mat)
            && truthy (find_key ["t2"; "t2_map"]%string mat))%bool;
    [| arrays_held].
  destruct (bind (mat_get mat (find_key ["t1"; "t1_map"]%string mat)) astype_float64);
    [| arrays_held].
  destruct (bind (mat_get mat (find_key ["t2"; "t2_map"]%string mat)) astype_float64);
    [| arrays_held].
  destruct (truthy (find_key ["rho"; "pd"; "pd_map"]%string mat)).
  - destruct (bind (mat_get mat (find_key ["rho"; "pd"; "pd_map"]%string mat))
                astype_float64); arrays_held.
  - arrays_held.
Qed.

Lemma clean_loaded_keeps_arrays (s : MRISimulatorModel) :
  holds_array (t1_vol s) -> holds_array (t2_vol s) -> holds_array (pd_vol s) ->
  holds_array (t1_vol (fst (clean_loaded s)))
  /\ holds_array (t2_vol (fst (clean_loaded s)))
  /\ holds_array (pd_vol (fst (clean_loaded s))).
Proof.
  intros (a1 & E1) (a2 & E2) (a3 & E3). unfold clean_loaded.
  cbn [t1_vol t2_vol pd_vol set_t1 set_t2 set_pd]. rewrite E1, E2, E3.
  destruct (np_max (nan_to_num_vol (Some a1))) as [m | e];
    [destruct (flt m 10) |]; arrays_held.
Qed.

(** An import, successful or not, leaves an array in each of the three
    volume slots that held one. *)
Lemma load_keeps_arrays (s : MRISimulatorModel) (loaded : result matfile) :
  fully_loaded (volumes s) -> fully_loaded (volumes (fst (load_mat_file s loaded))).
Proof.
  rewrite !fully_loaded_fields. intros (H1 & H2 & H3).
  destruct loaded as [mat | e]; [| cbn; auto].
  rewrite load_mat_file_parsed.
  assert (Hp : holds_array (t1_vol (fst (parsed s mat)))
               /\ holds_array (t2_vol (fst (parsed s mat)))
               /\ holds_array (pd_vol (fst (parsed s mat)))).
  { unfold parsed. destruct (assoc "VObj" mat) as [vobj |].
    - pose proof (load_vobj_keeps_arrays s vobj H1 H2 H3) as Hv.
      destruct (load_vobj s vobj) as [s1 [|]]; cbn [fst] in *; [exact Hv |].
      destruct Hv as (V1 & V2 & V3). apply load_flat_keeps_arrays; assumption.
    - apply load_flat_keeps_arrays; assumption. }
  destruct Hp as (P1 & P2 & P3).
  destruct (snd (parsed s mat)) as [[|] | e]; cbn [fst]; auto.
  apply clean_loaded_keeps_arrays; assumption.
Qed.

(** With a positive matrix size a render either leaves the store as it was
    or caches a new image together with its spectrum. *)
Lemma calculate_image_cases (s : MRISimulatorModel) (p : acquisition) :
  (0 < matrix_size p)%Z ->
  fst (calculate_image zoom rotate gaussian_filter1d s p) = s
  \/ exists img k,
       fst (calculate_image zoom rotate gaussian_filter1d s p)
         = set_k_space (set_current_image s img) (fftshift k)
       /\ fft2 img = Ok k.
Proof.
  intros HM. unfold calculate_image. destruct (t1_vol s) as [t1v |]; [| left; reflexivity].
  destruct (form_image zoom rotate gaussian_filter1d s t1v p) as [final | e0] eqn:Ef;
    [| left; reflexivity].
  assert (Hs : Z.of_nat (nrows final) = matrix_size p
               /\ Z.of_nat (ncols final) = matrix_size p).
  { unfold form_image in Ef.
    destruct (reslice t1v (t2_vol s) (pd_vol s) p) as [[[a b] c] |]; [| discriminate].
    cbn [bind] in Ef.
    destruct (sequence_signal gaussian_filter1d p a b c) as [sg |]; [| discriminate].
    cbn [bind] in Ef. eapply resample_shape; [| exact Ef]. lia. }
  destruct Hs as [Sh Sw].
  destruct (fft2_good final) as (k & Ek & _); [lia | lia |].
  rewrite Ek. right. exists final, k. split; [reflexivity | exact Ek].
Qed.

(** X8.  In every state a model object can reach (construction, then any
    imports, phantom reloads and renders with a positive matrix size) each of
    the three volume slots holds an array, so a render never answers "no
    data", and the cache is consistent: either nothing is cached, or the
    cached spectrum is [fftshift(fft2(...))] of the cached image. *)
Theorem session_invariant (s : MRISimulatorModel) :
  reachable zoom rotate gaussian_filter1d s ->
  fully_loaded (volumes s) /\ cache_consistent s
  /\ forall p, snd (calculate_image zoom rotate gaussian_filter1d s p) <> Ok None.
Proof.
  intros H.
  assert (Hinv : fully_loaded (volumes s) /\ cache_consistent s).
  { induction H as [| s loaded _ [IHv IHc] | s _ [IHv IHc] | s p _ [IHv IHc] HM].
    - split; [| exact I]. unfold fully_loaded. do 3 eexists. reflexivity.
    - split; [apply load_keeps_arrays; exact IHv |].
      destruct (load_mat_file_keeps_cache s loaded) as [Ec Ek].
      unfold cache_consistent. rewrite Ec, Ek. exact IHc.
    - split; [unfold fully_loaded; do 3 eexists; reflexivity | exact IHc].
    - destruct (calculate_image_cases s p HM) as [E | (img & k & E & Ek)].
      + rewrite E. split; assumption.
      + rewrite E. split; [exact IHv |].
        unfold cache_consistent. cbn. exists k. split; [exact Ek | reflexivity]. }
  destruct Hinv as [Hv Hc]. split; [exact Hv | split; [exact Hc |]].
  intros p. apply fully_loaded_fields in Hv. destruct Hv as ((a & E) & _).
  unfold calculate_image. rewrite E.
  destruct (form_image zoom rotate gaussian_filter1d s a p); [| discriminate].
  destruct (fft2 a0); discriminate.
Qed.

End SessionInvariants.

Lemma session_invariant_example :
  fully_loaded
    (volumes (fst (calculate_image same_zoom same_rotate same_filter
                     (fst (load_mat_file init (Ok file_text_T2))) t2_weighted)))
  /\ cache_consistent
       (fst (calculate_image same_zoom same_rotate same_filter
               (fst (load_mat_file init (Ok file_text_T2))) t2_weighted))
  /\ forall p,
       snd (calculate_image same_zoom same_rotate same_filter
              (fst (calculate_image same_zoom same_rotate same_filter
                      (fst (load_mat_file init (Ok file_text_T2))) t2_weighted)) p)
       <> Ok None.
Proof.
  apply (session_invariant same_zoom same_rotate same_filter).
  apply reach_render; [| cbn; lia]. apply reach_load. apply reach_init.
Defined.


(* ------------------------------------------------------------------ *)
(** ** Which arguments a render depends on *)

Section RenderArguments.

Variable zoom : array2 float64 -> R -> R -> result (array2 float64).
Variable rotate : array2 float64 -> R -> result (array2 float64).
Variable gaussian_filter1d : array2 float64 -> R -> result (array2 float64).

Lemma clamp_slice_idempotent (m i : Z) :
  clamp_slice m (clamp_slice m i) = clamp_slice m i.
Proof. unfold clamp_slice. lia. Qed.

Lemma clamp_ui_slice_index (m i : Z) :
  clamp_slice m (ui_slice_index i m) = clamp_slice m i.
Proof.
  unfold ui_slice_index, clamp_slice.
  destruct (m <=? i)%Z eqn:E1; destruct (0 <? m)%Z eqn:E2; cbn [andb]; lia.
Qed.

(** Two slice indices that clamp to the same slice give the same slabs. *)
Lemma reslice_by_clamp (t1v : ndarray) (t2v pdv : option ndarray)
    (p : acquisition) (i : Z) :
  (forall m, dim_at (shape t1v) (render_axis (view_plane p)) = Ok m ->
             clamp_slice m i = clamp_slice m (slice_idx p)) ->
  reslice t1v t2v pdv (with_slice_idx p i) = reslice t1v t2v pdv p.
Proof.
  unfold reslice, render_axis, axial_window. cbn [view_plane slice_idx thickness with_slice_idx].
  intros H.
  destruct (String.eqb (view_plane p) "axial"); cbn [negb].
  - destruct (dim_at (shape t1v) 2) as [m |]; [| reflexivity].
    cbn [bind]. rewrite (H m eq_refl). reflexivity.
  - destruct (String.eqb (view_plane p) "sagittal").
    + destruct (dim_at (shape t1v) 1) as [m |]; [| reflexivity].
      cbn [bind]. rewrite (H m eq_refl). reflexivity.
    + destruct (dim_at (shape t1v) 0) as [m |]; [| reflexivity].
      cbn [bind]. rewrite (H m eq_refl). reflexivity.
Qed.

(** A render is determined by the slabs and by every argument other than
    the slice index, the inversion time, the echo-train length and the echo
    spacing, which enter only through the slabs and the signal. *)
Lemma calculate_image_by_stages (s : MRISimulatorModel) (p q : acquisition) :
  (forall t1v, reslice t1v (t2_vol s) (pd_vol s) q = reslice t1v (t2_vol s) (pd_vol s) p) ->
  (forall a b c, sequence_signal gaussian_filter1d q a b c
                 = sequence_signal gaussian_filter1d p a b c) ->
  (forall m img, resample zoom rotate q m img = resample zoom rotate p m img) ->
  view_plane q = view_plane p ->
  calculate_image zoom rotate gaussian_filter1d s q
  = calculate_image zoom rotate gaussian_filter1d s p.
Proof.
  intros Hr Hs Hz Hv. unfold calculate_image, form_image.
  destruct (t1_vol s) as [t1v |]; [| reflexivity].
  rewrite Hr, Hv.
  destruct (reslice t1v (t2_vol s) (pd_vol s) p) as [[[a b] c] | e]; [| reflexivity].
  cbn [bind]. rewrite Hs.
  destruct (sequence_signal gaussian_filter1d p a b c) as [sg | e]; [| reflexivity].
  cbn [bind]. rewrite Hz. reflexivity.
Qed.

(** X9.  The slice index only matters through its clamped value: with [m]
    the extent of the volume along the axis the plane slices, a render at
    index [idx] is the render at [max(0, min(idx, m - 1))], results and store
    alike.  The adjustment the window makes before each call ([idx = m - 1]
    when [idx >= m > 0]) therefore changes nothing, and for the plane names
    ['axial'], ['sagittal'] and ['coronal'] this [m] is what
    [get_max_slice] reports. *)
Theorem slice_index_is_clamped (s : MRISimulatorModel) (t1v : ndarray)
    (p : acquisition) (m : Z) :
  t1_vol s = Some t1v ->
  dim_at (shape t1v) (render_axis (view_plane p)) = Ok m ->
  calculate_image zoom rotate gaussian_filter1d s
      (with_slice_idx p (clamp_slice m (slice_idx p)))
    = calculate_image zoom rotate gaussian_filter1d s p
  /\ calculate_image zoom rotate gaussian_filter1d s
       (with_slice_idx p (ui_slice_index (slice_idx p) m))
     = calculate_image zoom rotate gaussian_filter1d s p
  /\ (view_plane p = "axial"%string \/ view_plane p = "sagittal"%string
      \/ view_plane p = "coronal"%string ->
      get_max_slice s (view_plane p) = Ok m).
Proof.
  intros Ev Em.
  assert (Hgen : forall i, clamp_slice m i = clamp_slice m (slice_idx p) ->
            calculate_image zoom rotate gaussian_filter1d s (with_slice_idx p i)
            = calculate_image zoom rotate gaussian_filter1d s p).
  { intros i Hi. unfold calculate_image, form_image. rewrite Ev.
    rewrite reslice_by_clamp; [reflexivity |].
    intros m' Em'. rewrite Em in Em'. injection Em' as <-. exact Hi. }
  split; [apply Hgen, clamp_slice_idempotent |].
  split; [apply Hgen, clamp_ui_slice_index |].
  intros Hp. unfold get_max_slice. rewrite Ev.
  destruct Hp as [E | [E | E]]; rewrite E in *; cbn in Em |- *; exact Em.
Qed.

Lemma with_ti_unused (p : acquisition) (x : R) :
  contains "FLAIR" (seq_type p) = false ->
  forall a b c, sequence_signal gaussian_filter1d (with_ti p x) a b c
                = sequence_signal gaussian_filter1d p a b c.
Proof.
  intros H a b c. unfold sequence_signal.
  cbn [seq_type with_ti]. rewrite H. reflexivity.
Qed.

Lemma with_etl_unused (p : acquisition) (x : R) :
  contains "FLAIR" (seq_type p) = true \/ contains "EPI" (seq_type p) = true
  \/ contains "FSE" (seq_type p) = false ->
  forall a b c, sequence_signal gaussian_filter1d (with_etl p x) a b c
                = sequence_signal gaussian_filter1d p a b c.
Proof.
  intros H a b c. unfold sequence_signal. cbn [seq_type with_etl].
  destruct (contains "FLAIR" (seq_type p)); [reflexivity |].
  destruct (contains "EPI" (seq_type p)); [reflexivity |].
  destruct H as [H | [H | H]]; try discriminate. rewrite H. reflexivity.
Qed.

Lemma with_esp_unused (p : acquisition) (x : R) :
  contains "FLAIR" (seq_type p) = true
  \/ (contains "EPI" (seq_type p) = false /\ contains "FSE" (seq_type p) = false) ->
  forall a b c, sequence_signal gaussian_filter1d (with_esp p x) a b c
                = sequence_signal gaussian_filter1d p a b c.
Proof.
  intros H a b c. unfold sequence_signal. cbn [seq_type with_esp].
  destruct (contains "FLAIR" (seq_type p)); [reflexivity |].
  destruct H as [H | [H1 H2]]; [discriminate |]. rewrite H1, H2. reflexivity.
Qed.

(** X10.  The inversion time reaches the image only under a sequence name
    containing "FLAIR"; the echo-train length only under an "FSE" name that
    contains neither "FLAIR" nor "EPI"; the echo spacing only under an "EPI"
    or "FSE" name that does not contain "FLAIR".  Under any other name the
    render, result and store alike, is the same for every value of that
    argument. *)
Theorem sequence_arguments_unused (s : MRISimulatorModel) (p : acquisition) :
  (contains "FLAIR" (seq_type p) = false ->
   forall x, calculate_image zoom rotate gaussian_filter1d s (with_ti p x)
             = calculate_image zoom rotate gaussian_filter1d s p)
  /\ (contains "FLAIR" (seq_type p) = true \/ contains "EPI" (seq_type p) = true
      \/ contains "FSE" (seq_type p) = false ->
      forall x, calculate_image zoom rotate gaussian_filter1d s (with_etl p x)
                = calculate_image zoom rotate gaussian_filter1d s p)
  /\ (contains "FLAIR" (seq_type p) = true
      \/ (contains "EPI" (seq_type p) = false /\ contains "FSE" (seq_type p) = false) ->
      forall x, calculate_image zoom rotate gaussian_filter1d s (with_esp p x)
                = calculate_image zoom rotate gaussian_filter1d s p).
Proof.
  split; [| split]; intros H x; apply calculate_image_by_stages;
    try reflexivity.
  - apply with_ti_unused, H.
  - apply with_etl_unused, H.
  - apply with_esp_unused, H.
Qed.

(** X11.  The slice gap reaches the image only off the axial plane, where it
    scales the zoom height; the slice thickness selects the averaging window
    on the axial plane and only scales the zoom height off it.  So an axial
    render is the same for every gap, and off the axial plane the slabs are
    the same for every thickness: no averaging over neighbouring slices
    happens there. *)
Theorem gap_and_thickness_by_plane (s : MRISimulatorModel) (p : acquisition) :
  (view_plane p = "axial"%string ->
   forall g, calculate_image zoom rotate gaussian_filter1d s (with_gap p g)
             = calculate_image zoom rotate gaussian_filter1d s p)
  /\ (view_plane p <> "axial"%string ->
      forall t1v th,
        reslice t1v (t2_vol s) (pd_vol s) (with_thickness p th)
        = reslice t1v (t2_vol s) (pd_vol s) p).
Proof.
  split.
  - intros Hax g. unfold calculate_image, form_image.
    destruct (t1_vol s) as [t1v |]; [| reflexivity].
    change (reslice t1v (t2_vol s) (pd_vol s) (with_gap p g))
      with (reslice t1v (t2_vol s) (pd_vol s) p).
    destruct (reslice t1v (t2_vol s) (pd_vol s) p) as [[[a b] c] | e]; [| reflexivity].
    cbn [bind].
    change (sequence_signal gaussian_filter1d (with_gap p g) a b c)
      with (sequence_signal gaussian_filter1d p a b c).
    destruct (sequence_signal gaussian_filter1d p a b c) as [sg | e]; [| reflexivity].
    cbn [bind view_plane with_gap]. rewrite Hax. reflexivity.
  - intros Hmpr t1v th. unfold reslice. cbn [view_plane slice_idx with_thickness].
    destruct (String.eqb (view_plane p) "axial") eqn:E; [| reflexivity].
    apply String.eqb_eq in E. contradiction.
Qed.

End RenderArguments.

Lemma slice_index_is_clamped_example :
  calculate_image same_zoom same_rotate same_filter init
      (with_slice_idx (with_slice_idx t2_weighted 99)
         (clamp_slice 20 (slice_idx (with_slice_idx t2_weighted 99))))
    = calculate_image same_zoom same_rotate same_filter init
        (with_slice_idx t2_weighted 99)
  /\ calculate_image same_zoom same_rotate same_filter init
       (with_slice_idx (with_slice_idx t2_weighted 99)
          (ui_slice_index (slice_idx (with_slice_idx t2_weighted 99)) 20))
     = calculate_image same_zoom same_rotate same_filter init
         (with_slice_idx t2_weighted 99)
  /\ (view_plane (with_slice_idx t2_weighted 99) = "axial"%string
      \/ view_plane (with_slice_idx t2_weighted 99) = "sagittal"%string
      \/ view_plane (with_slice_idx t2_weighted 99) = "coronal"%string ->
      get_max_slice init (view_plane (with_slice_idx t2_weighted 99)) = Ok 20%Z).
Proof.
  apply (slice_index_is_clamped same_zoom same_rotate same_filter init
           (phantom_map 128 128 20 (fun v => fst (fst v)))
           (with_slice_idx t2_weighted 99) 20); reflexivity.
Defined.


(* ------------------------------------------------------------------ *)
(** ** Further properties of the signal equations *)

Section SignalFurther.

Lemma fmul_zero_or_nan (x y : float64) :
  x = Fin 0 \/ x = NaN -> fmul x y = Fin 0 \/ fmul x y = NaN.
Proof.
  intros [-> | ->]; [| right; reflexivity].
  destruct y as [b | | |]; cbn.
  - left. f_equal. ring.
  - right. apply sign_case_zero.
  - right. apply sign_case_zero.
  - right. reflexivity.
Qed.

Lemma fdiv_zero_or_nan (x y : float64) :
  x = Fin 0 \/ x = NaN -> fdiv x y = Fin 0 \/ fdiv x y = NaN.
Proof.
  intros [-> | ->]; [| right; reflexivity].
  destruct y as [b | | |]; cbn.
  - destruct (Req_dec_T b 0).
    + right. apply sign_case_zero.
    + left. f_equal. unfold Rdiv. ring.
  - left. reflexivity.
  - left. reflexivity.
  - right. reflexivity.
Qed.

Lemma nan_to_num_zero_or_nan (x : float64) :
  x = Fin 0 \/ x = NaN -> nan_to_num x = Fin 0.
Proof. intros [-> | ->]; reflexivity. Qed.

(** X12.  A voxel of proton density 0 gives signal exactly 0 under the
    steady-state equation (spin echo, gradient echo) and under inversion
    recovery, for every T1 and T2 entry (zero, negative, infinite or NaN
    included) and every TR, TE, TI and flip angle: whatever singularity the
    relaxation terms meet ends as 0 or NaN, which [np.nan_to_num] sends
    to 0. *)
Theorem zero_density_zero_signal (t1 t2 : float64) (TR TE TI FA : R) :
  MRIPhysics.spin_echo t1 t2 (Fin 0) TR TE FA = Fin 0
  /\ MRIPhysics.gradient_echo t1 t2 (Fin 0) TR TE FA = Fin 0
  /\ MRIPhysics.inversion_recovery t1 t2 (Fin 0) TR TE TI FA = Fin 0.
Proof.
  assert (Hss : MRIPhysics.calculate_signal_steady_state t1 t2 (Fin 0) TR TE FA = Fin 0).
  { unfold MRIPhysics.calculate_signal_steady_state, MRIPhysics.steady_state_signal.
    apply nan_to_num_zero_or_nan.
    apply fmul_zero_or_nan, fdiv_zero_or_nan, fmul_zero_or_nan, fmul_zero_or_nan.
    left. reflexivity. }
  split; [exact Hss | split; [exact Hss |]].
  unfold MRIPhysics.inversion_recovery, MRIPhysics.inversion_recovery_signal.
  apply nan_to_num_zero_or_nan.
  assert (H : forall x, x = Fin 0 \/ x = NaN -> fabs x = Fin 0 \/ fabs x = NaN).
  { intros x [-> | ->]; cbn; [left; f_equal; apply Rabs_R0 | right; reflexivity]. }
  apply H. apply fmul_zero_or_nan, fmul_zero_or_nan, fmul_zero_or_nan.
  left. reflexivity.
Qed.

End SignalFurther.



(* ------------------------------------------------------------------ *)
(** ** The content of a cropped or padded image *)

Section CropContent.

Context {A : Type}.
Variable zero : A.

Lemma nth_nil_default {B : Type} (j : nat) (d : B) : nth j [] d = d.
Proof. destruct j; reflexivity. Qed.

Lemma nth_py_slice {B : Type} (l : list B) (a n : Z) (i : nat) (d : B) :
  (0 <= a)%Z -> (Z.of_nat i < n)%Z ->
  nth i (py_slice l a (a + n)) d = nth (Z.to_nat a + i) l d.
Proof.
  intros Ha Hi. unfold py_slice, slice_bound.
  destruct (Z.ltb_spec a 0); [lia |].
  destruct (Z.ltb_spec (a + n) 0); [lia |].
  rewrite nth_firstn, nth_skipn.
  destruct (Nat.ltb_spec i
              (Z.to_nat (Z.min (a + n) (Z.of_nat (length l)) - Z.min a (Z.of_nat (length l))))).
  - f_equal. lia.
  - symmetry. apply nth_overflow. lia.
Qed.

Lemma py_slice_nil {B : Type} (a b : Z) : py_slice (@nil B) a b = [].
Proof. unfold py_slice. rewrite skipn_nil, firstn_nil. reflexivity. Qed.

Lemma get2_slice_rows (img : array2 A) (a n : Z) (i j : nat) :
  (0 <= a)%Z -> (Z.of_nat i < n)%Z ->
  get2 zero (slice_rows img a (a + n)) i j = get2 zero img (Z.to_nat a + i) j.
Proof.
  intros Ha Hi. unfold get2, slice_rows. cbn [rows].
  rewrite nth_py_slice by assumption. reflexivity.
Qed.

Lemma get2_slice_cols (img : array2 A) (a n : Z) (i j : nat) :
  (0 <= a)%Z -> (Z.of_nat j < n)%Z ->
  get2 zero (slice_cols img a (a + n)) i j = get2 zero img i (Z.to_nat a + j).
Proof.
  intros Ha Hj. unfold get2, slice_cols. cbn [rows].
  transitivity (nth j (nth i (map (fun r => py_slice r a (a + n)) (rows img))
                         (py_slice [] a (a + n))) zero).
  - rewrite py_slice_nil. reflexivity.
  - rewrite (map_nth (fun r => py_slice r a (a + n))).
    apply nth_py_slice; assumption.
Qed.

Lemma nth_blank_rows (w n k j : nat) :
  nth j (nth k (repeat (repeat zero w) n) []) zero = zero.
Proof.
  destruct (Nat.lt_ge_cases k n) as [Hk | Hk].
  - rewrite (nth_indep _ [] (repeat zero w)) by (rewrite repeat_length; exact Hk).
    rewrite nth_repeat. apply nth_repeat.
  - rewrite (nth_overflow (repeat (repeat zero w) n))
      by (rewrite repeat_length; exact Hk).
    apply nth_nil_default.
Qed.

Lemma get2_pad_rows (img : array2 A) (top bottom i j : nat) :
  get2 zero (pad_rows zero img top bottom) i j
  = if (i <? top)%nat then zero else get2 zero img (i - top) j.
Proof.
  unfold get2, pad_rows. cbn [rows].
  destruct (Nat.ltb_spec i top) as [Hi | Hi].
  - rewrite app_nth1 by (rewrite repeat_length; exact Hi). apply nth_blank_rows.
  - rewrite app_nth2 by (rewrite repeat_length; exact Hi). rewrite repeat_length.
    destruct (Nat.lt_ge_cases (i - top) (length (rows img))) as [Hr | Hr].
    + rewrite app_nth1 by exact Hr. reflexivity.
    + rewrite app_nth2 by exact Hr. rewrite nth_blank_rows.
      rewrite (nth_overflow (rows img)) by exact Hr.
      symmetry. apply nth_nil_default.
Qed.

Lemma get2_pad_cols (img : array2 A) (left right i j : nat) :
  get2 zero (pad_cols zero img left right) i j
  = if (j <? left)%nat then zero else get2 zero img i (j - left).
Proof.
  unfold get2, pad_cols. cbn [rows].
  destruct (Nat.lt_ge_cases i (length (rows img))) as [Hi | Hi].
  - rewrite (nth_indep _ [] (repeat zero left ++ [] ++ repeat zero right))
      by (rewrite length_map; exact Hi).
    rewrite (map_nth (fun r => repeat zero left ++ r ++ repeat zero right)).
    destruct (Nat.ltb_spec j left) as [Hj | Hj].
    + rewrite app_nth1 by (rewrite repeat_length; exact Hj). apply nth_repeat.
    + rewrite app_nth2 by (rewrite repeat_length; exact Hj). rewrite repeat_length.
      destruct (Nat.lt_ge_cases (j - left) (length (nth i (rows img) []))) as [Hc | Hc].
      * apply app_nth1. exact Hc.
      * rewrite app_nth2 by exact Hc. rewrite nth_repeat.
        symmetry. apply nth_overflow. exact Hc.
  - rewrite (nth_overflow (map _ (rows img))) by (rewrite length_map; exact Hi).
    rewrite (nth_overflow (rows img)) by exact Hi.
    rewrite !nth_nil_default. destruct (j <? left)%nat; reflexivity.
Qed.

Lemma get2_beyond_rows (img : array2 A) (i j : nat) :
  (nrows img <= i)%nat -> get2 zero img i j = zero.
Proof.
  intros H. unfold get2. rewrite (nth_overflow (rows img)) by exact H.
  apply nth_nil_default.
Qed.

Lemma get2_beyond_cols (img : array2 A) (i j : nat) :
  wf_array2 img -> (ncols img <= j)%nat -> get2 zero img i j = zero.
Proof.
  intros Hwf H. unfold get2.
  destruct (Nat.lt_ge_cases i (length (rows img))) as [Hi | Hi].
  - apply nth_overflow.
    unfold wf_array2 in Hwf. rewrite Forall_forall in Hwf.
    rewrite (Hwf (nth i (rows img) [])) by (apply nth_In; exact Hi). exact H.
  - rewrite (nth_overflow (rows img)) by exact Hi. apply nth_nil_default.
Qed.

(** The row step and the column step of [crop_or_pad], entry by entry. *)
Lemma crop_rows_entry (img : array2 A) (n : Z) (i j : nat) :
  (Z.of_nat i < n)%Z ->
  let h := Z.of_nat (nrows img) in
  let r := crop_source h n (Z.of_nat i) in
  get2 zero
    (if (0 <=? h - n)%Z
     then slice_rows img ((h - n) / 2) ((h - n) / 2 + n)
     else pad_rows zero img (Z.to_nat (Z.abs (h - n) / 2))
            (Z.to_nat (Z.abs (h - n) - Z.abs (h - n) / 2))) i j
  = if ((0 <=? r) && (r <? h))%Z then get2 zero img (Z.to_nat r) j else zero.
Proof.
  intros Hi h r. unfold r, crop_source. clear r.
  assert (Eh : h = Z.of_nat (nrows img)) by reflexivity. clearbody h.
  destruct (Z.leb_spec 0 (h - n)) as [Hd | Hd].
  - assert (H0 : (0 <= (h - n) / 2)%Z) by (apply Z.div_pos; lia).
    assert (H1 : ((h - n) / 2 <= h - n)%Z) by (apply Z.div_le_upper_bound; lia).
    rewrite get2_slice_rows by assumption.
    destruct (Z.leb_spec 0 (Z.of_nat i + (h - n) / 2)); [| lia].
    destruct (Z.ltb_spec (Z.of_nat i + (h - n) / 2) h); [| lia].
    cbn [andb]. f_equal. lia.
  - rewrite get2_pad_rows.
    assert (H0 : (0 <= Z.abs (h - n) / 2)%Z) by (apply Z.div_pos; lia).
    destruct (Nat.ltb_spec i (Z.to_nat (Z.abs (h - n) / 2))) as [Ht | Ht].
    + destruct (Z.leb_spec 0 (Z.of_nat i - Z.abs (h - n) / 2)); [lia | reflexivity].
    + destruct (Z.leb_spec 0 (Z.of_nat i - Z.abs (h - n) / 2)); [| lia].
      cbn [andb].
      destruct (Z.ltb_spec (Z.of_nat i - Z.abs (h - n) / 2) h) as [Hr | Hr].
      * f_equal. lia.
      * apply get2_beyond_rows. lia.
Qed.

Lemma crop_cols_entry (img : array2 A) (w n : Z) (i j : nat) :
  (Z.of_nat j < n)%Z ->
  let c := crop_source w n (Z.of_nat j) in
  get2 zero
    (if (0 <=? w - n)%Z
     then slice_cols img ((w - n) / 2) ((w - n) / 2 + n)
     else pad_cols zero img (Z.to_nat (Z.abs (w - n) / 2))
            (Z.to_nat (Z.abs (w - n) - Z.abs (w - n) / 2))) i j
  = if (0 <=? c)%Z then get2 zero img i (Z.to_nat c) else zero.
Proof.
  intros Hj c. unfold c, crop_source. clear c.
  destruct (Z.leb_spec 0 (w - n)) as [Hd | Hd].
  - assert (H0 : (0 <= (w - n) / 2)%Z) by (apply Z.div_pos; lia).
    rewrite get2_slice_cols by assumption.
    destruct (Z.leb_spec 0 (Z.of_nat j + (w - n) / 2)); [| lia].
    f_equal. lia.
  - rewrite get2_pad_cols.
    assert (H0 : (0 <= Z.abs (w - n) / 2)%Z) by (apply Z.div_pos; lia).
    destruct (Nat.ltb_spec j (Z.to_nat (Z.abs (w - n) / 2))) as [Ht | Ht].
    + destruct (Z.leb_spec 0 (Z.of_nat j - Z.abs (w - n) / 2)); [lia | reflexivity].
    + destruct (Z.leb_spec 0 (Z.of_nat j - Z.abs (w - n) / 2)); [| lia].
      f_equal. lia.
Qed.

(** Entry [(i, j)] of the result of [crop_or_pad]. *)
Lemma crop_or_pad_entry (img : array2 A) (n : Z) (i j : nat) :
  wf_array2 img -> (Z.of_nat i < n)%Z -> (Z.of_nat j < n)%Z ->
  let h := Z.of_nat (nrows img) in
  let w := Z.of_nat (ncols img) in
  let r := crop_source h n (Z.of_nat i) in
  let c := crop_source w n (Z.of_nat j) in
  get2 zero (crop_or_pad zero img n) i j
  = if ((0 <=? r) && (r <? h) && (0 <=? c) && (c <? w))%Z
    then get2 zero img (Z.to_nat r) (Z.to_nat c)
    else zero.
Proof.
  intros Hwf Hi Hj h w r c. unfold crop_or_pad. fold h. fold w.
  destruct ((h - n =? 0)%Z && (w - n =? 0)%Z)%bool eqn:Esame.
  - apply andb_prop in Esame. destruct Esame as [Eh Ew].
    apply Z.eqb_eq in Eh, Ew.
    assert (Er : r = Z.of_nat i).
    { unfold r, crop_source. rewrite Eh. cbn. lia. }
    assert (Ec : c = Z.of_nat j).
    { unfold c, crop_source. rewrite Ew. cbn. lia. }
    rewrite Er, Ec, !Nat2Z.id.
    destruct (Z.leb_spec 0 (Z.of_nat i)); [| lia].
    destruct (Z.ltb_spec (Z.of_nat i) h); [| lia].
    destruct (Z.leb_spec 0 (Z.of_nat j)); [| lia].
    destruct (Z.ltb_spec (Z.of_nat j) w); [| lia].
    reflexivity.
  - pose proof (crop_cols_entry
                  (if (0 <=? h - n)%Z
                   then slice_rows img ((h - n) / 2) ((h - n) / 2 + n)
                   else pad_rows zero img (Z.to_nat (Z.abs (h - n) / 2))
                          (Z.to_nat (Z.abs (h - n) - Z.abs (h - n) / 2)))
                  w n i j Hj) as Hc.
    cbv zeta in Hc. rewrite Hc. fold c.
    destruct (Z.leb_spec 0 c) as [Hc0 | Hc0];
      [| rewrite !andb_false_r; cbn [andb]; reflexivity].
    pose proof (crop_rows_entry img n i (Z.to_nat c) Hi) as Hr.
    cbv zeta in Hr. fold h in Hr. rewrite Hr. fold r.
    destruct ((0 <=? r)%Z && (r <? h)%Z)%bool; cbn [andb]; [| reflexivity].
    destruct (Z.ltb_spec c w) as [Hcw | Hcw]; [reflexivity |].
    apply get2_beyond_cols; [exact Hwf | lia].
Qed.

End CropContent.


Section CropRoundTrip.

Context {A : Type}.
Variable zero : A.

(** Two rectangular arrays of one shape with the same entries are equal. *)
Lemma array2_ext (a b : array2 A) :
  wf_array2 a -> wf_array2 b ->
  nrows a = nrows b -> ncols a = ncols b ->
  (forall i j, (i < nrows a)%nat -> (j < ncols a)%nat ->
               get2 zero a i j = get2 zero b i j) ->
  a = b.
Proof.
  destruct a as [wa ra], b as [wb rb]. unfold wf_array2, nrows, get2. cbn.
  intros Ha Hb Hn Hw Hget. subst wb. f_equal.
  rewrite Forall_forall in Ha, Hb.
  apply (nth_ext _ _ [] []); [exact Hn |].
  intros i Hi.
  assert (La : length (nth i ra []) = wa) by (apply Ha, nth_In; exact Hi).
  assert (Lb : length (nth i rb []) = wa) by (apply Hb, nth_In; rewrite <- Hn; exact Hi).
  apply (nth_ext _ _ zero zero); [congruence |].
  intros j Hj. apply Hget; [exact Hi | rewrite <- La; exact Hj].
Qed.

Lemma crop_or_pad_wf (img : array2 A) (n : Z) :
  wf_array2 img -> wf_array2 (crop_or_pad zero img n).
Proof.
  intros Hwf.
  apply (crop_or_pad_keeps (fun _ => True) zero img n I Hwf).
  unfold all2. rewrite Forall_forall. intros r _.
  rewrite Forall_forall. intros x _. exact I.
Qed.

(** X14.  What [crop_or_pad] puts where.  The result of a rectangular
    image is rectangular, [n] by [n], and entry [(i, j)] of the result is
    the entry of the input at row [i + (h - n) // 2] when the input is at
    least as tall as the target and at row [i - (n - h) // 2] when it is
    shorter, likewise for columns, and 0 wherever that position falls outside
    the input.  So a crop keeps the central window, a pad centres the image
    in zeros, and when the difference is odd the extra row or column is cut
    from, or added at, the bottom and the right. *)
Theorem crop_or_pad_entries (img : array2 A) (n : Z) :
  wf_array2 img -> (0 <= n)%Z ->
  let h := Z.of_nat (nrows img) in
  let w := Z.of_nat (ncols img) in
  wf_array2 (crop_or_pad zero img n)
  /\ Z.of_nat (nrows (crop_or_pad zero img n)) = n
  /\ Z.of_nat (ncols (crop_or_pad zero img n)) = n
  /\ forall i j : nat, (Z.of_nat i < n)%Z -> (Z.of_nat j < n)%Z ->
       let r := crop_source h n (Z.of_nat i) in
       let c := crop_source w n (Z.of_nat j) in
       get2 zero (crop_or_pad zero img n) i j
       = if ((0 <=? r) && (r <? h) && (0 <=? c) && (c <? w))%Z
         then get2 zero img (Z.to_nat r) (Z.to_nat c)
         else zero.
Proof.
  intros Hwf Hn h w.
  destruct (crop_or_pad_shape zero img n Hn) as [Hh Hw].
  split; [apply crop_or_pad_wf; exact Hwf | split; [exact Hh | split; [exact Hw |]]].
  intros i j Hi Hj. apply crop_or_pad_entry; assumption.
Qed.

(** X15.  Padding a square image to a larger matrix and cropping back to
    its own size returns the image: the crop offset [(n - m) // 2] is the pad
    offset, so no row or column is shifted or lost, for even and odd
    differences alike. *)
Theorem pad_then_crop (img : array2 A) (m n : Z) :
  wf_array2 img ->
  Z.of_nat (nrows img) = m -> Z.of_nat (ncols img) = m -> (m <= n)%Z ->
  crop_or_pad zero (crop_or_pad zero img n) m = img.
Proof.
  intros Hwf Hh Hw Hmn.
  assert (Hm : (0 <= m)%Z) by lia.
  pose proof (crop_or_pad_wf img n Hwf) as Hwf1.
  destruct (crop_or_pad_shape zero img n ltac:(lia)) as [Hh1 Hw1].
  destruct (crop_or_pad_shape zero (crop_or_pad zero img n) m Hm) as [Hh2 Hw2].
  apply array2_ext; [apply crop_or_pad_wf; exact Hwf1 | exact Hwf | lia | lia |].
  intros i j Hi Hj.
  assert (H0 : (0 <= (n - m) / 2)%Z) by (apply Z.div_pos; lia).
  assert (H1 : ((n - m) / 2 <= n - m)%Z) by (apply Z.div_le_upper_bound; lia).
  assert (Cs : forall k : nat,
            crop_source n m (Z.of_nat k) = (Z.of_nat k + (n - m) / 2)%Z).
  { intros k. unfold crop_source. destruct (Z.leb_spec 0 (n - m)); [reflexivity | lia]. }
  assert (Cb : forall k : nat,
            crop_source m n (Z.of_nat (Z.to_nat (Z.of_nat k + (n - m) / 2)))
            = Z.of_nat k).
  { intros k. unfold crop_source. rewrite Z2Nat.id by lia.
    destruct (Z.leb_spec 0 (m - n)) as [Hge | Hlt].
    - assert (E : n = m) by lia. subst n. rewrite Z.sub_diag. cbn. lia.
    - replace (Z.abs (m - n)) with (n - m)%Z by lia. lia. }
  rewrite crop_or_pad_entry by (assumption || lia).
  rewrite Hh1, Hw1, !Cs.
  destruct (Z.leb_spec 0 (Z.of_nat i + (n - m) / 2)); [| lia].
  destruct (Z.ltb_spec (Z.of_nat i + (n - m) / 2) n); [| lia].
  destruct (Z.leb_spec 0 (Z.of_nat j + (n - m) / 2)); [| lia].
  destruct (Z.ltb_spec (Z.of_nat j + (n - m) / 2) n); [| lia].
  cbn [andb].
  rewrite crop_or_pad_entry by (assumption || lia).
  rewrite Hh, Hw, !Cb.
  destruct (Z.leb_spec 0 (Z.of_nat i)); [| lia].
  destruct (Z.ltb_spec (Z.of_nat i) m); [| lia].
  destruct (Z.leb_spec 0 (Z.of_nat j)); [| lia].
  destruct (Z.ltb_spec (Z.of_nat j) m); [| lia].
  cbn [andb]. rewrite !Nat2Z.id. reflexivity.
Qed.

End CropRoundTrip.

Lemma crop_or_pad_entries_example :
  get2 0%Z (crop_or_pad 0%Z (mk_array2 3 [[1; 2; 3]; [4; 5; 6]; [7; 8; 9]]%Z) 2) 1 1 = 5%Z
  /\ get2 0%Z (crop_or_pad 0%Z (mk_array2 3 [[1; 2; 3]; [4; 5; 6]; [7; 8; 9]]%Z) 6) 1 1 = 1%Z
  /\ get2 0%Z (crop_or_pad 0%Z (mk_array2 3 [[1; 2; 3]; [4; 5; 6]; [7; 8; 9]]%Z) 6) 4 4 = 0%Z.
Proof.
  assert (Hwf : wf_array2 (mk_array2 3 [[1; 2; 3]; [4; 5; 6]; [7; 8; 9]]%Z)).
  { unfold wf_array2. cbn. repeat constructor. }
  destruct (crop_or_pad_entries 0%Z _ 2 Hwf ltac:(lia)) as (_ & _ & _ & H2).
  destruct (crop_or_pad_entries 0%Z _ 6 Hwf ltac:(lia)) as (_ & _ & _ & H6).
  split; [| split].
  - exact (H2 1%nat 1%nat eq_refl eq_refl).
  - exact (H6 1%nat 1%nat eq_refl eq_refl).
  - exact (H6 4%nat 4%nat eq_refl eq_refl).
Defined.

Lemma pad_then_crop_example :
  crop_or_pad 0%Z (crop_or_pad 0%Z (mk_array2 2 [[1; 2]; [3; 4]]%Z) 5) 2
  = mk_array2 2 [[1; 2]; [3; 4]]%Z.
Proof.
  apply (pad_then_crop 0%Z (mk_array2 2 [[1; 2]; [3; 4]]%Z) 2 5);
    [unfold wf_array2; cbn; repeat constructor | reflexivity | reflexivity | lia].
Defined.


(* ------------------------------------------------------------------ *)
(** ** Exports *)

Section Exports.

Lemma py_int_nonneg (x : R) :
  0 <= x -> (0 <= py_int x)%Z /\ IZR (py_int x) <= x.
Proof.
  intros Hx. unfold py_int. destruct (Rle_dec 0 x) as [_ | N]; [| lra].
  destruct (base_Int_part x) as [Hle Hgt]. split; [| exact Hle].
  assert (H : IZR (-1) < IZR (Int_part x)) by (simpl; lra).
  apply lt_IZR in H. lia.
Qed.

Lemma py_int_above (x : R) : 0 <= x -> x < IZR (py_int x) + 1.
Proof.
  intros Hx. unfold py_int. destruct (Rle_dec 0 x) as [_ | N]; [| lra].
  destruct (base_Int_part x) as [Hle Hgt]. lra.
Qed.

Lemma py_int_IZR (z : Z) : (0 <= z)%Z -> py_int (IZR z) = z.
Proof.
  intros Hz. assert (H0 : 0 <= IZR z) by (apply IZR_le in Hz; exact Hz).
  unfold py_int. destruct (Rle_dec 0 (IZR z)) as [_ | N]; [| lra].
  destruct (base_Int_part (IZR z)) as [Hle Hgt].
  apply le_IZR in Hle.
  assert (H : IZR (z - 1) < IZR (Int_part (IZR z))).
  { rewrite minus_IZR. lra. }
  apply lt_IZR in H. lia.
Qed.

(** The maximum of finite non-negative entries is one of them and bounds
    them all. *)
Lemma fold_maximum_fin (l : list float64) (x : float64) :
  Forall nonneg_fin (x :: l) ->
  exists m, fold_left maximum l x = Fin m /\ 0 <= m
            /\ In (Fin m) (x :: l)
            /\ forall y, In y (x :: l) -> exists v, y = Fin v /\ 0 <= v <= m.
Proof.
  revert x. induction l as [| y l IH]; intros x H.
  - inversion H as [| ? ? Hx _]; subst. destruct x as [r | | |]; try contradiction.
    cbn in Hx. exists r. cbn. split; [reflexivity | split; [exact Hx |]].
    split; [left; reflexivity |].
    intros y [<- | []]. exists r. split; [reflexivity | lra].
  - inversion H as [| ? ? Hx Hl]; subst. inversion Hl as [| ? ? Hy Hl']; subst.
    destruct x as [a | | |]; try contradiction.
    destruct y as [b | | |]; try contradiction.
    cbn in Hx, Hy. cbn [fold_left maximum].
    destruct (IH (Fin (Rmax a b))) as (m & Em & Hm & Hin & Hall).
    { constructor; [cbn; apply Rle_trans with a; [exact Hx | apply Rmax_l] | exact Hl']. }
    exists m. split; [exact Em | split; [exact Hm |]].
    assert (Hab : a <= m /\ b <= m).
    { destruct (Hall (Fin (Rmax a b)) (or_introl eq_refl)) as (v & Ev & Hv).
      injection Ev as <-. pose proof (Rmax_l a b). pose proof (Rmax_r a b). lra. }
    split.
    + destruct Hin as [E | Hin].
      * injection E as E. unfold Rmax in E. destruct (Rle_dec a b).
        -- right. left. f_equal. exact E.
        -- left. f_equal. exact E.
      * right. right. exact Hin.
    + intros z [<- | [<- | Hz]].
      * exists a. split; [reflexivity | lra].
      * exists b. split; [reflexivity | lra].
      * apply Hall. right. exact Hz.
Qed.

Lemma get2_in_concat (img : array2 float64) (i j : nat) :
  wf_array2 img -> (i < nrows img)%nat -> (j < ncols img)%nat ->
  In (get2 NaN img i j) (concat (rows img)).
Proof.
  intros Hwf Hi Hj. unfold get2. apply in_concat.
  exists (nth i (rows img) []). split; [apply nth_In; exact Hi |].
  apply nth_In. unfold wf_array2 in Hwf. rewrite Forall_forall in Hwf.
  rewrite (Hwf (nth i (rows img) [])) by (apply nth_In; exact Hi). exact Hj.
Qed.

Lemma get2_amap {B C : Type} (f : B -> C) (d : B) (e : C) (a : array2 B) (i j : nat) :
  wf_array2 a -> (i < nrows a)%nat -> (j < ncols a)%nat ->
  get2 e (amap f a) i j = f (get2 d a i j).
Proof.
  intros Hwf Hi Hj. unfold get2, amap. cbn [rows].
  assert (Hlen : length (nth i (rows a) []) = ncols a).
  { unfold wf_array2 in Hwf. rewrite Forall_forall in Hwf.
    apply Hwf, nth_In. exact Hi. }
  rewrite (nth_indep _ [] (map f [])) by (rewrite length_map; exact Hi).
  rewrite (map_nth (map f)).
  rewrite (nth_indep _ e (f d)) by (rewrite length_map, Hlen; exact Hj).
  apply map_nth.
Qed.

Lemma wf_amap {B C : Type} (f : B -> C) (a : array2 B) :
  wf_array2 a -> wf_array2 (amap f a).
Proof.
  unfold wf_array2, amap. cbn [rows ncols]. intros H.
  rewrite Forall_forall in *. intros r Hr. apply in_map_iff in Hr.
  destruct Hr as (r0 & <- & Hr0). rewrite length_map. apply H. exact Hr0.
Qed.

(** X16.  The pixel data of a DICOM export.  For a non-empty image of finite
    non-negative entries, [np.max] is one of its entries, and every pixel is
    stored as a 16-bit value in 0..65535: when the maximum [mx] is positive
    the stored level lies within one grey level of [v / mx * 65535] and the
    brightest pixel is 65535 whatever the signal level, and the levels are 0
    everywhere when the image is all zero.  No entry reaches the range where
    the conversion to [uint16] is undefined. *)
Theorem dicom_pixels_in_range (img : array2 float64) :
  good_image img -> (0 < nrows img)%nat -> (0 < ncols img)%nat ->
  exists (mx : R) (px : array2 (option Z)),
    image_max img = Ok (Fin mx) /\ 0 <= mx
    /\ dicom_pixels img = Ok px
    /\ shape2 px = shape2 img
    /\ (exists i j, (i < nrows img)%nat /\ (j < ncols img)%nat
                    /\ get2 NaN img i j = Fin mx)
    /\ forall i j, (i < nrows img)%nat -> (j < ncols img)%nat ->
         exists (v : R) (q : Z),
           get2 NaN img i j = Fin v /\ 0 <= v <= mx
           /\ get2 None px i j = Some q
           /\ (0 <= q <= 65535)%Z
           /\ (0 < mx -> IZR q - 1 < v / mx * 65535 < IZR q + 2)
           /\ (0 < mx -> v = mx -> q = 65535%Z)
           /\ (mx = 0 -> q = 0%Z).
Proof.
  intros [Hwf Hall] Hh Hw.
  assert (Hcat : Forall nonneg_fin (concat (rows img))).
  { unfold all2 in Hall. rewrite Forall_forall in *. intros x Hx.
    apply in_concat in Hx. destruct Hx as (r & Hr & Hx).
    specialize (Hall r Hr). rewrite Forall_forall in Hall. apply Hall. exact Hx. }
  pose proof (get2_in_concat img 0 0 Hwf Hh Hw) as H00.
  unfold dicom_pixels, image_max.
  destruct (concat (rows img)) as [| x l] eqn:Ec; [contradiction |].
  destruct (fold_maximum_fin l x Hcat) as (mx & Emx & Hmx & Hin & Hbound).
  rewrite Emx. cbn [bind].
  exists mx. eexists. split; [reflexivity | split; [exact Hmx |]].
  split; [reflexivity |]. split.
  { unfold shape2, nrows. destruct (fgt (Fin mx) 0); cbn [amap rows ncols];
      rewrite !length_map; reflexivity. }
  split.
  { rewrite <- Ec in Hin. apply in_concat in Hin. destruct Hin as (r & Hr & Hin).
    apply (In_nth _ _ []) in Hr. destruct Hr as (i & Hi & Er).
    apply (In_nth _ _ NaN) in Hin. destruct Hin as (j & Hj & Ev).
    exists i, j. split; [exact Hi |]. split.
    - unfold wf_array2 in Hwf. rewrite Forall_forall in Hwf.
      rewrite <- (Hwf r); [exact Hj |]. rewrite <- Er. apply nth_In. exact Hi.
    - unfold get2. rewrite Er. exact Ev. }
  intros i j Hi Hj.
  pose proof (get2_in_concat img i j Hwf Hi Hj) as Hij. rewrite Ec in Hij.
  destruct (Hbound _ Hij) as (v & Ev & Hv).
  unfold fgt. destruct (Rlt_dec 0 mx) as [Hpos | Hzero].
  - assert (Hq : 0 <= v / mx * 65535 <= 65535).
    { assert (H1 : 0 <= v / mx) by (apply div_nonneg; lra).
      assert (H2 : v / mx <= 1).
      { apply Rmult_le_reg_r with mx; [exact Hpos |].
        replace (v / mx * mx) with v by (field; lra). lra. }
      nra. }
    destruct (py_int_nonneg (v / mx * 65535)) as [Q0 Q1]; [lra |].
    exists v, (py_int (v / mx * 65535)).
    split; [exact Ev | split; [exact Hv |]]. split.
    { rewrite (get2_amap to_uint16 NaN None) by
        (try apply wf_amap; try exact Hwf; unfold nrows; cbn [amap rows ncols];
         rewrite ?length_map; assumption).
      rewrite (get2_amap _ NaN NaN) by assumption.
      rewrite Ev. rewrite fdiv_fin by lra. cbn [fmul to_uint16].
      destruct (Rlt_dec (-1) (v / mx * 65535)) as [_ | N]; [| lra].
      destruct (Rlt_dec (v / mx * 65535) 65536) as [_ | N]; [| lra].
      reflexivity. }
    split; [| split; [| split]].
    + split; [exact Q0 |]. apply le_IZR. lra.
    + intros _. pose proof (py_int_above (v / mx * 65535)). lra.
    + intros _ ->. replace (mx / mx * 65535) with (IZR 65535) by (field; lra).
      apply py_int_IZR. lia.
    + intros ->. lra.
  - assert (Hv0 : v = 0) by lra. assert (Hm0 : mx = 0) by lra.
    exists v, 0%Z. split; [exact Ev | split; [exact Hv |]]. split.
    { rewrite (get2_amap to_uint16 NaN None) by assumption.
      rewrite Ev, Hv0. cbn [to_uint16].
      destruct (Rlt_dec (-1) 0) as [_ | N]; [| lra].
      destruct (Rlt_dec 0 65536) as [_ | N]; [| lra].
      f_equal. apply (py_int_IZR 0). lia. }
    split; [lia |]. split; [intros; lra |]. split; [intros; lra | reflexivity].
Qed.

End Exports.


Lemma dicom_pixels_in_range_example :
  exists (mx : R) (px : array2 (option Z)),
    image_max (mk_array2 2 [[Fin 0; Fin 2]; [Fin 1; Fin 4]]) = Ok (Fin mx) /\ 0 <= mx
    /\ dicom_pixels (mk_array2 2 [[Fin 0; Fin 2]; [Fin 1; Fin 4]]) = Ok px
    /\ shape2 px = shape2 (mk_array2 2 [[Fin 0; Fin 2]; [Fin 1; Fin 4]])
    /\ (exists i j, (i < 2)%nat /\ (j < 2)%nat
                    /\ get2 NaN (mk_array2 2 [[Fin 0; Fin 2]; [Fin 1; Fin 4]]) i j = Fin mx)
    /\ forall i j, (i < 2)%nat -> (j < 2)%nat ->
         exists (v : R) (q : Z),
           get2 NaN (mk_array2 2 [[Fin 0; Fin 2]; [Fin 1; Fin 4]]) i j = Fin v
           /\ 0 <= v <= mx
           /\ get2 None px i j = Some q
           /\ (0 <= q <= 65535)%Z
           /\ (0 < mx -> IZR q - 1 < v / mx * 65535 < IZR q + 2)
           /\ (0 < mx -> v = mx -> q = 65535%Z)
           /\ (mx = 0 -> q = 0%Z).
Proof.
  apply (dicom_pixels_in_range (mk_array2 2 [[Fin 0; Fin 2]; [Fin 1; Fin 4]]));
    [| cbn; lia | cbn; lia].
  split; [unfold wf_array2; cbn; repeat constructor |].
  unfold all2. cbn. repeat constructor; cbn; lra.
Defined.

Section ExportCalls.

Variable zoom : array2 float64 -> R -> R -> result (array2 float64).
Variable rotate : array2 float64 -> R -> result (array2 float64).
Variable gaussian_filter1d : array2 float64 -> R -> result (array2 float64).

Lemma dicom_pixels_returned (img : array2 float64) :
  wf_array2 img -> (0 < nrows img)%nat -> (0 < ncols img)%nat ->
  exists px, dicom_pixels img = Ok px.
Proof.
  intros Hwf Hh Hw. pose proof (get2_in_concat img 0 0 Hwf Hh Hw) as H00.
  unfold dicom_pixels, image_max.
  destruct (concat (rows img)) as [| x l]; [contradiction |].
  cbn [bind]. eexists. reflexivity.
Qed.

(** Echo-train length 1 switches the blur of the FSE branch off: every
    sequence name outside the FLAIR and EPI families then gives the plain
    spin-echo signal. *)
Lemma single_echo_is_spin_echo (p : acquisition) (a b c : array2 float64) :
  contains "FLAIR" (seq_type p) = false -> contains "EPI" (seq_type p) = false ->
  etl p <= 1 ->
  sequence_signal gaussian_filter1d p a b c = spin_echo_image p a b c.
Proof.
  intros HF HE Hetl. unfold sequence_signal. rewrite HF, HE.
  destruct (contains "FSE" (seq_type p)); [| reflexivity].
  destruct (spin_echo_image p a b c) as [img | e]; [| reflexivity].
  cbn [bind]. destruct (Rlt_dec 1 (etl p)) as [H | _]; [lra | reflexivity].
Qed.

(** The depth of a stored volume fits the index type. *)
Lemma good_volume_depth (d0 d1 d2 : nat) (v : ndarray) :
  good_volume d0 d1 d2 v -> (0 < d0)%nat -> (0 < d1)%nat ->
  INR d2 <= IZR (2 ^ 63).
Proof.
  intros (_ & Hlen & _ & Hsz) P0 P1. rewrite INR_IZR_INZ. apply IZR_le.
  rewrite Hlen in Hsz. nia.
Qed.

(** X17.  What an export writes.  Before exporting, the window re-renders
    with the sequence, timing, slice and plane it shows but with every other
    argument at its default.  So on any store of well-formed volumes the
    exported image is 256 by 256 at a 240 mm field of view without rotation,
    whatever matrix size, field of view and rotation the window displays;
    the DICOM export then succeeds exactly when the pydicom calls do, and the
    spectrum export exactly when [savemat] does.  The echo-train length is 1
    in this call, so an exported FSE image carries no blur: under every name
    outside the FLAIR and EPI families the export is the spin-echo render. *)
Theorem export_renders_defaults
    (s : MRISimulatorModel) (d0 d1 d2 : nat) (v1 v2 v3 : ndarray)
    (seq : string) (TR TE TI FA : R) (idx : Z) (plane : string)
    (dataset save_as savemat : result unit) :
  zoom_contract zoom -> rotate_contract rotate -> filter_contract gaussian_filter1d ->
  t1_vol s = Some v1 -> t2_vol s = Some v2 -> pd_vol s = Some v3 ->
  good_volume d0 d1 d2 v1 -> good_volume d0 d1 d2 v2 -> good_volume d0 d1 d2 v3 ->
  (0 < d0)%nat -> (0 < d1)%nat -> (0 < d2)%nat ->
  0 <= TR -> 0 <= FA <= 180 ->
  let p := export_acquisition seq TR TE TI FA idx plane in
  let r := calculate_image zoom rotate gaussian_filter1d s p in
  (exists img, snd r = Ok (Some img) /\ shape2 img = (256, 256)%nat
               /\ current_image (fst r) = Some img)
  /\ export_dicom (fst r) dataset save_as
     = match dataset, save_as with
       | Ok _, Ok _ => (true, Success)
       | Raise e, _ => (false, ExportError e)
       | Ok _, Raise e => (false, ExportError e)
       end
  /\ export_kspace (fst r) savemat
     = match savemat with Ok _ => true | Raise _ => false end
  /\ (contains "FLAIR" seq = false -> contains "EPI" seq = false ->
      r = calculate_image zoom rotate gaussian_filter1d s
            (export_acquisition "SE" TR TE TI FA idx plane)).
Proof.
  intros Hz Hr Hf E1 E2 E3 G1 G2 G3 P0 P1 P2 Htr Hfa p r.
  assert (Hd2 : 1 <= INR d2).
  { replace 1 with (INR 1) by reflexivity. apply le_INR. lia. }
  assert (HM : (0 < matrix_size p)%Z) by (cbn; lia).
  assert (Hfov : 0 < fov p <= base_fov * IZR (matrix_size p))
    by (cbn; unfold base_fov; lra).
  assert (Hmpr : view_plane p <> "axial"%string ->
                 fov p <= INR d2 * (thickness p + gap p) * IZR (matrix_size p))
    by (intros _; cbn; nra).
  assert (Hesp : 0 < esp p) by (cbn; lra).
  assert (Hrange : sizes_in_range p (negb (String.eqb (view_plane p) "axial")) d2).
  { pose proof (good_volume_depth d0 d1 d2 v1 G1 P0 P1) as Hd.
    assert (Hb : IZR (2 ^ 63) * 2 <= IZR (2 ^ 1000)).
    { rewrite <- mult_IZR. apply IZR_le. discriminate. }
    assert (H63 : 0 < IZR (2 ^ 63)) by (apply IZR_lt; reflexivity).
    unfold sizes_in_range, base_fov. cbn [matrix_size fov thickness gap p export_acquisition].
    split; [| split; [| split; [| intros _; split; [| split]]]];
      try (apply below_range; lra); apply Rabs_le; lra. }
  destruct (render_good_store zoom rotate gaussian_filter1d s p d0 d1 d2 v1 v2 v3
              Hz Hr Hf E1 E2 E3 G1 G2 G3 P0 P1 P2 HM Hfov Hmpr Hrange Htr Hfa Hesp)
    as (img & k & Er & Sh & Sw & Gi & Ek & Sk).
  fold r in Er. cbn [matrix_size p export_acquisition] in Sh, Sw.
  assert (Hh : nrows img = 256%nat) by lia.
  assert (Hw : ncols img = 256%nat) by lia.
  split; [| split; [| split]].
  - exists img. rewrite Er. cbn [fst snd]. unfold shape2. rewrite Hh, Hw.
    repeat split; reflexivity.
  - rewrite Er. cbn [fst]. unfold export_dicom. cbn [current_image set_k_space
      set_current_image].
    destruct (dicom_pixels_returned img) as (px & Epx); [apply Gi | lia | lia |].
    rewrite Epx. destruct dataset as [[] | e]; cbn [bind]; [| reflexivity].
    destruct save_as as [[] | e]; reflexivity.
  - rewrite Er. cbn [fst]. unfold export_kspace. cbn [k_space set_k_space].
    reflexivity.
  - intros HF HE. unfold r, calculate_image, form_image. rewrite E1.
    change (reslice v1 (t2_vol s) (pd_vol s) (export_acquisition "SE" TR TE TI FA idx plane))
      with (reslice v1 (t2_vol s) (pd_vol s) p).
    destruct (reslice v1 (t2_vol s) (pd_vol s) p) as [[[a b] c] | e]; [| reflexivity].
    cbn [bind].
    rewrite (single_echo_is_spin_echo p) by (cbn; assumption || lra).
    rewrite (single_echo_is_spin_echo (export_acquisition "SE" TR TE TI FA idx plane))
      by (cbn; reflexivity || lra).
    reflexivity.
Qed.

End ExportCalls.

Lemma export_renders_defaults_example :
  let p := export_acquisition "FSE" 4000 100 0 90 10 "coronal" in
  let r := calculate_image same_zoom same_rotate same_filter init p in
  (exists img, snd r = Ok (Some img) /\ shape2 img = (256, 256)%nat
               /\ current_image (fst r) = Some img)
  /\ export_dicom (fst r) (Ok tt) (Ok tt) = (true, Success)
  /\ export_kspace (fst r) (Ok tt) = true
  /\ (contains "FLAIR" "FSE" = false -> contains "EPI" "FSE" = false ->
      r = calculate_image same_zoom same_rotate same_filter init
            (export_acquisition "SE" 4000 100 0 90 10 "coronal")).
Proof.
  pose proof (phantom_good 128 128 20 default_phantom_size) as Hg. cbn [generate_synthetic_phantom] in Hg.
  destruct Hg as (G1 & G2 & G3).
  apply (export_renders_defaults same_zoom same_rotate same_filter init 128 128 20
           _ _ _ "FSE" 4000 100 0 90 10 "coronal" (Ok tt) (Ok tt) (Ok tt)
           same_zoom_contract same_rotate_contract same_filter_contract
           eq_refl eq_refl eq_refl G1 G2 G3); try lia; lra.
Defined.


(* ------------------------------------------------------------------ *)
(** ** Further properties of the importer *)

Section ImporterFurther.

Lemma has_field_assoc (fields : list (string * option ndarray)) (name : string) :
  has_field (MStruct fields) name = match assoc name fields with
                                    | Some _ => true
                                    | None => false
                                    end.
Proof.
  cbn [has_field]. induction fields as [| [k v] l IH]; [reflexivity |].
  cbn [map fst existsb assoc]. destruct (String.eqb name k); [reflexivity | exact IH].
Qed.

Lemma nan_to_num_ones (l : list float64) :
  map nan_to_num (map (fun _ => Fin 1) l) = repeat (Fin 1) (length l).
Proof. induction l as [| x l IH]; [reflexivity |]. cbn. rewrite IH. reflexivity. Qed.

(** The cleaning block on three arrays of which the first has an entry. *)
Lemma clean_loaded_density (s : MRISimulatorModel) (a1 a2 a3 : ndarray) :
  t1_vol s = Some a1 -> t2_vol s = Some a2 -> pd_vol s = Some a3 ->
  data a1 <> [] ->
  snd (clean_loaded s) = (true, Loaded)
  /\ pd_vol (fst (clean_loaded s)) = nan_to_num_vol (Some a3).
Proof.
  intros E1 E2 E3 Hne. unfold clean_loaded.
  cbn [t1_vol t2_vol pd_vol set_t1 set_t2 set_pd]. rewrite E1, E2, E3.
  cbn [nan_to_num_vol option_map np_max data].
  destruct (data a1) as [| x l]; [contradiction |]. cbn [map].
  destruct (flt (fold_left maximum (map nan_to_num l) (nan_to_num x)) 10);
    split; reflexivity.
Qed.

(** X18.  Where the proton density of a VObj record comes from.  When the
    record's T1 and T2 fields are readable (and T1 has an entry), the import
    succeeds and the stored PD is the cleaned [Rho] field whenever the record
    has one, also when it has a [PD] field as well; the cleaned [PD] field
    when there is no [Rho]; and ones in the shape of T1 when there is
    neither.  Top-level keys of the container play no part. *)
Theorem vobj_density_source
    (s : MRISimulatorModel) (mat : matfile)
    (fields : list (string * option ndarray)) (a1 a2 : ndarray) :
  assoc "VObj" mat = Some (MStruct fields) ->
  assoc "T1" fields = Some (Some a1) ->
  assoc "T2" fields = Some (Some a2) ->
  data a1 <> [] ->
  (forall rho, assoc "Rho" fields = Some (Some rho) ->
     snd (load_mat_file s (Ok mat)) = (true, Loaded)
     /\ pd_vol (fst (load_mat_file s (Ok mat))) = nan_to_num_vol (Some rho))
  /\ (assoc "Rho" fields = None ->
      forall pd, assoc "PD" fields = Some (Some pd) ->
        snd (load_mat_file s (Ok mat)) = (true, Loaded)
        /\ pd_vol (fst (load_mat_file s (Ok mat))) = nan_to_num_vol (Some pd))
  /\ (assoc "Rho" fields = None -> assoc "PD" fields = None ->
      snd (load_mat_file s (Ok mat)) = (true, Loaded)
      /\ pd_vol (fst (load_mat_file s (Ok mat)))
         = Some (mk_ndarray (shape a1) (repeat (Fin 1) (length (data a1))))).
Proof.
  intros Hv H1 H2 Hne.
  assert (Hload : forall a3,
            load_vobj s (MStruct fields)
              = (set_pd (set_t2 (set_t1 s (Some a1)) (Some a2)) (Some a3), true) ->
            snd (load_mat_file s (Ok mat)) = (true, Loaded)
            /\ pd_vol (fst (load_mat_file s (Ok mat))) = nan_to_num_vol (Some a3)).
  { intros a3 E. rewrite load_mat_file_parsed. unfold parsed. rewrite Hv, E.
    cbn [fst snd]. apply (clean_loaded_density _ a1 a2 a3); try reflexivity. exact Hne. }
  split; [| split].
  - intros rho Hrho. apply Hload. unfold load_vobj.
    rewrite has_field_assoc. cbn [field_array]. rewrite H1, H2, Hrho. reflexivity.
  - intros Hno pd Hpd. apply Hload. unfold load_vobj.
    rewrite !has_field_assoc. cbn [field_array]. rewrite H1, H2, Hno, Hpd. reflexivity.
  - intros Hno Hnopd.
    destruct (Hload (mk_ndarray (shape a1) (map (fun _ => Fin 1) (data a1)))) as [Hs Hp].
    { unfold load_vobj. rewrite !has_field_assoc. cbn [field_array].
      rewrite H1, H2, Hno, Hnopd. reflexivity. }
    split; [exact Hs |]. rewrite Hp. cbn [nan_to_num_vol option_map shape data].
    rewrite nan_to_num_ones. reflexivity.
Qed.

Lemma Forall_finite_cleaned (l : list float64) :
  Forall is_finite (map nan_to_num l).
Proof.
  apply Forall_forall. intros x Hx. apply in_map_iff in Hx.
  destruct Hx as (y & <- & _). destruct y; exact I.
Qed.

(** X19.  What a successful import leaves behind: the message is "Loaded",
    the stored T1 volume has at least one entry (an empty T1 makes the unit
    check raise, and the call reports failure), and every entry of the stored
    PD volume is finite. *)
Theorem import_success_state (s : MRISimulatorModel) (loaded : result matfile) :
  fst (snd (load_mat_file s loaded)) = true ->
  snd (load_mat_file s loaded) = (true, Loaded)
  /\ exists a1 a2 a3,
       volumes (fst (load_mat_file s loaded)) = (Some a1, Some a2, Some a3)
       /\ data a1 <> []
       /\ Forall is_finite (data a3).
Proof.
  destruct loaded as [mat | e]; [| discriminate].
  rewrite load_mat_file_parsed.
  destruct (parsed_by_file s s mat) as [_ Hp].
  destruct (snd (parsed s mat)) as [[|] | e]; try discriminate.
  destruct (Hp eq_refl) as [_ (p1 & p2 & p3 & Ev)].
  unfold volumes in Ev. injection Ev as E1 E2 E3.
  unfold clean_loaded, volumes.
  cbn [t1_vol t2_vol pd_vol set_t1 set_t2 set_pd]. rewrite E1, E2, E3.
  cbn [nan_to_num_vol option_map np_max data].
  destruct (data p1) as [| x l] eqn:Ed; [discriminate |]. cbn [map].
  intros _.
  destruct (flt (fold_left maximum (map nan_to_num l) (nan_to_num x)) 10);
    cbn [fst snd t1_vol t2_vol pd_vol set_t1 set_t2 set_pd times_1000 option_map];
    (split; [reflexivity |]); do 3 eexists;
    (split; [reflexivity |]); cbn [data]; rewrite ?Ed; cbn [map];
    (split; [discriminate | apply Forall_finite_cleaned]).
Qed.

End ImporterFurther.


Lemma vobj_density_source_example :
  (forall rho,
     Some (Some (one_voxel 0.8)) = Some (Some rho) ->
     snd (load_mat_file init (Ok file_vobj_Rho_PD)) = (true, Loaded)
     /\ pd_vol (fst (load_mat_file init (Ok file_vobj_Rho_PD)))
        = nan_to_num_vol (Some rho))
  /\ pd_vol (fst (load_mat_file init (Ok file_vobj_Rho_PD))) = Some (one_voxel 0.8).
Proof.
  destruct (vobj_density_source init file_vobj_Rho_PD
              [("T1", Some (one_voxel 600)); ("T2", Some (one_voxel 70));
               ("PD", Some (one_voxel 0.5)); ("Rho", Some (one_voxel 0.8))]%string
              (one_voxel 600) (one_voxel 70) eq_refl eq_refl eq_refl)
    as (H & _ & _); [discriminate |].
  split; [exact H |].
  destruct (H (one_voxel 0.8) eq_refl) as [_ E]. exact E.
Defined.

Lemma import_success_state_example :
  snd (load_mat_file init (Ok file_T1_T2)) = (true, Loaded)
  /\ exists a1 a2 a3,
       volumes (fst (load_mat_file init (Ok file_T1_T2))) = (Some a1, Some a2, Some a3)
       /\ data a1 <> []
       /\ Forall is_finite (data a3).
Proof.
  apply (import_success_state init (Ok file_T1_T2)). apply file_T1_T2_loads.
Defined.


(* ------------------------------------------------------------------ *)
(** ** The controls the window hides *)

Section HiddenControls.

Variable zoom : array2 float64 -> R -> R -> result (array2 float64).
Variable rotate : array2 float64 -> R -> result (array2 float64).
Variable gaussian_filter1d : array2 float64 -> R -> result (array2 float64).

(** X20.  The window shows the TI control only for FLAIR, the ETL control
    only for FSE and the ESP control only for EPI and FSE.  For each of its
    six sequence entries, a control that is hidden is one the pipeline does
    not read under that entry: whatever value the hidden control holds, the
    render is the same. *)
Theorem hidden_controls_inert :
  length combo_seq_items = length presets
  /\ Forall (fun np => inert_when_hidden zoom rotate gaussian_filter1d (fst np) (snd np))
            (combine combo_seq_items presets).
Proof.
  split; [reflexivity |].
  unfold combo_seq_items, presets. cbn [combine].
  repeat (apply Forall_cons;
    [ cbn [fst snd]; intros s p q;
      (split; [| split]); cbn [ti_visible etl_visible esp_visible];
      intros H x; try discriminate H;
      apply calculate_image_by_stages; try reflexivity;
      first
        [ apply with_ti_unused; reflexivity
        | apply with_etl_unused;
          first [left; reflexivity | right; left; reflexivity | right; right; reflexivity]
        | apply with_esp_unused;
          first [left; reflexivity | right; split; reflexivity] ]
    | ]).
  apply Forall_nil.
Qed.

End HiddenControls.


(* ------------------------------------------------------------------ *)
(** ** A field of view below the double range of the pixel density *)

Section TinyFieldOfView.

Variable zoom : array2 float64 -> R -> R -> result (array2 float64).
Variable rotate : array2 float64 -> R -> result (array2 float64).
Variable gaussian_filter1d : array2 float64 -> R -> result (array2 float64).

(** X21.  A positive field of view so small that [matrix_size / fov] leaves
    the double range makes an axial render raise [OverflowError]: the pixel
    density is [+Inf], so is the target width [240 * inf], and [int()] of it
    raises.  This happens after the signal stage and before anything is
    cached, so the store is left as it was. *)
Theorem tiny_fov_raises
    (self : MRISimulatorModel) (p : acquisition)
    (d0 d1 d2 : nat) (v1 v2 v3 : ndarray) :
  filter_contract gaussian_filter1d ->
  t1_vol self = Some v1 -> t2_vol self = Some v2 -> pd_vol self = Some v3 ->
  good_volume d0 d1 d2 v1 -> good_volume d0 d1 d2 v2 -> good_volume d0 d1 d2 v3 ->
  (0 < d0)%nat -> (0 < d1)%nat -> (0 < d2)%nat ->
  view_plane p = "axial"%string ->
  (0 < matrix_size p <= 2 ^ 53)%Z ->
  0 < fov p -> overflow_threshold * fov p <= IZR (matrix_size p) ->
  0 <= tr p -> 0 <= fa p <= 180 -> 0 < esp p ->
  calculate_image zoom rotate gaussian_filter1d self p = (self, Raise OverflowError).
Proof.
  intros Hf E1 E2 E3 G1 G2 G3 P0 P1 P2 Hax HM Hfov Hov Htr Hfa Hesp.
  unfold calculate_image, form_image. rewrite E1, E2, E3.
  destruct (reslice_good d0 d1 d2 v1 v2 v3 p G1 G2 G3 P0 P1 P2)
    as (a & b & c & h & w & Er & Ga & Gb & Gc & Sa & Sb & Sc & Hh & Hw & _).
  rewrite Er. cbn [bind].
  destruct (sequence_signal_good gaussian_filter1d Hf p a b c h w
              Ga Gb Gc Sa Sb Sc Htr Hfa Hesp) as (s & Es & _ & _).
  rewrite Es. cbn [bind].
  rewrite Hax. change (negb ("axial" =? "axial")%string) with false.
  unfold resample.
  assert (HMr : Rabs (IZR (matrix_size p)) <= IZR (2 ^ 1000)).
  { apply Rabs_le.
    assert (H0 : 0 < IZR (matrix_size p)) by (apply (IZR_lt 0); lia).
    assert (H1 : IZR (matrix_size p) <= IZR (2 ^ 53)) by (apply IZR_le; lia).
    assert (H2 : IZR (2 ^ 53) <= IZR (2 ^ 1000)) by (apply IZR_le; discriminate).
    lra. }
  rewrite float_of_int_small by exact HMr. cbn [bind].
  unfold py_div. destruct (Req_dec_T (fov p) 0) as [E | _]; [lra |].
  rewrite fdiv_fin by lra. cbn [overflowing bind].
  rewrite overflow_at_least.
  2: { apply Rmult_le_reg_r with (fov p); [exact Hfov |].
       unfold Rdiv. rewrite Rmult_assoc, Rinv_l by lra. lra. }
  unfold py_mul, base_fov. cbn [fmul]. rewrite sign_case_pos by lra.
  reflexivity.
Qed.

End TinyFieldOfView.

Lemma tiny_fov_raises_example :
  calculate_image same_zoom same_rotate same_filter small_store fov_tiny
  = (small_store, Raise OverflowError).
Proof.
  assert (P : 0 < IZR (2 ^ 1024)) by (apply IZR_lt; reflexivity).
  assert (HM : (0 < matrix_size fov_tiny <= 2 ^ 53)%Z)
    by (split; [reflexivity | apply Z.leb_le; reflexivity]).
  assert (Hfov : 0 < fov fov_tiny) by (apply Rinv_0_lt_compat; exact P).
  assert (Hov : overflow_threshold * fov fov_tiny <= IZR (matrix_size fov_tiny)).
  { assert (H : overflow_threshold <= IZR (2 ^ 1024)).
    { unfold overflow_threshold. apply IZR_le. apply Z.leb_le. vm_compute. reflexivity. }
    cbn [fov matrix_size fov_tiny].
    apply Rmult_le_reg_r with (IZR (2 ^ 1024)); [exact P |].
    rewrite Rmult_assoc, Rinv_l by lra. lra. }
  assert (Htr : 0 <= tr fov_tiny) by (cbn; lra).
  assert (Hfa : 0 <= fa fov_tiny <= 180) by (cbn; lra).
  assert (Hesp : 0 < esp fov_tiny) by (cbn; lra).
  exact (tiny_fov_raises same_zoom same_rotate same_filter small_store fov_tiny
           1 1 1 (one_voxel 600) (one_voxel 70) (one_voxel 0.7)
           same_filter_contract eq_refl eq_refl eq_refl
           (one_voxel_good 600 ltac:(lra)) (one_voxel_good 70 ltac:(lra))
           (one_voxel_good 0.7 ltac:(lra))
           Nat.lt_0_1 Nat.lt_0_1 Nat.lt_0_1 eq_refl HM Hfov Hov Htr Hfa Hesp).
Defined.
